(** * CL_Minesweeper: a shallow embedding of [minesweeper.py] and [play.py]

    The Python program is translated function by function.  Python integers
    are [Z]; lists are [list]; the sets [hinted_cells] and [visited] are
    stdpp [gset]s of coordinate pairs; exceptions are values of [exn] carried
    by the error monad [result]; the console is a pair of line lists; the
    pseudo-random generator is a stream of draws handed to the constructor.
    IEEE-754 doubles ([total_cells * 0.10]) are the binary64 instance of the
    standard library's [SpecFloat].  The interpreter's recursion limit is the
    argument [frames] of [hint] and of the functions that call it: the number
    of nested calls still allowed there. *)

From Stdlib Require Import ZArith List String Ascii Lia Bool.
From Stdlib Require Import Floats.SpecFloat.
From Stdlib Require Import DecimalString.
From stdpp Require Import base option list gmap sets.

#[local] Open Scope Z_scope.

(* ===================================================================== *)
(** * The Python run-time the program relies on                          *)
(* ===================================================================== *)

(** The exceptions this program can raise.  [RecursionError] is raised by
    the interpreter when a call would nest deeper than its recursion limit
    ([sys.getrecursionlimit()], 1000 unless changed; the program never
    changes it). *)
Inductive exn : Set :=
| IndexError | AttributeError | ValueError | OverflowError | EOFError
| RecursionError.

#[global] Instance exn_eq_dec : EqDecision exn.
Proof. solve_decision. Defined.

(** Outcome of a call: a value, a raised exception, or [NoFuel] when the
    iteration budget of a fuelled loop is used up. *)
Inductive result (A : Type) : Type :=
| Ok (a : A)
| Raise (e : exn)
| NoFuel.
Arguments Ok {A} a.
Arguments Raise {A} e.
Arguments NoFuel {A}.

#[global] Instance result_ret : MRet result := fun _ a => Ok a.
#[global] Instance result_bind : MBind result := fun _ _ f m =>
  match m with
  | Ok a => f a
  | Raise e => Raise e
  | NoFuel => NoFuel
  end.
#[global] Instance result_fmap : FMap result := fun _ _ f m =>
  match m with
  | Ok a => Ok (f a)
  | Raise e => Raise e
  | NoFuel => NoFuel
  end.

(** A call of a Python function when [frames] more nested calls are allowed:
    with none left the call raises [RecursionError]; otherwise the body runs
    with one frame less. *)
Definition call {A : Type} (frames : nat) (body : nat → result A) : result A :=
  match frames with
  | O => Raise RecursionError
  | S frames' => body frames'
  end.

(** [for x in xs: body] threading the loop state. *)
Fixpoint for_each {X S : Type} (xs : list X) (body : X → S → result S) (s : S)
  : result S :=
  match xs with
  | [] => Ok s
  | x :: xs' => s' ← body x s; for_each xs' body s'
  end.

(** [range(a, b)]. *)
Definition py_range (a b : Z) : list Z := seqZ a (b - a).

(** [l[i]]: negative indices count from the end, anything else out of range
    raises [IndexError]. *)
Definition py_norm_index (len : nat) (i : Z) : result nat :=
  let n := Z.of_nat len in
  let j := if i <? 0 then i + n else i in
  if (0 <=? j) && (j <? n) then Ok (Z.to_nat j) else Raise IndexError.

Definition py_getitem {A : Type} (l : list A) (i : Z) : result A :=
  j ← py_norm_index (length l) i;
  match l !! j with
  | Some x => Ok x
  | None => Raise IndexError
  end.

(** [l[i] = x]. *)
Definition py_setitem {A : Type} (l : list A) (i : Z) (x : A) : result (list A) :=
  j ← py_norm_index (length l) i;
  Ok (<[j := x]> l).

(** ** Doubles *)

Definition float := spec_float.
Definition float_mul : float → float → float := SFmul 53 1024.

(** The literals [0.10], [0.15] and [0.20] as the nearest doubles:
    [0x1.999999999999ap-4], [0x1.3333333333333p-3], [0x1.999999999999ap-3]. *)
Definition lit_0_10 : float := S754_finite false 7205759403792794 (-56).
Definition lit_0_15 : float := S754_finite false 5404319552844595 (-55).
Definition lit_0_20 : float := S754_finite false 7205759403792794 (-55).

(** Conversion of an [int] operand to [float] for [int * float]: correctly
    rounded, [OverflowError] beyond the double range. *)
Definition float_of_int (n : Z) : result float :=
  match binary_normalize 53 1024 n 0 false with
  | S754_infinity _ | S754_nan => Raise OverflowError
  | f => Ok f
  end.

(** [int(x)]: truncation towards zero. *)
Definition int_of_float (x : float) : result Z :=
  match x with
  | S754_zero _ => Ok 0
  | S754_finite s m e =>
      let a := if 0 <=? e then Z.pos m * 2 ^ e else Z.pos m / 2 ^ (- e) in
      Ok (if s then - a else a)
  | S754_infinity _ => Raise OverflowError
  | S754_nan => Raise ValueError
  end.

(** [int(n * x)] for an [int] [n] and a [float] [x]. *)
Definition int_mul_float (n : Z) (x : float) : result Z :=
  f ← float_of_int n; int_of_float (float_mul f x).

(** ** [random.sample]

    The generator is a stream [draw] of natural numbers; the [i]-th selection
    takes the element at position [draw i mod (length pool)] out of the pool of
    elements not chosen yet, which is selection without replacement. *)
Fixpoint sample_from {A : Type} (draw : nat → nat) (i : nat) (pool : list A)
  (k : nat) : list A :=
  match k with
  | O => []
  | S k' =>
      let j := (draw i mod length pool)%nat in
      match pool !! j with
      | Some x => x :: sample_from draw (S i) (delete j pool) k'
      | None => []
      end
  end.

Definition random_sample {A : Type} (draw : nat → nat) (population : list A)
  (k : Z) : result (list A) :=
  if (0 <=? k) && (k <=? Z.of_nat (length population))
  then Ok (sample_from draw 0 population (Z.to_nat k))
  else Raise ValueError.

(* ===================================================================== *)
(** * [class Cell]                                                        *)
(* ===================================================================== *)

Record Cell : Set := mkCell {
  has_mine : bool;
  surrounding_mines_count : Z;
  is_open : bool
}.

(** What a position of [Grid.cells] holds: a [Cell] object, or a string once
    [_has_guessed_mine] has stored ['X'] there. *)
Inductive slot : Set :=
| SCell (c : Cell)
| SStr (s : string).

(** Attribute reads on a slot; a string has none of the attributes. *)
Definition attr {A : Type} (f : Cell → A) (s : slot) : result A :=
  match s with
  | SCell c => Ok (f c)
  | SStr _ => Raise AttributeError
  end.

(** Attribute writes on a slot. *)
Definition set_attr (f : Cell → Cell) (s : slot) : result slot :=
  match s with
  | SCell c => Ok (SCell (f c))
  | SStr _ => Raise AttributeError
  end.

Definition with_has_mine (b : bool) (c : Cell) : Cell :=
  mkCell b (surrounding_mines_count c) (is_open c).
Definition with_count (n : Z) (c : Cell) : Cell :=
  mkCell (has_mine c) n (is_open c).
Definition with_is_open (b : bool) (c : Cell) : Cell :=
  mkCell (has_mine c) (surrounding_mines_count c) b.

(** [Cell.open] *)
Definition Cell_open (s : slot) : result slot := set_attr (with_is_open true) s.

(** [Cell.unopened_non_mine] *)
Definition unopened_non_mine (s : slot) : result bool :=
  attr (fun c => negb (is_open c) && negb (has_mine c)) s.

(** [str(n)] for an [int]. *)
Definition str_of_int (n : Z) : string := NilZero.string_of_int (Z.to_int n).

(** [Cell.__str__]; [str] of a string is the string. *)
Definition slot_str (s : slot) : string :=
  match s with
  | SCell c =>
      if is_open c
      then (if negb (surrounding_mines_count c =? 0)
            then str_of_int (surrounding_mines_count c) else "0"%string)
      else " "%string
  | SStr x => x
  end.

(* ===================================================================== *)
(** * [class Grid]                                                        *)
(* ===================================================================== *)

Definition coord : Set := (Z * Z)%type.

(** [mine_count] is [None] while the attribute has not been assigned. *)
Record Grid : Type := mkGrid {
  width : Z;
  height : Z;
  difficulty : Z;
  cells : list (list slot);
  mine_count : option Z;
  hinted_cells : gset coord
}.

Definition with_cells (cs : list (list slot)) (g : Grid) : Grid :=
  mkGrid (width g) (height g) (difficulty g) cs (mine_count g) (hinted_cells g).
Definition with_mine_count (n : option Z) (g : Grid) : Grid :=
  mkGrid (width g) (height g) (difficulty g) (cells g) n (hinted_cells g).
Definition with_hinted_cells (h : gset coord) (g : Grid) : Grid :=
  mkGrid (width g) (height g) (difficulty g) (cells g) (mine_count g) h.

(** [self.cells[row][col]] *)
Definition get_slot (cs : list (list slot)) (row col : Z) : result slot :=
  r ← py_getitem cs row; py_getitem r col.

(** [self.cells[row][col] = v] *)
Definition put_slot (cs : list (list slot)) (row col : Z) (v : slot)
  : result (list (list slot)) :=
  j ← py_norm_index (length cs) row;
  r ← py_getitem cs row;
  r' ← py_setitem r col v;
  Ok (<[j := r']> cs).

(** [self.cells[row][col].<attribute> = ...] and [self.cells[row][col].open()] *)
Definition update_slot (cs : list (list slot)) (row col : Z)
  (f : slot → result slot) : result (list (list slot)) :=
  s ← get_slot cs row col;
  s' ← f s;
  put_slot cs row col s'.

(** [Grid._create_empty_cells]: one fresh [Cell] per position. *)
Definition _create_empty_cells (w h : Z) : list (list slot) :=
  (fun _ => (fun _ => SCell (mkCell false 0 false)) <$> py_range 0 w) <$> py_range 0 h.

(** [Grid._generate_grid_coordinate_positions] *)
Definition _generate_grid_coordinate_positions (g : Grid) : list coord :=
  row ← py_range 0 (height g); col ← py_range 0 (width g); [(row, col)].

(** [Grid._generate_mine_positions]; reading [self.mine_count] before it is
    assigned raises [AttributeError]. *)
Definition _generate_mine_positions (draw : nat → nat) (g : Grid)
  (coordinate_positions : list coord) : result (list coord) :=
  match mine_count g with
  | Some k => random_sample draw coordinate_positions k
  | None => Raise AttributeError
  end.

(** [Grid._identify_non_mine_positions] *)
Definition _identify_non_mine_positions (coordinate_positions mine_positions : list coord)
  : gset coord :=
  list_to_set coordinate_positions ∖ list_to_set mine_positions.

(** [Grid._place_mines] *)
Definition _place_mines (g : Grid) (mine_positions : list coord) : result Grid :=
  for_each mine_positions
    (fun '(row_index, column_index) (g : Grid) =>
       cs ← update_slot (cells g) row_index column_index (set_attr (with_has_mine true));
       Ok (with_cells cs g))
    g.

(** [Grid._is_valid_position] *)
Definition _is_valid_position (g : Grid) (row_index column_index : Z) : bool :=
  (0 <=? row_index) && (row_index <? height g)
  && ((0 <=? column_index) && (column_index <? width g)).

(** The two nested [for] loops of [_set_surrounding_mine_count] around one
    cell; [and] evaluates the cell only at a valid position. *)
Definition count_surrounding (g : Grid) (empty_row_index empty_column_index : Z)
  : result Z :=
  for_each (py_range (empty_row_index - 1) (empty_row_index + 2))
    (fun row_index (count : Z) =>
       for_each (py_range (empty_column_index - 1) (empty_column_index + 2))
         (fun column_index (count : Z) =>
            if _is_valid_position g row_index column_index
            then s ← get_slot (cells g) row_index column_index;
                 m ← attr has_mine s;
                 Ok (if m : bool then count + 1 else count)
            else Ok count)
         count)
    0.

(** [Grid._set_surrounding_mine_count]; the set is traversed in the order
    [positions]. *)
Definition _set_surrounding_mine_count (g : Grid) (positions : list coord)
  : result Grid :=
  for_each positions
    (fun '(empty_row_index, empty_column_index) (g : Grid) =>
       count ← count_surrounding g empty_row_index empty_column_index;
       cs ← update_slot (cells g) empty_row_index empty_column_index
              (set_attr (with_count count));
       Ok (with_cells cs g))
    g.

(** [Grid._set_cell_mines_and_surrounding_counts] *)
Definition _set_cell_mines_and_surrounding_counts (draw : nat → nat) (g : Grid)
  : result Grid :=
  let coordinate_positions := _generate_grid_coordinate_positions g in
  mine_positions ← _generate_mine_positions draw g coordinate_positions;
  g ← _place_mines g mine_positions;
  let non_mine_positions :=
    _identify_non_mine_positions coordinate_positions mine_positions in
  _set_surrounding_mine_count g (elements non_mine_positions).

(** [Grid.__init__] *)
Definition Grid_init (draw : nat → nat) (width height difficulty : Z) : result Grid :=
  let self := mkGrid width height difficulty (_create_empty_cells width height) None ∅ in
  let total_cells := width * height in
  self ←
    (if difficulty =? 1 then
       n ← int_mul_float total_cells lit_0_10;
       Ok (with_mine_count (Some (Z.max 1 n)) self)
     else if difficulty =? 2 then
       n ← int_mul_float total_cells lit_0_15;
       Ok (with_mine_count (Some (Z.max 2 n)) self)
     else if difficulty =? 3 then
       n ← int_mul_float total_cells lit_0_20;
       Ok (with_mine_count (Some (Z.max 3 n)) self)
     else Ok self);
  self ← _set_cell_mines_and_surrounding_counts draw self;
  Ok (with_hinted_cells ∅ self).

(** [for x in xs: if test(x): return True] followed by [return False]. *)
Fixpoint first_true {X : Type} (test : X → result bool) (xs : list X) : result bool :=
  match xs with
  | [] => Ok false
  | x :: xs' => b ← test x; if b : bool then Ok true else first_true test xs'
  end.

(** [Grid.has_unopened_non_mines] *)
Definition has_unopened_non_mines (g : Grid) : result bool :=
  first_true (first_true unopened_non_mine) (cells g).

(** [Grid.is_cell_open] *)
Definition is_cell_open (g : Grid) (row_index column_index : Z) : result bool :=
  s ← get_slot (cells g) row_index column_index; attr is_open s.

(** [Grid.has_mine] *)
Definition Grid_has_mine (g : Grid) (coordinate : coord) : result bool :=
  s ← get_slot (cells g) coordinate.1 coordinate.2; attr has_mine s.

(** [Grid.get_neighbours] *)
Definition get_neighbours (g : Grid) (row col : Z) : list coord :=
  r ← py_range (Z.max 0 (row - 1)) (Z.min (height g) (row + 2));
  c ← py_range (Z.max 0 (col - 1)) (Z.min (width g) (col + 2));
  if decide ((r, c) ≠ (row, col)) then [(r, c)] else [].

(** The test both [hint] and [_recursive_backtrack_search] make:
    [(row, col) not in self.hinted_cells and not self.cells[row][col].is_open
     and not self.cells[row][col].has_mine], evaluated left to right. *)
Definition unhinted_unopened_non_mine (g : Grid) (row col : Z) : result bool :=
  if decide ((row, col) ∈ hinted_cells g) then Ok false
  else
    s ← get_slot (cells g) row col;
    o ← attr is_open s;
    if o : bool then Ok false
    else m ← attr has_mine s; Ok (negb m).

(** The [for] loop over the neighbours in [_recursive_backtrack_search];
    [search] is the recursive call. *)
Fixpoint search_neighbours
  (search : Z → Z → gset coord → result (option coord * gset coord))
  (neighbours : list coord) (visited : gset coord)
  : result (option coord * gset coord) :=
  match neighbours with
  | [] => Ok (None, visited)
  | (neighbour_row, neighbour_col) :: rest =>
      if decide ((neighbour_row, neighbour_col) ∈ visited)
      then search_neighbours search rest visited
      else
        '(res, visited') ← search neighbour_row neighbour_col visited;
        match res with
        | Some found => Ok (Some found, visited')
        | None => search_neighbours search rest visited'
        end
  end.

(** [Grid._recursive_backtrack_search]; [visited] is the one set object all
    the calls of a search share, so it is threaded through and returned.
    [frames] is the number of nested calls the interpreter still allows when
    the method is called: the search calls itself once for each cell it goes
    down to and never catches an exception, so a search that nests deeper
    than the recursion limit ends in [RecursionError].  The call of
    [get_neighbours] needs a frame of its own. *)
Fixpoint _recursive_backtrack_search (frames : nat) (g : Grid) (row col : Z)
  (visited : gset coord) : result (option coord * gset coord) :=
  match frames with
  | O => Raise RecursionError
  | S frames' =>
      let visited := {[ (row, col) ]} ∪ visited in
      candidate ← unhinted_unopened_non_mine g row col;
      safe ← (if candidate : bool
              then s ← get_slot (cells g) row col;
                   n ← attr surrounding_mines_count s;
                   Ok (n =? 0)
              else Ok false);
      if safe : bool then Ok (Some (row, col), visited)
      else
        neighbours ← call frames' (fun _ => Ok (get_neighbours g row col));
        search_neighbours (_recursive_backtrack_search frames' g) neighbours visited
  end.

(** The two nested [for] loops of [hint] over the seeds. *)
Fixpoint hint_from (frames : nat) (g : Grid) (seeds : list coord)
  : result (option coord * Grid) :=
  match seeds with
  | [] => Ok (None, g)
  | (row, col) :: seeds' =>
      candidate ← unhinted_unopened_non_mine g row col;
      if candidate : bool then
        '(res, _) ← _recursive_backtrack_search frames g row col ∅;
        match res with
        | Some found =>
            Ok (Some found, with_hinted_cells ({[ found ]} ∪ hinted_cells g) g)
        | None => hint_from frames g seeds'
        end
      else hint_from frames g seeds'
  end.

(** The seeds in row-major order: [for row in range(self.height):
    for col in range(self.width)]. *)
Definition hint_seeds (g : Grid) : list coord :=
  row ← py_range 0 (height g); col ← py_range 0 (width g); [(row, col)].

(** [Grid.hint]; [frames] is the number of nested calls the interpreter
    still allows inside [hint]: the recursion limit less the frames of [hint]
    and of its callers. *)
Definition hint (frames : nat) (g : Grid) : result (option coord * Grid) :=
  hint_from frames g (hint_seeds g).

(** The recursion limit of an interpreter started with its defaults; fewer
    frames than this are left to a search. *)
Definition default_recursion_limit : nat := 1000.

(* ===================================================================== *)
(** * The console and the string functions of the driver                  *)
(* ===================================================================== *)

(** Lines still to be read from the keyboard and everything written so far. *)
Record console : Set := mkConsole {
  stdin : list string;
  stdout : list string
}.

(** [print(line)] *)
Definition print (line : string) (io : console) : console :=
  mkConsole (stdin io) (stdout io ++ [line]).

(** [input(prompt)]: [EOFError] when no line is left. *)
Definition input (prompt : string) (io : console) : result (string * console) :=
  match stdin io with
  | [] => Raise EOFError
  | line :: rest => Ok (line, mkConsole rest (stdout io ++ [prompt]))
  end.

(** White space in the sense of [str.strip] and [int], ASCII part. *)
Definition is_space (c : ascii) : bool :=
  let n := nat_of_ascii c in
  (n =? 32)%nat || ((9 <=? n)%nat && (n <=? 13)%nat) || ((28 <=? n)%nat && (n <=? 31)%nat).

Fixpoint lstrip (s : string) : string :=
  match s with
  | String c s' => if is_space c then lstrip s' else s
  | EmptyString => EmptyString
  end.

Fixpoint string_rev (s : string) : string :=
  match s with
  | String c s' => (string_rev s' ++ String c EmptyString)%string
  | EmptyString => EmptyString
  end.

(** [s.strip()] *)
Definition strip (s : string) : string :=
  string_rev (lstrip (string_rev (lstrip s))).

(** [s.lower()], ASCII part. *)
Definition lower_char (c : ascii) : ascii :=
  let n := nat_of_ascii c in
  if (65 <=? n)%nat && (n <=? 90)%nat then ascii_of_nat (n + 32) else c.

Fixpoint lower (s : string) : string :=
  match s with
  | String c s' => String (lower_char c) (lower s')
  | EmptyString => EmptyString
  end.

Definition digit_of (c : ascii) : option Z :=
  let n := nat_of_ascii c in
  if (48 <=? n)%nat && (n <=? 57)%nat then Some (Z.of_nat (n - 48)) else None.

(** Decimal digits, single underscores allowed between two digits. *)
Fixpoint digits_value (s : string) (acc : Z) : option Z :=
  match s with
  | EmptyString => Some acc
  | String c s' =>
      match digit_of c with
      | Some d => digits_value s' (10 * acc + d)
      | None =>
          match s' with
          | String c' _ =>
              if Ascii.eqb c "_" && bool_decide (is_Some (digit_of c'))
              then digits_value s' acc else None
          | EmptyString => None
          end
      end
  end.

Definition unsigned_value (s : string) : option Z :=
  match s with
  | String c _ => if bool_decide (is_Some (digit_of c)) then digits_value s 0 else None
  | EmptyString => None
  end.

(** [int(s)] for a string: [ValueError] unless [s] is a decimal literal. *)
Definition int_of_str (s : string) : result Z :=
  let v :=
    match strip s with
    | String "-" t => Z.opp <$> unsigned_value t
    | String "+" t => unsigned_value t
    | t => unsigned_value t
    end in
  match v with
  | Some n => Ok n
  | None => Raise ValueError
  end.

(** [repr] of a string without quotes or escapes, as [print] shows it inside
    a list. *)
Definition repr_str (s : string) : string := ("'" ++ s ++ "'")%string.

Fixpoint join (sep : string) (items : list string) : string :=
  match items with
  | [] => EmptyString
  | [x] => x
  | x :: rest => (x ++ sep ++ join sep rest)%string
  end.

(** [Grid.print]: one printed list of cell strings per row. *)
Definition Grid_print (g : Grid) (io : console) : console :=
  foldl (fun io row =>
           print ("[" ++ join ", " (repr_str <$> (slot_str <$> row)) ++ "]")%string io)
        io (cells g).

(* ===================================================================== *)
(** * [class Minesweeper]                                                 *)
(* ===================================================================== *)

Record Minesweeper : Type := mkGame { grid : Grid }.

(** [Minesweeper.__init__] *)
Definition Minesweeper_init (draw : nat → nat) (width height difficulty : Z)
  : result Minesweeper :=
  g ← Grid_init draw width height difficulty; Ok (mkGame g).

(** The [while True] loop of [_get_valid_coordinate]; [int(...)] raising
    [ValueError] is caught, any other exception propagates. *)
Fixpoint get_valid_coordinate_loop (fuel : nat) (prompt : string) (max_index : Z)
  (io : console) : result (Z * console) :=
  match fuel with
  | O => NoFuel
  | S fuel' =>
      '(line, io) ← input prompt io;
      match int_of_str line with
      | Ok coordinate =>
          if (0 <=? coordinate) && (coordinate <=? max_index)
          then Ok (coordinate, io)
          else
            get_valid_coordinate_loop fuel' prompt max_index
              (print ("Invalid input. Please enter a number between 0 and "
                      ++ str_of_int max_index ++ ".")%string io)
      | Raise ValueError =>
          get_valid_coordinate_loop fuel' prompt max_index
            (print "Invalid input. Please enter a valid number." io)
      | Raise e => Raise e
      | NoFuel => NoFuel
      end
  end.

(** [Minesweeper._get_valid_coordinate]: every turn of the loop reads a
    line, so one turn per remaining line and one more is enough. *)
Definition _get_valid_coordinate (plane : string) (max_index : Z) (io : console)
  : result (Z * console) :=
  get_valid_coordinate_loop (S (length (stdin io)))
    ("Enter " ++ plane ++ " coordinate between 0 and " ++ str_of_int max_index ++ ": ")%string
    max_index io.

(** The [while True] loop of [_get_user_guess]. *)
Fixpoint get_user_guess_loop (fuel : nat) (self : Minesweeper) (io : console)
  : result (coord * console) :=
  match fuel with
  | O => NoFuel
  | S fuel' =>
      let max_row_index := width (grid self) - 1 in
      let max_col_index := height (grid self) - 1 in
      '(column_index, io) ← _get_valid_coordinate "column" max_row_index io;
      '(row_index, io) ← _get_valid_coordinate "row" max_col_index io;
      opened ← is_cell_open (grid self) row_index column_index;
      if opened : bool
      then get_user_guess_loop fuel' self
             (print "Invalid input. The cell is already opened. Please choose another cell." io)
      else Ok ((row_index, column_index), io)
  end.

(** [Minesweeper._get_user_guess] *)
Definition _get_user_guess (self : Minesweeper) (io : console)
  : result (coord * console) :=
  get_user_guess_loop (S (length (stdin io))) self io.

(** [Minesweeper._has_guessed_mine] *)
Definition _has_guessed_mine (self : Minesweeper) (user_coordinate_guess : coord)
  (io : console) : result (bool * Minesweeper * console) :=
  mine ← Grid_has_mine (grid self) user_coordinate_guess;
  if mine : bool then
    cs ← put_slot (cells (grid self)) user_coordinate_guess.1 user_coordinate_guess.2
           (SStr "X");
    let self := mkGame (with_cells cs (grid self)) in
    let io := Grid_print (grid self) io in
    let io := print "You guessed a mine." io in
    Ok (true, self, io)
  else Ok (false, self, io).

(** [Minesweeper.request_hint]; [frames] as for [hint]. *)
Definition request_hint (frames : nat) (self : Minesweeper) (io : console)
  : result (Minesweeper * console) :=
  '(h, g) ← hint frames (grid self);
  match h with
  | Some (row, col) =>
      Ok (mkGame g,
          print ("Hint: Try opening the cell at (" ++ str_of_int row ++ ", "
                 ++ str_of_int col ++ ")")%string io)
  | None => Ok (mkGame g, print "No safe cells available for a hint!" io)
  end.

(** What [play] does with a guess: [_has_guessed_mine], and for a cell without
    a mine [open()] and [print()].  The flag tells whether a mine was hit. *)
Definition reveal (self : Minesweeper) (user_coordinate_guess : coord) (io : console)
  : result (bool * Minesweeper * console) :=
  '(mine, self, io) ← _has_guessed_mine self user_coordinate_guess io;
  if mine : bool then Ok (true, self, print "Game Over:(" io)
  else
    cs ← update_slot (cells (grid self)) user_coordinate_guess.1 user_coordinate_guess.2
           Cell_open;
    let self := mkGame (with_cells cs (grid self)) in
    Ok (false, self, Grid_print (grid self) io).

(** How a turn of the [while] loop of [play] ends: the loop goes on, it is
    left by [break] after a mine, or its condition is false and the [else]
    branch of the loop runs. *)
Inductive game_state : Set := InProgress | Lost | Won.

(** One evaluation of the loop condition of [play] and, if it holds, of the
    loop body; [frames] as for [hint]. *)
Definition play_turn (frames : nat) (self : Minesweeper) (io : console)
  : result (game_state * Minesweeper * console) :=
  more ← has_unopened_non_mines (grid self);
  if more : bool then
    '(line, io) ← input "Enter 'play' to make a move, or 'hint' to get a hint: " io;
    let action := lower (strip line) in
    if String.eqb action "play" then
      let io := Grid_print (grid self) io in
      '(user_coordinate_guess, io) ← _get_user_guess self io;
      '(mine, self, io) ← reveal self user_coordinate_guess io;
      Ok (if mine : bool then Lost else InProgress, self, io)
    else if String.eqb action "hint" then
      '(self, io) ← request_hint frames self io;
      Ok (InProgress, self, io)
    else
      Ok (InProgress, self, print "Invalid option. Please choose 'play' or 'hint'." io)
  else
    Ok (Won, self, print "Congratulations, you won!" (Grid_print (grid self) io)).

(** The [while] loop of [play]; [fuel] bounds the number of turns. *)
Fixpoint play_loop (frames fuel : nat) (self : Minesweeper) (io : console)
  : result (game_state * Minesweeper * console) :=
  match fuel with
  | O => NoFuel
  | S fuel' =>
      '(st, self, io) ← play_turn frames self io;
      match st with
      | InProgress => play_loop frames fuel' self io
      | _ => Ok (st, self, io)
      end
  end.

(** [Minesweeper.play]: a turn that goes on has read a line. *)
Definition play (frames : nat) (self : Minesweeper) (io : console)
  : result (game_state * Minesweeper * console) :=
  play_loop frames (S (length (stdin io))) self io.

(* ===================================================================== *)
(** * [play.py]                                                           *)
(* ===================================================================== *)

(** The [while True] loop asking for the dimensions; [int(...)] is not
    guarded here. *)
Fixpoint read_dimensions_loop (fuel : nat) (io : console) : result (Z * Z * console) :=
  match fuel with
  | O => NoFuel
  | S fuel' =>
      '(line, io) ← input "Enter the width of the grid: " io;
      width ← int_of_str line;
      '(line, io) ← input "Enter the height of the grid: " io;
      height ← int_of_str line;
      if (1 <? width) && (1 <? height) then Ok (width, height, io)
      else read_dimensions_loop fuel'
             (print "The grid must be at least 2x2. Please enter valid dimensions." io)
  end.

Definition read_dimensions (io : console) : result (Z * Z * console) :=
  read_dimensions_loop (S (length (stdin io))) io.

(** The main program; [frames] as for [hint]. *)
Definition main (frames : nat) (draw : nat → nat) (io : console)
  : result (game_state * Minesweeper * console) :=
  '(width, height, io) ← read_dimensions io;
  '(line, io) ← input "Choose your difficulty Easy:1, Medium:2, Hard:3 : " io;
  diff ← int_of_str line;
  game ← Minesweeper_init draw width height diff;
  play frames game io.

(* ===================================================================== *)
(** * Vocabulary of the statements                                      *)
(* ===================================================================== *)

Definition is_cell (s : slot) : Prop := ∃ c, s = SCell c.

(** [height] rows of [width] slots. *)
Definition grid_shape (g : Grid) : Prop :=
  length (cells g) = Z.to_nat (height g)
  ∧ Forall (fun row => length row = Z.to_nat (width g)) (cells g).

(** The shape is right and every slot holds a [Cell]: the state of a game
    in which no mine has been guessed. *)
Definition wf_grid (g : Grid) : Prop :=
  grid_shape g ∧ Forall (Forall is_cell) (cells g).

Definition in_grid (g : Grid) (rc : coord) : Prop :=
  0 <= rc.1 < height g ∧ 0 <= rc.2 < width g.

#[global] Instance in_grid_dec g rc : Decision (in_grid g rc).
Proof. unfold in_grid. apply _. Defined.

(** The cell object at a position, if it holds one. *)
Definition cell_at (g : Grid) (rc : coord) : option Cell :=
  match get_slot (cells g) rc.1 rc.2 with
  | Ok (SCell c) => Some c
  | _ => None
  end.

(** A mine at a position of the grid. *)
Definition mine_at (g : Grid) (rc : coord) : Prop :=
  has_mine <$> cell_at g rc = Some true.

#[global] Instance mine_at_dec g rc : Decision (mine_at g rc).
Proof. unfold mine_at. apply _. Defined.

(** The 3 by 3 window the counting loops range over. *)
Definition window (rc : coord) : list coord :=
  r ← py_range (rc.1 - 1) (rc.1 + 2); c ← py_range (rc.2 - 1) (rc.2 + 2); [(r, c)].

Definition surrounding (g : Grid) (rc : coord) : Z :=
  Z.of_nat (length (filter (fun x => in_grid g x ∧ mine_at g x) (window rc))).

(** What the constructor leaves in the cells, given the sampled positions. *)
Definition built_cell (g : Grid) (mine_positions : list coord) (rc : coord) : Cell :=
  if decide (rc ∈ mine_positions) then mkCell true 0 false
  else mkCell false (surrounding g rc) false.

(** The number of mines for a difficulty, as [__init__] computes it. *)
Definition tier_mine_count (difficulty total_cells : Z) : option (result Z) :=
  if difficulty =? 1 then Some (Z.max 1 <$> int_mul_float total_cells lit_0_10)
  else if difficulty =? 2 then Some (Z.max 2 <$> int_mul_float total_cells lit_0_15)
  else if difficulty =? 3 then Some (Z.max 3 <$> int_mul_float total_cells lit_0_20)
  else None.

(** A cell [hint] may return: not hinted before, unopened, without a mine and
    with no mine around it. *)
Definition hintable (g : Grid) (rc : coord) : Prop :=
  (rc ∉ hinted_cells g)
  ∧ (∃ c, cell_at g rc = Some c
          ∧ is_open c = false ∧ has_mine c = false ∧ surrounding_mines_count c = 0).

(** A cell [hint] may start a search from. *)
Definition seed_candidate (g : Grid) (rc : coord) : Prop :=
  (rc ∉ hinted_cells g)
  ∧ (∃ c, cell_at g rc = Some c ∧ is_open c = false ∧ has_mine c = false).

(** The cells of the grid as a set. *)
Definition grid_set (g : Grid) : gset coord := list_to_set (hint_seeds g).

(** With [f] frames a search started at an unvisited cell of the grid, with
    fewer than [f] cells unvisited, does not run into the recursion limit, and
    what it returns contains what was visited before. *)
Definition returns_with (g : Grid) (f : nat)
  (search : Z → Z → gset coord → result (option coord * gset coord)) : Prop :=
  ∀ r c v, in_grid g (r, c) → (r, c) ∉ v → (size (grid_set g ∖ v) < f)%nat →
    search r c v ≠ Raise RecursionError ∧ search r c v ≠ NoFuel
    ∧ ∀ res v', search r c v = Ok (res, v') → {[ (r, c) ]} ∪ v ⊆ v'.

(** Going from the visited set [v] to [v']: every cell added is a cell of the
    grid that cannot be returned, and all its neighbours are in [v']. *)
Definition explored (g : Grid) (v v' : gset coord) : Prop :=
  v ⊆ v'
  ∧ ∀ x, x ∈ v' → x ∉ v →
      in_grid g x ∧ ¬ hintable g x
      ∧ ∀ y, y ∈ get_neighbours g x.1 x.2 → y ∈ v'.

Definition explores (g : Grid)
  (search : Z → Z → gset coord → result (option coord * gset coord)) : Prop :=
  ∀ r c v, in_grid g (r, c) →
    match search r c v with
    | Ok (None, v') => (r, c) ∈ v' ∧ explored g v v'
    | Raise e => e = RecursionError
    | _ => True
    end.

(** A double with its sign changed. *)
Definition float_opp (f : float) : float :=
  match f with
  | S754_zero s => S754_zero (negb s)
  | S754_infinity s => S754_infinity (negb s)
  | S754_nan => S754_nan
  | S754_finite s m e => S754_finite (negb s) m e
  end.

(** The mantissa a positive product is rounded to when [s] low bits go. *)
Definition rne (M s : Z) : Z :=
  match s with
  | Z.pos p =>
      round_nearest_even (M / 2 ^ s)
        (loc_of_shr_record
           (Build_shr_record (M / 2 ^ s) (Z.odd (M / 2 ^ (s - 1)))
              (negb (M mod 2 ^ (s - 1) =? 0))))
  | _ => M
  end.

#[global] Instance is_cell_dec s : Decision (is_cell s).
Proof.
  destruct s as [c|x]; [left; by exists c|right; by intros [c ?]].
Defined.

#[global] Instance grid_shape_dec g : Decision (grid_shape g).
Proof. unfold grid_shape. apply _. Defined.

#[global] Instance wf_grid_dec g : Decision (wf_grid g).
Proof. unfold wf_grid. apply _. Defined.

#[global] Instance hintable_dec g rc : Decision (hintable g rc).
Proof.
  unfold hintable. destruct (cell_at g rc) as [c|].
  - refine (cast_if (decide ((rc ∉ hinted_cells g)
                             ∧ is_open c = false ∧ has_mine c = false
                             ∧ surrounding_mines_count c = 0))).
    + destruct a as (? & ? & ? & ?). split; [done|]. by exists c.
    + intros (? & c' & ? & ? & ? & ?). apply n. by simplify_eq.
  - right. by intros (_ & c & ? & _).
Defined.

(** Two different positions that touch, sides or corners. *)
Definition adjacent (a b : coord) : Prop :=
  a ≠ b ∧ Z.abs (a.1 - b.1) <= 1 ∧ Z.abs (a.2 - b.2) <= 1.

#[global] Instance adjacent_dec a b : Decision (adjacent a b).
Proof. unfold adjacent. apply _. Defined.

(** The number of cells of the grid next to [rc] that carry a mine. *)
Definition hazard_neighbours (g : Grid) (rc : coord) : Z :=
  Z.of_nat (length (filter (fun x => adjacent rc x ∧ mine_at g x)
                      (_generate_grid_coordinate_positions g))).

(** The number of cells of the grid that carry a mine. *)
Definition hazard_total (g : Grid) : Z :=
  Z.of_nat (length (filter (mine_at g) (_generate_grid_coordinate_positions g))).

(** The documented number of mines: 10 %, 15 % or 20 % of the cells rounded
    down, and at least 1, 2 or 3. *)
Definition documented_hazard_count (difficulty total_cells : Z) : Z :=
  if difficulty =? 1 then Z.max (total_cells * 10 / 100) 1
  else if difficulty =? 2 then Z.max (total_cells * 15 / 100) 2
  else Z.max (total_cells * 20 / 100) 3.

(** The requests a player makes during a game. *)
Inductive request : Set :=
| AskHint
| Guess (rc : coord).

(** The coordinates the hint requests of a sequence of requests are answered
    with, in order: [AskHint] is [request_hint], [Guess rc] is what [play]
    does with the guess [rc]. *)
Fixpoint hints_of_session (frames : nat) (reqs : list request) (self : Minesweeper)
  (io : console) : result (list coord) :=
  match reqs with
  | [] => Ok []
  | AskHint :: reqs' =>
      '(h, _) ← hint frames (grid self);
      '(self, io) ← request_hint frames self io;
      hs ← hints_of_session frames reqs' self io;
      Ok (match h with Some x => x :: hs | None => hs end)
  | Guess rc :: reqs' =>
      '(_, self, io) ← reveal self rc io;
      hints_of_session frames reqs' self io
  end.

(** How the board of a game may differ from an earlier board of the same
    game: the dimensions, the difficulty and the number of mines are the same,
    hinted cells stay hinted, and a cell keeps its mine flag and its count and
    stays open once it is open, unless it had a mine and is now the string
    'X'. *)
Definition later_state (g g' : Grid) : Prop :=
  width g' = width g ∧ height g' = height g ∧ difficulty g' = difficulty g
  ∧ mine_count g' = mine_count g ∧ hinted_cells g ⊆ hinted_cells g'
  ∧ ∀ rc c, in_grid g rc → cell_at g rc = Some c →
      (∃ c', cell_at g' rc = Some c'
             ∧ has_mine c' = has_mine c
             ∧ surrounding_mines_count c' = surrounding_mines_count c
             ∧ (is_open c = true → is_open c' = true))
      ∨ (has_mine c = true ∧ get_slot (cells g') rc.1 rc.2 = Ok (SStr "X")).

(** Two slots that look the same from outside: both unopened cells, or both
    open cells with the same count, or the same string. *)
Definition same_view (s1 s2 : slot) : Prop :=
  match s1, s2 with
  | SCell c1, SCell c2 =>
      is_open c1 = is_open c2
      ∧ (is_open c1 = true → surrounding_mines_count c1 = surrounding_mines_count c2)
  | SStr x1, SStr x2 => x1 = x2
  | _, _ => False
  end.

(* ===================================================================== *)
(** * Concrete boards                                                     *)
(* ===================================================================== *)

Definition draw_first (i : nat) : nat := 0%nat.
Definition draw_corners (i : nat) : nat := match i with O => 0%nat | _ => 7%nat end.

Definition hidden (mine : bool) (n : Z) : slot := SCell (mkCell mine n false).
Definition opened (n : Z) : slot := SCell (mkCell false n true).

(** 2 by 2, difficulty 1, the mine in the top left corner. *)
Definition board22 : Grid :=
  mkGrid 2 2 1 [[hidden true 0; hidden false 1]; [hidden false 1; hidden false 1]]
    (Some 1) ∅.

(** 3 by 3, difficulty 2, mines in two opposite corners. *)
Definition board33 : Grid :=
  mkGrid 3 3 2
    [[hidden true 0; hidden false 1; hidden false 0];
     [hidden false 1; hidden false 2; hidden false 1];
     [hidden false 0; hidden false 1; hidden true 0]]
    (Some 2) ∅.


(** [board22] with one cell opened. *)
Definition board22_one : Grid :=
  mkGrid 2 2 1 [[hidden true 0; opened 1]; [hidden false 1; hidden false 1]] (Some 1) ∅.

Definition no_input : console := mkConsole [] [].

(** [board22] with the mines elsewhere and other counts. *)
Definition board22_other : Grid :=
  mkGrid 2 2 1 [[hidden false 2; hidden true 0]; [hidden true 0; hidden false 2]]
    (Some 2) ∅.







(* ===================================================================== *)
(** * Doubles: the number of mines                                      *)
(* ===================================================================== *)

Section FloatFacts.

Lemma digits2_pos_size p : digits2_pos p = Pos.size p.
Proof. induction p; simpl; congruence. Qed.

Lemma digits2_bounds p :
  2 ^ (Z.pos (digits2_pos p) - 1) <= Z.pos p < 2 ^ Z.pos (digits2_pos p).
Proof.
  rewrite digits2_pos_size.
  assert (H := Z.log2_spec (Z.pos p) ltac:(lia)).
  assert (E : Z.pos (Pos.size p) = Z.succ (Z.log2 (Z.pos p))).
  { destruct p; simpl; lia. }
  rewrite E. replace (Z.succ (Z.log2 (Z.pos p)) - 1) with (Z.log2 (Z.pos p)) by lia.
  exact H.
Qed.

Lemma digits2_le p k : Z.pos p < 2 ^ k -> 0 <= k -> Z.pos (digits2_pos p) <= k.
Proof.
  intros H Hk. destruct (digits2_bounds p) as [Hl _].
  destruct (Z_le_gt_dec (Z.pos (digits2_pos p)) k) as [|Hgt]; [done|].
  assert (2 ^ k <= 2 ^ (Z.pos (digits2_pos p) - 1)) by (apply Z.pow_le_mono_r; lia).
  lia.
Qed.

Lemma iter_pos_nat {A} (f : A -> A) p x :
  SpecFloat.iter_pos f p x = Nat.iter (Pos.to_nat p) f x.
Proof.
  revert x. induction p as [p IH|p IH|]; intros x; cbn [SpecFloat.iter_pos].
  - rewrite !IH. rewrite Pos2Nat.inj_xI. 
    replace (S (2 * Pos.to_nat p))%nat with (Pos.to_nat p + S (Pos.to_nat p))%nat by lia.
    rewrite Nat.iter_add. f_equal. rewrite Nat.iter_succ_r. done.
  - rewrite !IH. rewrite Pos2Nat.inj_xO.
    replace (2 * Pos.to_nat p)%nat with (Pos.to_nat p + Pos.to_nat p)%nat by lia.
    rewrite Nat.iter_add. done.
  - done.
Qed.

Lemma shr_1_spec m r s :
  0 <= m -> shr_1 (Build_shr_record m r s) = Build_shr_record (m / 2) (Z.odd m) (r || s).
Proof.
  intros Hm. rewrite <- Z.div2_div.
  destruct m as [|[q|q|]|q]; try lia; reflexivity.
Qed.

Lemma shr_iter M k :
  0 <= M ->
  Nat.iter (S k) shr_1 (Build_shr_record M false false)
  = Build_shr_record (M / 2 ^ Z.of_nat (S k)) (Z.odd (M / 2 ^ Z.of_nat k))
      (negb (M mod 2 ^ Z.of_nat k =? 0)).
Proof.
  intros HM. induction k as [|k IH].
  - cbn [Nat.iter]. rewrite shr_1_spec by done.
    change (2 ^ Z.of_nat 1) with 2. change (2 ^ Z.of_nat 0) with 1.
    rewrite Z.div_1_r, Z.mod_1_r. reflexivity.
  - rewrite Nat.iter_succ, IH.
    assert (Hp : 0 < 2 ^ Z.of_nat k) by (apply Z.pow_pos_nonneg; lia).
    assert (E1 : 2 ^ Z.of_nat (S k) = 2 ^ Z.of_nat k * 2).
    { rewrite Nat2Z.inj_succ, Z.pow_succ_r by lia. lia. }
    assert (E2 : 2 ^ Z.of_nat (S (S k)) = 2 ^ Z.of_nat (S k) * 2).
    { rewrite (Nat2Z.inj_succ (S k)), Z.pow_succ_r by lia. lia. }
    rewrite shr_1_spec by (apply Z.div_pos; lia).
    f_equal.
    + rewrite E2, Z.div_div by lia. done.
    + rewrite E1, Z.rem_mul_r by lia.
      rewrite Zodd_mod.
      assert (0 <= M mod 2 ^ Z.of_nat k < 2 ^ Z.of_nat k) by (apply Z.mod_pos_bound; lia).
      assert (0 <= (M / 2 ^ Z.of_nat k) mod 2 < 2) by (apply Z.mod_pos_bound; lia).
      destruct (Z.eqb_spec ((M / 2 ^ Z.of_nat k) mod 2) 1) as [e|e];
        destruct (Z.eqb_spec (M mod 2 ^ Z.of_nat k) 0) as [e'|e']; simpl;
        symmetry; try (apply negb_true_iff; apply Z.eqb_neq; nia).
      apply negb_false_iff, Z.eqb_eq.
      assert ((M / 2 ^ Z.of_nat k) mod 2 = 0) as -> by lia. lia.
Qed.

Lemma rne_bounds M s : 0 <= s -> M / 2 ^ s <= rne M s <= M / 2 ^ s + 1.
Proof.
  intros Hs. destruct s as [|p|p]; try lia.
  - simpl. rewrite Z.div_1_r. lia.
  - unfold rne, round_nearest_even, loc_of_shr_record.
    destruct (Z.odd _), (negb _); try destruct (Z.even _); lia.
Qed.

Lemma rne_up M s :
  0 <= M -> 2 ^ (s - 1) < M mod 2 ^ s -> 1 <= s -> rne M s = M / 2 ^ s + 1.
Proof.
  intros HM Hlt Hs. destruct s as [|p|p]; try lia.
  unfold rne, round_nearest_even, loc_of_shr_record.
  assert (Hp : 0 < 2 ^ (Z.pos p - 1)) by (apply Z.pow_pos_nonneg; lia).
  assert (E : 2 ^ Z.pos p = 2 ^ (Z.pos p - 1) * 2).
  { replace (Z.pos p) with (Z.succ (Z.pos p - 1)) at 1 by lia.
    rewrite Z.pow_succ_r by lia. lia. }
  rewrite E, Z.rem_mul_r in Hlt by lia.
  assert (0 <= M mod 2 ^ (Z.pos p - 1) < 2 ^ (Z.pos p - 1)) by (apply Z.mod_pos_bound; lia).
  assert (0 <= (M / 2 ^ (Z.pos p - 1)) mod 2 < 2) by (apply Z.mod_pos_bound; lia).
  assert (B : (M / 2 ^ (Z.pos p - 1)) mod 2 = 1) by nia.
  rewrite Zodd_mod, B. 
  assert (M mod 2 ^ (Z.pos p - 1) ≠ 0) by nia.
  destruct (Z.eqb_spec (M mod 2 ^ (Z.pos p - 1)) 0); [done|]. reflexivity.
Qed.

Lemma shr_fexp_first (Mp : positive) (E s : Z) :
  0 <= s -> 2 ^ (52 + s) <= Z.pos Mp < 2 ^ (53 + s) -> -1074 <= E + s ->
  ∃ r b, shr_fexp 53 1024 (Z.pos Mp) E loc_Exact
         = (Build_shr_record (Z.pos Mp / 2 ^ s) r b, E + s)
         ∧ round_nearest_even (Z.pos Mp / 2 ^ s)
             (loc_of_shr_record (Build_shr_record (Z.pos Mp / 2 ^ s) r b))
           = rne (Z.pos Mp) s.
Proof.
  intros Hs [Hlo Hhi] HE.
  assert (HL : Z.pos (digits2_pos Mp) = 53 + s).
  { destruct (digits2_bounds Mp) as [H1 H2].
    assert (Z.pos (digits2_pos Mp) - 1 < 53 + s).
    { apply (Z.pow_lt_mono_r_iff 2); lia. }
    assert (52 + s < Z.pos (digits2_pos Mp)).
    { apply (Z.pow_lt_mono_r_iff 2); lia. }
    lia. }
  unfold shr_fexp, fexp, emin, Zdigits2. rewrite HL.
  replace (Z.max (53 + s + E - 53) (3 - 1024 - 53) - E) with s by lia.
  destruct s as [|p|p]; try lia.
  - exists false, false. simpl. rewrite Z.div_1_r, Z.add_0_r. done.
  - unfold shr, shr_record_of_loc. rewrite iter_pos_nat.
    destruct (Pos2Nat.is_succ p) as [k Hk]. rewrite Hk, shr_iter by lia.
    assert (Ek : Z.of_nat (S k) = Z.pos p) by lia.
    assert (Ek' : Z.of_nat k = Z.pos p - 1) by lia.
    rewrite Ek, Ek'. eexists _, _. split; [reflexivity|]. reflexivity.
Qed.

Lemma shr_fexp_second (R e : Z) :
  2 ^ 52 <= R <= 2 ^ 53 -> e < 0 -> -1074 <= e ->
  ∃ m e' r b, shr_fexp 53 1024 R e loc_Exact = (Build_shr_record m r b, e')
              ∧ 0 < m ∧ e' <= 0 ∧ m / 2 ^ (- e') = R / 2 ^ (- e).
Proof.
  intros [Hlo Hhi] He He'.
  destruct R as [|Rp|Rp]; try lia.
  destruct (digits2_bounds Rp) as [H1 H2].
  assert (53 <= Z.pos (digits2_pos Rp)).
  { assert (52 < Z.pos (digits2_pos Rp)); [|lia]. apply (Z.pow_lt_mono_r_iff 2); lia. }
  assert (Z.pos (digits2_pos Rp) <= 54).
  { apply digits2_le; lia. }
  unfold shr_fexp, fexp, emin, Zdigits2, shr_record_of_loc.
  assert (Z.pos (digits2_pos Rp) = 53 ∨ Z.pos (digits2_pos Rp) = 54) as [HL|HL] by lia;
    rewrite HL.
  - replace (Z.max (53 + e - 53) (3 - 1024 - 53) - e) with 0 by lia.
    exists (Z.pos Rp), e, false, false. simpl. repeat split; lia.
  - replace (Z.max (54 + e - 53) (3 - 1024 - 53) - e) with 1 by lia.
    unfold shr. cbn [SpecFloat.iter_pos]. rewrite shr_1_spec by lia.
    eexists _, _, _, _. split; [reflexivity|].
    assert (2 ^ 53 <= Z.pos Rp).
    { replace 54 with (Z.succ 53) in HL by lia. rewrite HL in H1.
      replace (Z.succ 53 - 1) with 53 in H1 by lia. done. }
    assert (0 < Z.pos Rp / 2).
    { apply Z.div_str_pos. lia. }
    split; [done|]. split; [lia|].
    rewrite Z.div_div by (try apply Z.pow_pos_nonneg; lia).
    f_equal. replace (- e) with (Z.succ (- (e + 1))) by lia.
    rewrite Z.pow_succ_r by lia. done.
Qed.

Lemma int_of_float_finite m e :
  0 < m -> e <= 0 ->
  int_of_float (match m with
                | 0 => S754_zero false
                | Z.pos p => if e <=? 1024 - 53 then S754_finite false p e
                             else S754_infinity false
                | Z.neg _ => S754_nan
                end) = Ok (m / 2 ^ (- e)).
Proof.
  intros Hm He. destruct m as [|p|p]; try lia.
  destruct (Z.leb_spec e (1024 - 53)); [|lia].
  unfold int_of_float. destruct (Z.leb_spec 0 e).
  - assert (e = 0) as -> by lia. simpl. rewrite Z.div_1_r. f_equal. lia.
  - done.
Qed.

(** The integer part of a rounded positive product. *)
Lemma int_of_round (Mp : positive) (E s : Z) :
  0 <= s -> 2 ^ (52 + s) <= Z.pos Mp < 2 ^ (53 + s) -> E + s < 0 -> -1074 <= E + s ->
  int_of_float (binary_round_aux 53 1024 false (Z.pos Mp) E loc_Exact)
  = Ok (rne (Z.pos Mp) s / 2 ^ (- (E + s))).
Proof.
  intros Hs HM HE HE'.
  destruct (shr_fexp_first Mp E s Hs HM HE') as (r & b & E1 & ER).
  assert (HR : 2 ^ 52 <= rne (Z.pos Mp) s <= 2 ^ 53).
  { pose proof (rne_bounds (Z.pos Mp) s Hs) as HB.
    assert (0 < 2 ^ s) by (apply Z.pow_pos_nonneg; lia).
    assert (2 ^ 52 <= Z.pos Mp / 2 ^ s).
    { apply Z.div_le_lower_bound; [lia|]. rewrite <- Z.pow_add_r by lia.
      replace (s + 52) with (52 + s) by lia. lia. }
    assert (Z.pos Mp / 2 ^ s < 2 ^ 53).
    { apply Z.div_lt_upper_bound; [lia|]. rewrite <- Z.pow_add_r by lia.
      replace (s + 53) with (53 + s) by lia. lia. }
    lia. }
  destruct (shr_fexp_second _ (E + s) HR HE HE') as (m & e' & r' & b' & E2 & Hm & He' & Hdiv).
  unfold binary_round_aux. rewrite E1. cbn [shr_m]. rewrite ER, E2. cbn [shr_m].
  rewrite int_of_float_finite by done. rewrite Hdiv. done.
Qed.

Lemma round_aux_exact (Mp : positive) (E : Z) :
  2 ^ 52 <= Z.pos Mp < 2 ^ 53 -> -1074 <= E <= 971 ->
  binary_round_aux 53 1024 false (Z.pos Mp) E loc_Exact = S754_finite false Mp E.
Proof.
  intros HM HE.
  assert (HL : Z.pos (digits2_pos Mp) = 53).
  { destruct (digits2_bounds Mp) as [H1 H2].
    assert (Z.pos (digits2_pos Mp) - 1 < 53) by (apply (Z.pow_lt_mono_r_iff 2); lia).
    assert (52 < Z.pos (digits2_pos Mp)) by (apply (Z.pow_lt_mono_r_iff 2); lia).
    lia. }
  unfold binary_round_aux, shr_fexp, fexp, emin, Zdigits2. rewrite HL.
  replace (Z.max (53 + E - 53) (3 - 1024 - 53) - E) with 0 by lia.
  cbn [shr shr_record_of_loc shr_m loc_of_shr_record round_nearest_even].
  unfold Zdigits2. rewrite HL.
  replace (Z.max (53 + E - 53) (3 - 1024 - 53) - E) with 0 by lia.
  cbn [shr shr_record_of_loc shr_m].
  destruct (Z.leb_spec E (1024 - 53)); [done|lia].
Qed.

Lemma float_of_int_pos n :
  0 < n < 2 ^ 53 ->
  ∃ (N : positive) (a : Z),
    0 <= a <= 52 ∧ float_of_int n = Ok (S754_finite false N (- a))
    ∧ Z.pos N = n * 2 ^ a ∧ 2 ^ 52 <= Z.pos N < 2 ^ 53.
Proof.
  intros [Hn0 Hn]. destruct n as [|p|p]; try lia.
  destruct (digits2_bounds p) as [H1 H2].
  assert (Hd : Z.pos (digits2_pos p) <= 53) by (apply digits2_le; lia).
  unfold float_of_int, binary_normalize, binary_round, fexp, emin.
  replace (Z.max (Z.pos (digits2_pos p) + 0 - 53) (3 - 1024 - 53))
    with (Z.pos (digits2_pos p) - 53) by lia.
  unfold shl_align.
  destruct (Z.pos (digits2_pos p) - 53 - 0) as [|k|k] eqn:Ek; try lia.
  - assert (HL : Z.pos (digits2_pos p) = 53) by lia. rewrite HL in H1, H2.
    rewrite round_aux_exact by (simpl in *; lia).
    exists p, 0. simpl in *. repeat split; lia.
  - assert (Ha : Z.pos (digits2_pos p) = 53 - Z.pos k) by lia.
    assert (HN : Z.pos (Pos.iter xO p k) = Z.pos p * 2 ^ Z.pos k).
    { change (Pos.iter xO p k) with (shift_pos k p).
      rewrite shift_pos_correct. change (Zpower_pos 2 k) with (2 ^ Z.pos k). lia. }
    assert (B : 2 ^ 52 <= Z.pos (Pos.iter xO p k) < 2 ^ 53).
    { rewrite HN. rewrite Ha in H1, H2.
      assert (0 < 2 ^ Z.pos k) by (apply Z.pow_pos_nonneg; lia).
      replace 52 with ((53 - Z.pos k - 1) + Z.pos k) by lia.
      replace 53 with ((53 - Z.pos k) + Z.pos k) at 2 by lia.
      rewrite !Z.pow_add_r by lia. nia. }
    rewrite round_aux_exact by lia.
    exists (Pos.iter xO p k), (Z.pos k).
    replace (Z.pos (digits2_pos p) - 53) with (- Z.pos k) by lia.
    repeat split; try lia.
Qed.

Lemma inside_arith (P q D A K X M R : Z) :
  0 < A -> 0 < X -> 0 < K ->
  q * D <= P -> P * (4503599627370496 + 1) < (q + 1) * D * 4503599627370496 ->
  D * A = K * X -> M = P * A -> 4503599627370496 * X <= M ->
  M / X <= R <= M / X + 1 ->
  R / K = q.
Proof.
  intros HA HX HK Hlo Hhi W EM X52 [R1 R2].
  assert (E1 : q * K * X = q * D * A) by (rewrite <- !Z.mul_assoc, W; ring).
  assert (E2 : (q + 1) * K * X = (q + 1) * D * A) by (rewrite <- !Z.mul_assoc, W; ring).
  assert (B1 : q * D * A <= P * A) by (apply Z.mul_le_mono_nonneg_r; lia).
  assert (B2 : P * (4503599627370496 + 1) * A < (q + 1) * D * 4503599627370496 * A)
    by (apply Z.mul_lt_mono_pos_r; lia).
  assert (L1 : q * K <= M / X).
  { apply Z.div_le_lower_bound; [lia|]. lia. }
  assert (L2 : M / X < (q + 1) * K - 1).
  { apply Z.div_lt_upper_bound; [lia|]. 
    replace (X * ((q + 1) * K - 1)) with ((q + 1) * K * X - X) by ring.
    rewrite E2. subst M.
    replace (P * (4503599627370496 + 1) * A) with (P * A * 4503599627370496 + P * A) in B2 by ring.
    replace ((q + 1) * D * 4503599627370496 * A) with ((q + 1) * D * A * 4503599627370496) in B2 by ring.
    lia. }
  symmetry. apply Z.div_unique with (r := R - q * K); lia.
Qed.

Lemma below_arith (P q D A K X H M t : Z) :
  0 < A -> 0 < X -> 0 < K ->
  P = q * D - t -> 0 < t -> 18014398509481984 * t <= P ->
  D * A = K * X -> M = P * A -> M < 9007199254740992 * X -> X = H * 2 ->
  H < M mod X ∧ M / X = q * K - 1.
Proof.
  intros HA HX HK EP Ht Hsmall W EM X53 EX.
  assert (Hu : 0 < t * A) by (apply Z.mul_pos_pos; lia).
  assert (B : 18014398509481984 * t * A <= P * A) by (apply Z.mul_le_mono_nonneg_r; lia).
  assert (EMu : M = X * (q * K - 1) + (X - t * A)).
  { subst M P. replace (X * (q * K - 1)) with (q * (K * X) - X) by ring.
    rewrite <- W. ring. }
  assert (Hu2 : 2 * (t * A) < X).
  { subst M. replace (18014398509481984 * t * A) with (18014398509481984 * (t * A)) in B by ring.
    lia. }
  split.
  - replace (M mod X) with (X - t * A); [lia|].
    apply Z.mod_unique with (q := q * K - 1); lia.
  - symmetry. apply Z.div_unique with (r := X - t * A); lia.
Qed.

(** The product of a positive [int] below [2 ^ 53] and a positive double. *)
Lemma mul_setup n (md : positive) (ed : Z) :
  0 < n < 2 ^ 53 -> 2 ^ 52 <= Z.pos md < 2 ^ 53 -> -60 <= ed <= -54 ->
  ∃ (M : positive) (a s : Z),
    0 <= a <= 52 ∧ (s = 52 ∨ s = 53)
    ∧ Z.pos M = n * Z.pos md * 2 ^ a
    ∧ 2 ^ 52 * 2 ^ s <= Z.pos M < 2 ^ 53 * 2 ^ s
    ∧ int_mul_float n (S754_finite false md ed)
      = Ok (rne (Z.pos M) s / 2 ^ (- (- a + ed + s))).
Proof.
  intros Hn Hmd Hed.
  destruct (float_of_int_pos n Hn) as (N & a & Ha & EN & HN & BN).
  unfold int_mul_float. rewrite EN. cbn [mbind result_bind float_mul SFmul xorb].
  set (M := (N * md)%positive).
  assert (EM : Z.pos M = n * Z.pos md * 2 ^ a).
  { unfold M. rewrite Pos2Z.inj_mul, HN. ring. }
  assert (B104 : 2 ^ 104 <= Z.pos M < 2 ^ 106).
  { unfold M. rewrite Pos2Z.inj_mul.
    change (2 ^ 104) with (2 ^ 52 * 2 ^ 52). change (2 ^ 106) with (2 ^ 53 * 2 ^ 53).
    split.
    - apply Z.mul_le_mono_nonneg; lia.
    - apply Z.mul_lt_mono_nonneg; lia. }
  exists M, a, (if Z.pos M <? 2 ^ 105 then 52 else 53).
  destruct (Z.ltb_spec (Z.pos M) (2 ^ 105)).
  - split; [lia|]. split; [by left|]. split; [done|].
    change (2 ^ 52 * 2 ^ 52) with (2 ^ 104). change (2 ^ 53 * 2 ^ 52) with (2 ^ 105).
    split; [lia|]. rewrite (int_of_round M (- a + ed) 52); [done|lia| |lia|lia].
    change (2 ^ (52 + 52)) with (2 ^ 104). change (2 ^ (53 + 52)) with (2 ^ 105). lia.
  - split; [lia|]. split; [by right|]. split; [done|].
    change (2 ^ 52 * 2 ^ 53) with (2 ^ 105). change (2 ^ 53 * 2 ^ 53) with (2 ^ 106).
    split; [lia|]. rewrite (int_of_round M (- a + ed) 53); [done|lia| |lia|lia].
    change (2 ^ (52 + 53)) with (2 ^ 105). change (2 ^ (53 + 53)) with (2 ^ 106). lia.
Qed.

(** [int(n * x)] when the exact product lies safely inside [[q, q+1)]. *)
Lemma int_mul_float_inside n (md : positive) (ed q : Z) :
  0 < n < 2 ^ 53 -> 2 ^ 52 <= Z.pos md < 2 ^ 53 -> -60 <= ed <= -54 ->
  q * 2 ^ (- ed) <= n * Z.pos md ->
  n * Z.pos md * (2 ^ 52 + 1) < (q + 1) * 2 ^ (- ed) * 2 ^ 52 ->
  int_mul_float n (S754_finite false md ed) = Ok q.
Proof.
  intros Hn Hmd Hed Hlo Hhi.
  destruct (mul_setup n md ed Hn Hmd Hed) as (M & a & s & Ha & Hs & EM & BM & ->).
  f_equal.
  assert (Hs' : 0 <= s) by lia.
  assert (Hk : 0 <= - (- a + ed + s)) by lia.
  apply (inside_arith (n * Z.pos md) q (2 ^ (- ed)) (2 ^ a) _ (2 ^ s) (Z.pos M));
    try (apply Z.pow_pos_nonneg; lia); try done.
  - rewrite <- !Z.pow_add_r by lia. f_equal. lia.
  - lia.
  - apply rne_bounds. lia.
Qed.

(** [int(n * x)] when the exact product is just below [q] and rounds up to it. *)
Lemma int_mul_float_below n (md : positive) (ed q t : Z) :
  0 < n < 2 ^ 53 -> 2 ^ 52 <= Z.pos md < 2 ^ 53 -> -60 <= ed <= -54 ->
  n * Z.pos md = q * 2 ^ (- ed) - t -> 0 < t -> 2 ^ 54 * t <= n * Z.pos md ->
  int_mul_float n (S754_finite false md ed) = Ok q.
Proof.
  intros Hn Hmd Hed HM Ht Hsmall.
  destruct (mul_setup n md ed Hn Hmd Hed) as (M & a & s & Ha & Hs & EM & BM & ->).
  f_equal.
  assert (Hs' : 1 <= s) by lia.
  assert (Hk : 0 <= - (- a + ed + s)) by lia.
  assert (PK : 0 < 2 ^ (- (- a + ed + s))) by (apply Z.pow_pos_nonneg; lia).
  assert (X2 : 2 ^ s = 2 ^ (s - 1) * 2).
  { replace s with (Z.succ (s - 1)) at 1 by lia. rewrite Z.pow_succ_r by lia. ring. }
  destruct (below_arith (n * Z.pos md) q (2 ^ (- ed)) (2 ^ a) (2 ^ (- (- a + ed + s)))
              (2 ^ s) (2 ^ (s - 1)) (Z.pos M) t) as [Hmod Hdiv];
    try (apply Z.pow_pos_nonneg; lia); try done.
  - rewrite <- !Z.pow_add_r by lia. f_equal. lia.
  - lia.
  - rewrite rne_up by (done || lia). rewrite Hdiv.
    replace (q * 2 ^ (- (- a + ed + s)) - 1 + 1) with (q * 2 ^ (- (- a + ed + s))) by ring.
    apply Z.div_mul. lia.
Qed.

Lemma int_mul_float_0_10 n : 0 < n < 2 ^ 50 -> int_mul_float n lit_0_10 = Ok (n / 10).
Proof.
  intros Hn. pose proof (Z.div_mod n 10 ltac:(lia)) as E.
  pose proof (Z.mod_pos_bound n 10 ltac:(lia)) as B.
  change (2 ^ 50) with 1125899906842624 in Hn.
  apply int_mul_float_inside; simpl; lia.
Qed.

Lemma int_mul_float_0_20 n : 0 < n < 2 ^ 50 -> int_mul_float n lit_0_20 = Ok (n / 5).
Proof.
  intros Hn. pose proof (Z.div_mod n 5 ltac:(lia)) as E.
  pose proof (Z.mod_pos_bound n 5 ltac:(lia)) as B.
  change (2 ^ 50) with 1125899906842624 in Hn.
  apply int_mul_float_inside; simpl; lia.
Qed.

Lemma int_mul_float_0_15 n : 0 < n < 2 ^ 50 -> int_mul_float n lit_0_15 = Ok (3 * n / 20).
Proof.
  intros Hn. pose proof (Z.div_mod (3 * n) 20 ltac:(lia)) as E.
  pose proof (Z.mod_pos_bound (3 * n) 20 ltac:(lia)) as B.
  change (2 ^ 50) with 1125899906842624 in Hn.
  destruct (Z.eq_dec ((3 * n) mod 20) 0) as [H0|H0].
  - apply int_mul_float_below with (t := 3 * n / 20 * 2 ^ 55 - n * 5404319552844595);
      simpl; lia.
  - apply int_mul_float_inside; simpl; lia.
Qed.

End FloatFacts.

(* ===================================================================== *)
(** * Grids and their construction                                      *)
(* ===================================================================== *)
(** * Facts about the run-time model                                      *)
(* ===================================================================== *)

Lemma bind_Ok {A B} (m : result A) (f : A → result B) (b : B) :
  m ≫= f = Ok b ↔ ∃ a, m = Ok a ∧ f a = Ok b.
Proof.
  destruct m; simpl; split; try (intros (? & ? & ?)); try done; eauto.
  by simplify_eq.
Qed.

Lemma elem_of_py_range a b x : x ∈ py_range a b ↔ a <= x < b.
Proof. unfold py_range. rewrite elem_of_seqZ. lia. Qed.

Lemma NoDup_py_range a b : NoDup (py_range a b).
Proof. apply NoDup_seqZ. Qed.

Lemma py_norm_index_nonneg len i :
  0 <= i < Z.of_nat len → py_norm_index len i = Ok (Z.to_nat i).
Proof.
  intros H. unfold py_norm_index.
  destruct (Z.ltb_spec i 0); [lia|].
  destruct (Z.leb_spec 0 i); [|lia]. destruct (Z.ltb_spec i (Z.of_nat len)); [done|lia].
Qed.

Lemma py_norm_index_Ok len i j :
  py_norm_index len i = Ok j → (j < len)%nat.
Proof.
  unfold py_norm_index. intros H.
  repeat case_match; simplify_eq; lia.
Qed.

(** Row-major coordinates of an [h] by [w] rectangle. *)
Lemma elem_of_coordinates g r c :
  (r, c) ∈ _generate_grid_coordinate_positions g ↔
  (0 <= r < height g ∧ 0 <= c < width g).
Proof.
  unfold _generate_grid_coordinate_positions.
  rewrite list_elem_of_bind. split.
  - intros (r' & Hc & Hr). apply list_elem_of_bind in Hc as (c' & Hin & Hc).
    apply list_elem_of_singleton in Hin. simplify_eq.
    apply elem_of_py_range in Hr, Hc. lia.
  - intros [Hr Hc]. exists r. split; [|apply elem_of_py_range; lia].
    apply list_elem_of_bind. exists c. split; [by apply list_elem_of_singleton|].
    apply elem_of_py_range; lia.
Qed.

Lemma NoDup_coordinates g : NoDup (_generate_grid_coordinate_positions g).
Proof.
  unfold _generate_grid_coordinate_positions.
  apply NoDup_bind; [| |apply NoDup_py_range].
  - intros r1 r2 [r c] _ _ H1 H2.
    apply list_elem_of_bind in H1 as (c1 & H1 & _), H2 as (c2 & H2 & _).
    apply list_elem_of_singleton in H1, H2. congruence.
  - intros r _. apply NoDup_bind; [| |apply NoDup_py_range].
    + intros c1 c2 [r' c] _ _ H1 H2. apply list_elem_of_singleton in H1, H2. congruence.
    + intros c _. apply NoDup_singleton.
Qed.

(* ===================================================================== *)
(** * Well-formed grids                                                   *)
(* ===================================================================== *)

Lemma is_valid_position_in_grid g r c :
  _is_valid_position g r c = true ↔ in_grid g (r, c).
Proof.
  unfold _is_valid_position, in_grid. simpl.
  rewrite !andb_true_iff, !Z.leb_le, !Z.ltb_lt. tauto.
Qed.

Lemma elem_of_coordinates_in_grid g rc :
  rc ∈ _generate_grid_coordinate_positions g ↔ in_grid g rc.
Proof. destruct rc as [r c]. apply elem_of_coordinates. Qed.

(** Reading a slot at a position inside the grid. *)
Lemma get_slot_lookup cs r c :
  0 <= r → 0 <= c →
  get_slot cs r c =
  match cs !! Z.to_nat r ≫= (.!! Z.to_nat c) with
  | Some s => Ok s
  | None => Raise IndexError
  end.
Proof.
  intros Hr Hc. unfold get_slot, py_getitem.
  destruct (cs !! Z.to_nat r) as [row|] eqn:Er; simpl.
  - assert (Z.to_nat r < length cs)%nat by (by eapply lookup_lt_Some).
    rewrite py_norm_index_nonneg by lia. simpl. rewrite Er. simpl.
    destruct (row !! Z.to_nat c) as [s|] eqn:Ec; simpl.
    + assert (Z.to_nat c < length row)%nat by (by eapply lookup_lt_Some).
      rewrite py_norm_index_nonneg by lia. simpl. by rewrite Ec.
    + apply lookup_ge_None in Ec. unfold py_norm_index.
      destruct (Z.ltb_spec c 0); [lia|].
      destruct (Z.leb_spec 0 c); [|lia].
      destruct (Z.ltb_spec c (Z.of_nat (length row))); [lia|done].
  - apply lookup_ge_None in Er. unfold py_norm_index.
    destruct (Z.ltb_spec r 0); [lia|].
    destruct (Z.leb_spec 0 r); [|lia].
    destruct (Z.ltb_spec r (Z.of_nat (length cs))); [lia|done].
Qed.

Lemma shape_lookup g rc :
  grid_shape g → in_grid g rc →
  ∃ row s, cells g !! Z.to_nat rc.1 = Some row ∧ row !! Z.to_nat rc.2 = Some s
           ∧ length row = Z.to_nat (width g).
Proof.
  intros [Hh Hw] [Hr Hc].
  destruct (lookup_lt_is_Some_2 (cells g) (Z.to_nat rc.1)) as [row Hrow]; [lia|].
  assert (Hl : length row = Z.to_nat (width g)).
  { rewrite Forall_forall in Hw. apply Hw. by eapply list_elem_of_lookup_2. }
  destruct (lookup_lt_is_Some_2 row (Z.to_nat rc.2)) as [s Hs]; [lia|].
  eauto.
Qed.

Lemma wf_cell_at g rc :
  wf_grid g → in_grid g rc →
  ∃ c, get_slot (cells g) rc.1 rc.2 = Ok (SCell c) ∧ cell_at g rc = Some c.
Proof.
  intros [Hs Hc] Hin.
  destruct (shape_lookup g rc Hs Hin) as (row & s & Hrow & Hslot & _).
  assert (is_cell s) as [c ->].
  { rewrite Forall_forall in Hc. specialize (Hc row (list_elem_of_lookup_2 _ _ _ Hrow)).
    rewrite Forall_forall in Hc. apply Hc. by eapply list_elem_of_lookup_2. }
  exists c. unfold cell_at. destruct Hin as [? ?].
  rewrite get_slot_lookup by lia. rewrite Hrow. simpl. rewrite Hslot. done.
Qed.

(** Writing a slot at a position inside the grid. *)
Lemma put_slot_in g rc v :
  grid_shape g → in_grid g rc →
  ∃ cs, put_slot (cells g) rc.1 rc.2 v = Ok cs
        ∧ grid_shape (with_cells cs g)
        ∧ get_slot cs rc.1 rc.2 = Ok v
        ∧ (∀ rc', in_grid g rc' → rc' ≠ rc →
                  get_slot cs rc'.1 rc'.2 = get_slot (cells g) rc'.1 rc'.2)
        ∧ (Forall (Forall is_cell) (cells g) → is_cell v → Forall (Forall is_cell) cs).
Proof.
  intros Hs Hin.
  destruct (shape_lookup g rc Hs Hin) as (row & s & Hrow & Hslot & Hlen).
  destruct Hin as [Hr Hc]. destruct Hs as [Hh Hw].
  assert (Z.to_nat rc.1 < length (cells g))%nat by (by eapply lookup_lt_Some).
  assert (Z.to_nat rc.2 < length row)%nat by (by eapply lookup_lt_Some).
  exists (<[Z.to_nat rc.1 := <[Z.to_nat rc.2 := v]> row]> (cells g)).
  split; [|split; [|split; [|split]]].
  - unfold put_slot, py_getitem, py_setitem.
    rewrite py_norm_index_nonneg by lia. simpl. rewrite Hrow. simpl.
    rewrite py_norm_index_nonneg by lia. done.
  - split; simpl.
    + by rewrite length_insert.
    + apply Forall_insert; [done|]. by rewrite length_insert.
  - rewrite get_slot_lookup by lia.
    rewrite list_lookup_insert_eq by done. simpl.
    by rewrite list_lookup_insert_eq by done.
  - intros rc' [Hr' Hc'] Hne. rewrite !get_slot_lookup by lia.
    destruct (decide (Z.to_nat rc'.1 = Z.to_nat rc.1)) as [e|n].
    + rewrite e. rewrite list_lookup_insert_eq by done. rewrite Hrow. simpl.
      rewrite list_lookup_insert_ne; [done|].
      intros e'. apply Hne. destruct rc, rc'; simpl in *. f_equal; lia.
    + by rewrite list_lookup_insert_ne.
  - intros Hall Hv. apply Forall_insert; [done|].
    apply Forall_insert; [|done].
    rewrite Forall_forall in Hall. apply Hall. by eapply list_elem_of_lookup_2.
Qed.

(** Updating the cell object at a position inside a well-formed grid. *)
Lemma update_cell_in g rc (f : Cell → Cell) :
  wf_grid g → in_grid g rc →
  ∃ cs c, update_slot (cells g) rc.1 rc.2 (set_attr f) = Ok cs
        ∧ cell_at g rc = Some c
        ∧ wf_grid (with_cells cs g)
        ∧ cell_at (with_cells cs g) rc = Some (f c)
        ∧ (∀ rc', in_grid g rc' → rc' ≠ rc →
                  cell_at (with_cells cs g) rc' = cell_at g rc').
Proof.
  intros Hwf Hin. destruct (wf_cell_at g rc Hwf Hin) as (c & Hget & Hat).
  destruct Hwf as [Hs Hc].
  destruct (put_slot_in g rc (SCell (f c)) Hs Hin) as (cs & Hput & Hs' & Hget' & Hoth & Hall).
  exists cs, c. split; [|split; [done|split; [|split]]].
  - unfold update_slot. rewrite Hget. simpl. done.
  - split; [done|]. apply Hall; [done|]. by eexists.
  - unfold cell_at. simpl. by rewrite Hget'.
  - intros rc' Hin' Hne. unfold cell_at. simpl. by rewrite Hoth.
Qed.

(* ===================================================================== *)
(** * Sampling without replacement                                        *)
(* ===================================================================== *)

Lemma sample_from_spec {A} (draw : nat → nat) (k : nat) :
  ∀ (i : nat) (pool : list A),
    NoDup pool → (k ≤ length pool)%nat →
    length (sample_from draw i pool k) = k
    ∧ NoDup (sample_from draw i pool k)
    ∧ sample_from draw i pool k ⊆ pool.
Proof.
  induction k as [|k IH]; intros i pool Hnd Hlen; simpl.
  - split; [done|]. split; [constructor|]. apply list_subseteq_nil.
  - set (j := (draw i mod length pool)%nat).
    assert (Hj : (j < length pool)%nat).
    { apply Nat.mod_upper_bound. lia. }
    destruct (lookup_lt_is_Some_2 pool _ Hj) as [x Hx]. rewrite Hx.
    pose proof (delete_Permutation pool _ x Hx) as Hperm.
    assert (Hnd' : NoDup (x :: delete j pool)) by (by rewrite <- Hperm).
    apply NoDup_cons in Hnd' as [Hx' Hnd'].
    destruct (IH (S i) (delete j pool) Hnd') as (L & N & Sub).
    { rewrite length_delete by eauto. lia. }
    split; [simpl; lia|]. split.
    + apply NoDup_cons. split; [|done]. intros Hin. apply Hx'. by apply Sub.
    + intros y Hy. apply elem_of_cons in Hy as [->|Hy].
      * by eapply list_elem_of_lookup_2.
      * eapply list_elem_of_delete_inv. by apply Sub.
Qed.

(* ===================================================================== *)
(** * Construction                                                        *)
(* ===================================================================== *)

Lemma create_empty_cells_wf w h d mc hs :
  wf_grid (mkGrid w h d (_create_empty_cells w h) mc hs).
Proof.
  unfold wf_grid, grid_shape, _create_empty_cells, py_range. simpl.
  rewrite length_fmap, length_seqZ. split; [split|].
  - f_equal. lia.
  - apply Forall_fmap, Forall_forall. intros r _. simpl.
    rewrite length_fmap, length_seqZ. f_equal. lia.
  - apply Forall_fmap, Forall_forall. intros r _. simpl.
    apply Forall_fmap, Forall_forall. intros c _. simpl. by eexists.
Qed.

Lemma create_empty_cells_at w h d mc hs rc :
  in_grid (mkGrid w h d (_create_empty_cells w h) mc hs) rc →
  cell_at (mkGrid w h d (_create_empty_cells w h) mc hs) rc = Some (mkCell false 0 false).
Proof.
  intros [Hr Hc]. simpl in *. unfold cell_at. simpl.
  rewrite get_slot_lookup by lia. unfold _create_empty_cells, py_range.
  rewrite list_lookup_fmap.
  destruct (lookup_lt_is_Some_2 (seqZ 0 (h - 0)) (Z.to_nat rc.1)) as [x Hx].
  { rewrite length_seqZ. lia. }
  rewrite Hx. simpl. rewrite list_lookup_fmap.
  destruct (lookup_lt_is_Some_2 (seqZ 0 (w - 0)) (Z.to_nat rc.2)) as [y Hy].
  { rewrite length_seqZ. lia. }
  rewrite Hy. done.
Qed.

(** ** [_place_mines] *)

Lemma place_mines_spec (l : list coord) :
  ∀ g, wf_grid g → Forall (in_grid g) l →
    ∃ g', _place_mines g l = Ok g'
      ∧ wf_grid g'
      ∧ width g' = width g ∧ height g' = height g ∧ difficulty g' = difficulty g
      ∧ mine_count g' = mine_count g ∧ hinted_cells g' = hinted_cells g
      ∧ ∀ rc, in_grid g rc →
          cell_at g' rc
          = (fun c => if decide (rc ∈ l) then with_has_mine true c else c) <$> cell_at g rc.
Proof.
  induction l as [|[r c] l IH]; intros g Hwf Hall.
  - exists g. simpl. split_and!; try done.
    intros rc _. by destruct (cell_at g rc).
  - apply Forall_cons in Hall as [Hin Hall].
    destruct (update_cell_in g (r, c) (with_has_mine true) Hwf Hin)
      as (cs & c0 & Hup & Hat & Hwf' & Hat' & Hoth).
    destruct (IH (with_cells cs g) Hwf' Hall)
      as (g' & Hpl & Hwf'' & Hw & Hh & Hd & Hm & Hhs & Hcells).
    exists g'. unfold _place_mines in *. cbn [for_each]. simpl in Hup. rewrite Hup. simpl.
    rewrite Hpl. split_and!; try done.
    intros rc Hrc. rewrite Hcells by done.
    destruct (decide (rc = (r, c))) as [->|Hne].
    + rewrite Hat', Hat. simpl. f_equal.
      rewrite (decide_True (P := (r, c) ∈ (r, c) :: l)) by (by left).
      by destruct (decide _).
    + rewrite Hoth by done. destruct (cell_at g rc); simpl; [|done]. f_equal.
      destruct (decide (rc ∈ l)) as [e|n].
      * by rewrite decide_True by (by right).
      * rewrite decide_False; [done|]. intros [?|?]%elem_of_cons; done.
Qed.

(** ** Counting loops *)

Lemma for_each_count {X} (Q : X → Prop) `{!∀ x, Decision (Q x)} {Y}
  (f : Y → list X) (body : Y → Z → result Z) (ys : list Y) :
  (∀ y n, y ∈ ys → body y n = Ok (n + Z.of_nat (length (filter Q (f y))))) →
  ∀ n, for_each ys body n = Ok (n + Z.of_nat (length (filter Q (ys ≫= f)))).
Proof.
  induction ys as [|y ys IH]; intros Hbody n.
  - cbn. f_equal. lia.
  - rewrite bind_cons. cbn [for_each]. rewrite Hbody by (by left). simpl. rewrite IH.
    + f_equal. rewrite filter_app, length_app. lia.
    + intros y' n' Hy'. apply Hbody. by right.
Qed.

Lemma elem_of_window rc x :
  x ∈ window rc ↔ (Z.abs (x.1 - rc.1) <= 1 ∧ Z.abs (x.2 - rc.2) <= 1).
Proof.
  unfold window. rewrite list_elem_of_bind. split.
  - intros (r & Hc & Hr). apply list_elem_of_bind in Hc as (c & Hin & Hc).
    apply list_elem_of_singleton in Hin. subst x. simpl.
    apply elem_of_py_range in Hr, Hc. lia.
  - intros [Hr Hc]. exists x.1. split; [|apply elem_of_py_range; lia].
    apply list_elem_of_bind. exists x.2. split; [|apply elem_of_py_range; lia].
    apply list_elem_of_singleton. by destruct x.
Qed.

Lemma NoDup_window rc : NoDup (window rc).
Proof.
  unfold window. apply NoDup_bind; [| |apply NoDup_py_range].
  - intros r1 r2 [r c] _ _ H1 H2.
    apply list_elem_of_bind in H1 as (c1 & H1 & _), H2 as (c2 & H2 & _).
    apply list_elem_of_singleton in H1, H2. congruence.
  - intros r _. apply NoDup_bind; [| |apply NoDup_py_range].
    + intros c1 c2 [r' c] _ _ H1 H2. apply list_elem_of_singleton in H1, H2. congruence.
    + intros c _. apply NoDup_singleton.
Qed.

(** What the counting loops of [_set_surrounding_mine_count] compute. *)
Lemma count_surrounding_spec g r c :
  wf_grid g →
  count_surrounding g r c
  = Ok (Z.of_nat (length (filter (fun x => in_grid g x ∧ mine_at g x) (window (r, c))))).
Proof.
  intros Hwf. unfold count_surrounding, window. simpl.
  rewrite (for_each_count (fun x => in_grid g x ∧ mine_at g x)
             (fun r' => c' ← py_range (c - 1) (c + 2); [(r', c')])); [done|].
  intros r' n _.
  apply (for_each_count (fun x => in_grid g x ∧ mine_at g x) (fun c' => [(r', c')])).
  intros c' n' _.
  rewrite filter_cons, filter_nil.
  destruct (_is_valid_position g r' c') eqn:Ev.
  - apply is_valid_position_in_grid in Ev.
    destruct (wf_cell_at g (r', c') Hwf Ev) as (cell & Hget & Hat). simpl in Hget.
    rewrite Hget. simpl.
    destruct (has_mine cell) eqn:Em.
    + rewrite decide_True; [simpl; f_equal; lia|].
      split; [done|]. unfold mine_at. rewrite Hat. simpl. by rewrite Em.
    + rewrite decide_False; [simpl; f_equal; lia|].
      intros [_ Hm]. unfold mine_at in Hm. rewrite Hat in Hm. simpl in Hm. congruence.
  - rewrite decide_False; [simpl; f_equal; lia|].
    intros [Hin _]. apply is_valid_position_in_grid in Hin. congruence.
Qed.

(** ** [_set_surrounding_mine_count] *)

Lemma surrounding_ext g g' rc :
  width g' = width g → height g' = height g →
  (∀ x, in_grid g x → has_mine <$> cell_at g' x = has_mine <$> cell_at g x) →
  surrounding g' rc = surrounding g rc.
Proof.
  intros Hw Hh Hm. unfold surrounding. f_equal. f_equal.
  apply list_filter_iff. intros x. unfold in_grid, mine_at. rewrite Hw, Hh.
  split; intros [Hin Hx]; (split; [done|]); specialize (Hm x Hin); congruence.
Qed.

Lemma set_surrounding_spec (l : list coord) :
  ∀ g, wf_grid g → Forall (in_grid g) l →
    ∃ g', _set_surrounding_mine_count g l = Ok g'
      ∧ wf_grid g'
      ∧ width g' = width g ∧ height g' = height g ∧ difficulty g' = difficulty g
      ∧ mine_count g' = mine_count g ∧ hinted_cells g' = hinted_cells g
      ∧ ∀ rc, in_grid g rc →
          cell_at g' rc
          = (fun c => if decide (rc ∈ l) then with_count (surrounding g rc) c else c)
              <$> cell_at g rc.
Proof.
  induction l as [|[r c] l IH]; intros g Hwf Hall.
  - exists g. simpl. split_and!; try done.
    intros rc _. by destruct (cell_at g rc).
  - apply Forall_cons in Hall as [Hin Hall].
    destruct (update_cell_in g (r, c) (with_count (surrounding g (r, c))) Hwf Hin)
      as (cs & c0 & Hup & Hat & Hwf' & Hat' & Hoth).
    destruct (IH (with_cells cs g) Hwf' Hall)
      as (g' & Hpl & Hwf'' & Hw & Hh & Hd & Hm & Hhs & Hcells).
    assert (Hsame : ∀ x, surrounding (with_cells cs g) x = surrounding g x).
    { intros x. apply surrounding_ext; [done..|]. intros y Hy.
      destruct (decide (y = (r, c))) as [->|Hne].
      - by rewrite Hat', Hat.
      - by rewrite Hoth. }
    exists g'. unfold _set_surrounding_mine_count in *. cbn [for_each].
    rewrite count_surrounding_spec by done. simpl. simpl in Hup.
    unfold surrounding in Hup. rewrite Hup. simpl.
    rewrite Hpl. split_and!; try done.
    intros rc Hrc. rewrite Hcells by done.
    destruct (decide (rc = (r, c))) as [->|Hne].
    + rewrite Hat', Hat. simpl. f_equal.
      rewrite (decide_True (P := (r, c) ∈ (r, c) :: l)) by (by left).
      rewrite Hsame. by destruct (decide _).
    + rewrite Hoth by done. destruct (cell_at g rc); simpl; [|done]. f_equal.
      rewrite Hsame.
      destruct (decide (rc ∈ l)) as [e|n].
      * by rewrite decide_True by (by right).
      * rewrite decide_False; [done|]. intros [?|?]%elem_of_cons; done.
Qed.

(** ** [_set_cell_mines_and_surrounding_counts] and [__init__] *)

Lemma length_coordinates g :
  length (_generate_grid_coordinate_positions g)
  = (Z.to_nat (height g) * Z.to_nat (width g))%nat.
Proof.
  unfold _generate_grid_coordinate_positions, py_range.
  assert (P : ∀ (rs cs : list Z),
             length (r ← rs; c ← cs; [(r, c)]) = (length rs * length cs)%nat).
  { intros rs cs. induction rs as [|r rs IH]; [reflexivity|].
    rewrite bind_cons, length_app, IH. simpl. f_equal.
    clear IH. induction cs as [|c cs IHc]; [reflexivity|].
    rewrite bind_cons. simpl. by rewrite IHc. }
  rewrite P, !length_seqZ. f_equal; lia.
Qed.

Lemma set_cells_spec draw g k :
  wf_grid g →
  (∀ rc, in_grid g rc → cell_at g rc = Some (mkCell false 0 false)) →
  mine_count g = Some k →
  0 <= k <= Z.of_nat (length (_generate_grid_coordinate_positions g)) →
  ∃ g' mine_positions,
    _set_cell_mines_and_surrounding_counts draw g = Ok g'
    ∧ random_sample draw (_generate_grid_coordinate_positions g) k = Ok mine_positions
    ∧ wf_grid g'
    ∧ width g' = width g ∧ height g' = height g ∧ difficulty g' = difficulty g
    ∧ mine_count g' = mine_count g ∧ hinted_cells g' = hinted_cells g
    ∧ NoDup mine_positions ∧ Z.of_nat (length mine_positions) = k
    ∧ Forall (in_grid g) mine_positions
    ∧ ∀ rc, in_grid g rc → cell_at g' rc = Some (built_cell g' mine_positions rc).
Proof.
  intros Hwf Hfresh Hmc Hk.
  unfold _set_cell_mines_and_surrounding_counts, _generate_mine_positions.
  rewrite Hmc. unfold random_sample.
  destruct (Z.leb_spec 0 k); [|lia].
  destruct (Z.leb_spec k (Z.of_nat (length (_generate_grid_coordinate_positions g)))); [|lia].
  simpl.
  set (mines := sample_from draw 0 (_generate_grid_coordinate_positions g) (Z.to_nat k)).
  destruct (sample_from_spec draw (Z.to_nat k) 0 (_generate_grid_coordinate_positions g))
    as (Hlen & Hnd & Hsub); [apply NoDup_coordinates|lia|]. fold mines in Hlen, Hnd, Hsub.
  assert (Hin : Forall (in_grid g) mines).
  { apply Forall_forall. intros x Hx. by apply elem_of_coordinates_in_grid, Hsub. }
  destruct (place_mines_spec mines g Hwf Hin)
    as (g1 & Hpl & Hwf1 & Hw1 & Hh1 & Hd1 & Hm1 & Hhs1 & Hc1).
  rewrite Hpl. simpl.
  set (rest := elements (_identify_non_mine_positions
                           (_generate_grid_coordinate_positions g) mines)).
  assert (Hrest : ∀ x, x ∈ rest ↔ in_grid g x ∧ x ∉ mines).
  { intros x. unfold rest, _identify_non_mine_positions.
    rewrite elem_of_elements, elem_of_difference, !elem_of_list_to_set.
    by rewrite elem_of_coordinates_in_grid. }
  assert (Hin1 : Forall (in_grid g1) rest).
  { apply Forall_forall. intros x Hx. apply Hrest in Hx as [[? ?] _].
    unfold in_grid. by rewrite Hw1, Hh1. }
  destruct (set_surrounding_spec rest g1 Hwf1 Hin1)
    as (g2 & Hset & Hwf2 & Hw2 & Hh2 & Hd2 & Hm2 & Hhs2 & Hc2).
  exists g2, mines. split_and!; try done; try congruence.
  - lia.
  - intros rc Hrc.
    assert (Hrc1 : in_grid g1 rc) by (unfold in_grid in *; by rewrite Hw1, Hh1).
    rewrite Hc2, Hc1, Hfresh by done. simpl. f_equal. unfold built_cell.
    assert (Hs : surrounding g2 rc = surrounding g1 rc).
    { apply surrounding_ext; [done..|]. intros x Hx. rewrite Hc2 by done.
      destruct (cell_at g1 x); simpl; [|done]. by destruct (decide _). }
    destruct (decide (rc ∈ mines)) as [e|n].
    + rewrite decide_False; [done|]. intros Hr. by apply Hrest in Hr as [_ ?].
    + rewrite decide_True by (by apply Hrest). by rewrite Hs.
Qed.

Lemma Grid_init_unfold draw w h d :
  Grid_init draw w h d =
  match tier_mine_count d (w * h) with
  | Some m =>
      k ← m;
      self ← _set_cell_mines_and_surrounding_counts draw
               (mkGrid w h d (_create_empty_cells w h) (Some k) ∅);
      Ok (with_hinted_cells ∅ self)
  | None => Raise AttributeError
  end.
Proof.
  unfold Grid_init, tier_mine_count.
  repeat case_match; try done;
    try (destruct (int_mul_float _ _); done).
Qed.

(** Everything [__init__] establishes when it returns. *)
Lemma Grid_init_inv draw w h d g :
  Grid_init draw w h d = Ok g →
  ∃ k mine_positions,
    tier_mine_count d (w * h) = Some (Ok k)
    ∧ wf_grid g
    ∧ width g = w ∧ height g = h ∧ difficulty g = d
    ∧ mine_count g = Some k ∧ hinted_cells g = ∅
    ∧ random_sample draw (_generate_grid_coordinate_positions g) k = Ok mine_positions
    ∧ NoDup mine_positions ∧ Z.of_nat (length mine_positions) = k
    ∧ Forall (in_grid g) mine_positions
    ∧ ∀ rc, in_grid g rc → cell_at g rc = Some (built_cell g mine_positions rc).
Proof.
  rewrite Grid_init_unfold. intros H.
  destruct (tier_mine_count d (w * h)) as [[k| |]|] eqn:Et; try done. simpl in H.
  set (g0 := mkGrid w h d (_create_empty_cells w h) (Some k) ∅) in *.
  destruct (decide (0 <= k <= Z.of_nat (length (_generate_grid_coordinate_positions g0))))
    as [Hk|Hk].
  - destruct (set_cells_spec draw g0 k) as (g' & mines & Hset & Hsam & Hwf & Hw & Hh & Hd
                                             & Hm & Hhs & Hnd & Hlen & Hin & Hc); try done.
    { apply create_empty_cells_wf. }
    { intros rc. apply create_empty_cells_at. }
    rewrite Hset in H. simpl in H. injection H as <-.
    assert (Hg : ∀ rc, in_grid (with_hinted_cells ∅ g') rc ↔ in_grid g0 rc).
    { intros rc. unfold in_grid. simpl. by rewrite Hw, Hh. }
    exists k, mines. split_and!; try done.
    + unfold _generate_grid_coordinate_positions in *. simpl in *. by rewrite Hw, Hh.
    + eapply Forall_impl; [exact Hin|]. intros x Hx. by apply Hg.
    + intros rc Hrc. apply Hg in Hrc. exact (Hc rc Hrc).
  - exfalso. unfold _set_cell_mines_and_surrounding_counts, _generate_mine_positions,
      random_sample in H. simpl in H.
    destruct (Z.leb_spec 0 k); destruct (Z.leb_spec k
      (Z.of_nat (length (_generate_grid_coordinate_positions g0)))); simpl in H;
      try done; lia.
Qed.

(** [__init__] returns whenever the number of mines is defined and fits. *)
Lemma Grid_init_returns draw w h d k :
  tier_mine_count d (w * h) = Some (Ok k) →
  0 <= k <= Z.of_nat (Z.to_nat h * Z.to_nat w) →
  ∃ g, Grid_init draw w h d = Ok g.
Proof.
  intros Et Hk. rewrite Grid_init_unfold, Et. simpl.
  set (g0 := mkGrid w h d (_create_empty_cells w h) (Some k) ∅) in *.
  destruct (set_cells_spec draw g0 k) as (g' & mines & Hset & _); try done.
  { apply create_empty_cells_wf. }
  { intros rc. apply create_empty_cells_at. }
  { by rewrite length_coordinates. }
  rewrite Hset. simpl. eauto.
Qed.

(* ===================================================================== *)

(** * The hint search                                                   *)
(* ===================================================================== *)

Lemma candidate_true g r c :
  unhinted_unopened_non_mine g r c = Ok true → seed_candidate g (r, c).
Proof.
  unfold unhinted_unopened_non_mine, seed_candidate, cell_at. simpl.
  case_decide; [done|].
  destruct (get_slot (cells g) r c) as [[cell|x]| |]; simpl; try done.
  destruct (is_open cell) eqn:Eo; [done|]. simpl.
  destruct (has_mine cell) eqn:Em; [done|]. intros _. split; [done|]. eauto.
Qed.

Lemma candidate_wf g rc :
  wf_grid g → in_grid g rc →
  ∃ b, unhinted_unopened_non_mine g rc.1 rc.2 = Ok b ∧ (b = true ↔ seed_candidate g rc).
Proof.
  intros Hwf Hin. destruct (wf_cell_at g rc Hwf Hin) as (cell & Hget & Hat).
  unfold unhinted_unopened_non_mine, seed_candidate.
  replace (rc.1, rc.2) with rc by (by destruct rc).
  case_decide.
  { exists false. split; [done|]. split; [done|]. by intros [? _]. }
  rewrite Hget, Hat. simpl.
  destruct (is_open cell) eqn:Eo.
  { exists false. split; [done|]. split; [done|]. intros (_ & ? & ? & ? & _). congruence. }
  simpl. destruct (has_mine cell) eqn:Em; simpl.
  - exists false. split; [done|]. split; [done|]. intros (_ & ? & ? & ? & ?). congruence.
  - exists true. split; [done|]. split; [|done]. intros _. split; [done|]. eauto.
Qed.

(** ** What a successful search returns *)

Lemma search_neighbours_found (P : coord → Prop) search ns :
  (∀ r c v x v', search r c v = Ok (Some x, v') → P x) →
  ∀ v x v', search_neighbours search ns v = Ok (Some x, v') → P x.
Proof.
  intros Hs. induction ns as [|[nr nc] ns IH]; intros v x v' H; simpl in H; [done|].
  destruct (decide ((nr, nc) ∈ v)); [by eapply IH|].
  destruct (search nr nc v) as [[[y|] v2]| |] eqn:E; simpl in H; try done.
  - simplify_eq. by eapply Hs.
  - by eapply IH.
Qed.

(** The loop of a search, after the call of [get_neighbours]. *)
Lemma search_loop_cases {B} f (ns : list coord) (k : list coord → result B) :
  (neighbours ← call f (fun _ => Ok ns); k neighbours)
  = match f with O => Raise RecursionError | S _ => k ns end.
Proof. by destruct f. Qed.

Lemma search_found frames g :
  ∀ r c v x v', _recursive_backtrack_search frames g r c v = Ok (Some x, v') → hintable g x.
Proof.
  induction frames as [|frames IH]; intros r c v x v' H; simpl in H; [done|].
  rewrite search_loop_cases in H.
  destruct (unhinted_unopened_non_mine g r c) as [[|]| |] eqn:Ec; simpl in H; try done.
  - apply candidate_true in Ec as (Hh & cell & Hat & Ho & Hm).
    unfold cell_at in Hat. simpl in Hat.
    destruct (get_slot (cells g) r c) as [[cell'|]| |] eqn:Eg; simplify_eq. simpl in H.
    destruct (Z.eqb_spec (surrounding_mines_count cell) 0) as [E0|E0].
    + simplify_eq. split; [done|]. exists cell. unfold cell_at. simpl. by rewrite Eg.
    + destruct frames; [done|]. by eapply search_neighbours_found.
  - destruct frames; [done|]. by eapply search_neighbours_found.
Qed.

Lemma hint_from_spec frames g seeds h g' :
  hint_from frames g seeds = Ok (h, g') →
  match h with
  | Some x => hintable g x ∧ g' = with_hinted_cells ({[ x ]} ∪ hinted_cells g) g
  | None => g' = g
  end.
Proof.
  induction seeds as [|[r c] seeds IH]; simpl; intros H.
  - by simplify_eq.
  - destruct (unhinted_unopened_non_mine g r c) as [[|]| |]; simpl in H; try done;
      [|by apply IH].
    destruct (_recursive_backtrack_search frames g r c ∅) as [[[x|] v]| |] eqn:E;
      simpl in H; try done; [|by apply IH].
    simplify_eq. split; [|done]. by eapply search_found.
Qed.

(** ** Neighbours *)

Lemma hint_seeds_coordinates g : hint_seeds g = _generate_grid_coordinate_positions g.
Proof. reflexivity. Qed.

Lemma elem_of_hint_seeds g rc : rc ∈ hint_seeds g ↔ in_grid g rc.
Proof. rewrite hint_seeds_coordinates. apply elem_of_coordinates_in_grid. Qed.

Lemma elem_of_get_neighbours g r c y :
  y ∈ get_neighbours g r c ↔
  in_grid g y ∧ Z.abs (y.1 - r) <= 1 ∧ Z.abs (y.2 - c) <= 1 ∧ y ≠ (r, c).
Proof.
  unfold get_neighbours, in_grid. rewrite list_elem_of_bind. split.
  - intros (r' & Hc & Hr). apply list_elem_of_bind in Hc as (c' & Hin & Hc).
    apply elem_of_py_range in Hr, Hc.
    case_decide as Hne; [|by apply elem_of_nil in Hin].
    apply list_elem_of_singleton in Hin. subst y. simpl. split_and!; try lia. done.
  - intros ((Hr & Hc) & Hdr & Hdc & Hne). exists y.1.
    split; [|apply elem_of_py_range; lia].
    apply list_elem_of_bind. exists y.2. split; [|apply elem_of_py_range; lia].
    rewrite decide_True.
    + apply list_elem_of_singleton. by destruct y.
    + by destruct y.
Qed.

Lemma get_neighbours_in_grid g r c : Forall (in_grid g) (get_neighbours g r c).
Proof. apply Forall_forall. intros y Hy. by apply elem_of_get_neighbours in Hy as [? _]. Qed.

(** ** Within the recursion limit *)

Lemma get_slot_fuel cs r c : get_slot cs r c ≠ NoFuel.
Proof.
  unfold get_slot, py_getitem, py_norm_index.
  repeat (case_match; simpl; try done).
Qed.

Lemma attr_fuel {A} (f : Cell → A) s : attr f s ≠ NoFuel.
Proof. by destruct s. Qed.

Lemma candidate_fuel g r c : unhinted_unopened_non_mine g r c ≠ NoFuel.
Proof.
  unfold unhinted_unopened_non_mine. case_decide; [done|].
  pose proof (get_slot_fuel (cells g) r c).
  destruct (get_slot (cells g) r c) as [[cell|x]| |]; simpl; try done.
  by destruct (is_open cell).
Qed.

Lemma elem_of_grid_set g rc : rc ∈ grid_set g ↔ in_grid g rc.
Proof. unfold grid_set. by rewrite elem_of_list_to_set, elem_of_hint_seeds. Qed.

Lemma size_grid_set g : size (grid_set g) = length (hint_seeds g).
Proof. apply size_list_to_set. rewrite hint_seeds_coordinates. apply NoDup_coordinates. Qed.

Lemma unvisited_shrinks (g : Grid) (rc : coord) (v : gset coord) :
  in_grid g rc → rc ∉ v →
  (size (grid_set g ∖ ({[ rc ]} ∪ v)) < size (grid_set g ∖ v))%nat.
Proof.
  intros Hin Hv. apply subset_size. apply elem_of_grid_set in Hin.
  split; [set_solver|]. intros H. specialize (H rc). set_solver.
Qed.

Section Fuel.
Variable g : Grid.

Lemma search_neighbours_no_fuel search :
  (∀ r c v, search r c v ≠ NoFuel) →
  ∀ ns v, search_neighbours search ns v ≠ NoFuel.
Proof.
  intros Hs. induction ns as [|[nr nc] ns IH]; intros v; simpl; [done|].
  destruct (decide ((nr, nc) ∈ v)); [by apply IH|].
  specialize (Hs nr nc v).
  destruct (search nr nc v) as [[[x|] v2]| |]; simpl; done.
Qed.

Lemma search_no_fuel f : ∀ r c v, _recursive_backtrack_search f g r c v ≠ NoFuel.
Proof.
  induction f as [|f IH]; intros r c v; simpl; [done|].
  rewrite search_loop_cases.
  pose proof (candidate_fuel g r c) as Hcf.
  destruct (unhinted_unopened_non_mine g r c) as [b| |]; simpl; [|done..].
  assert (Hloop : ∀ v0,
    match f with
    | O => Raise RecursionError
    | S _ => search_neighbours (_recursive_backtrack_search f g) (get_neighbours g r c) v0
    end ≠ NoFuel).
  { intros v0. destruct f; [done|]. by apply search_neighbours_no_fuel. }
  destruct b; simpl; [|apply Hloop].
  pose proof (get_slot_fuel (cells g) r c) as Hgf.
  destruct (get_slot (cells g) r c) as [s| |]; simpl; [|done..].
  pose proof (attr_fuel surrounding_mines_count s) as Haf.
  destruct (attr surrounding_mines_count s) as [n| |]; simpl; [|done..].
  destruct (n =? 0); [done|apply Hloop].
Qed.

Lemma hint_from_no_fuel f seeds : hint_from f g seeds ≠ NoFuel.
Proof.
  induction seeds as [|[r c] seeds IH]; simpl; [done|].
  pose proof (candidate_fuel g r c) as Hcf.
  destruct (unhinted_unopened_non_mine g r c) as [b| |]; simpl; [|done..].
  destruct b; [|done].
  pose proof (search_no_fuel f r c ∅) as Hnf.
  destruct (_recursive_backtrack_search f g r c ∅) as [[[x|] v2]| |]; simpl; done.
Qed.

Lemma search_neighbours_returns f search :
  returns_with g f search →
  ∀ ns v, Forall (in_grid g) ns → (size (grid_set g ∖ v) < f)%nat →
    search_neighbours search ns v ≠ Raise RecursionError
    ∧ search_neighbours search ns v ≠ NoFuel
    ∧ ∀ res v', search_neighbours search ns v = Ok (res, v') → v ⊆ v'.
Proof.
  intros Hs. induction ns as [|[nr nc] ns IH]; intros v Hns Hsize; simpl.
  - split_and!; [done..|]. intros res v' H. by simplify_eq.
  - apply Forall_cons in Hns as [Hn Hns].
    destruct (decide ((nr, nc) ∈ v)) as [e|n]; [by apply IH|].
    destruct (Hs nr nc v Hn n Hsize) as (Hnr & Hnf & Hmono).
    destruct (search nr nc v) as [[[x|] v2]|e|] eqn:E; simpl; try done.
    + split_and!; [done..|]. intros res v' H. simplify_eq.
      specialize (Hmono _ _ eq_refl). set_solver.
    + specialize (Hmono _ _ eq_refl).
      destruct (IH v2 Hns) as (Hnr' & Hnf' & Hmono').
      { eapply Nat.le_lt_trans; [|exact Hsize]. apply subseteq_size. set_solver. }
      split_and!; [done..|]. intros res v' H. specialize (Hmono' _ _ H). set_solver.
Qed.

Lemma search_returns f : returns_with g f (_recursive_backtrack_search f g).
Proof.
  induction f as [|f IH]; intros r c v Hin Hv Hsize; [lia|].
  assert (Hpos : (0 < size (grid_set g ∖ v))%nat).
  { assert (size (grid_set g ∖ v) ≠ 0%nat); [|lia].
    apply size_non_empty_iff. intros He. specialize (He (r, c)).
    apply elem_of_grid_set in Hin. set_solver. }
  simpl. rewrite search_loop_cases.
  pose proof (candidate_fuel g r c) as Hcf.
  destruct (unhinted_unopened_non_mine g r c) as [b|e|] eqn:Ec; simpl; [| |done].
  2:{ split_and!; [|done..]. intros He. injection He as ->.
      revert Ec. unfold unhinted_unopened_non_mine. case_decide; [done|].
      unfold get_slot, py_getitem, py_norm_index, attr.
      repeat (case_match; simpl; try done). }
  assert (Hloop :
    match f with
    | O => Raise RecursionError
    | S _ => search_neighbours (_recursive_backtrack_search f g) (get_neighbours g r c)
               ({[ (r, c) ]} ∪ v)
    end ≠ Raise RecursionError
    ∧ match f with
      | O => Raise RecursionError
      | S _ => search_neighbours (_recursive_backtrack_search f g) (get_neighbours g r c)
                 ({[ (r, c) ]} ∪ v)
      end ≠ NoFuel
    ∧ ∀ res v', match f with
                | O => Raise RecursionError
                | S _ => search_neighbours (_recursive_backtrack_search f g)
                           (get_neighbours g r c) ({[ (r, c) ]} ∪ v)
                end = Ok (res, v')
                → {[ (r, c) ]} ∪ v ⊆ v').
  { destruct f as [|f']; [lia|].
    apply (search_neighbours_returns (S f') _ IH); [apply get_neighbours_in_grid|].
    pose proof (unvisited_shrinks g (r, c) v Hin Hv) as Hlt.
    eapply Nat.lt_le_trans; [exact Hlt|]. apply Nat.lt_succ_r. exact Hsize. }
  destruct b; simpl; [|done].
  pose proof (get_slot_fuel (cells g) r c) as Hgf.
  destruct (get_slot (cells g) r c) as [s|e|] eqn:Eg; simpl; [| |done].
  2:{ split_and!; [|done..]. intros He. injection He as ->.
      revert Eg. unfold get_slot, py_getitem, py_norm_index.
      repeat (case_match; simpl; try done). }
  pose proof (attr_fuel surrounding_mines_count s) as Haf.
  destruct (attr surrounding_mines_count s) as [n|e|] eqn:Ea; simpl; [| |done].
  2:{ split_and!; [|done..]. destruct s; simpl in Ea; congruence. }
  destruct (n =? 0); [|done].
  split_and!; [done..|]. intros res v' H. by simplify_eq.
Qed.

(** More frames do not change the outcome of a search that stayed within the
    recursion limit. *)
Lemma search_neighbours_more s1 s2 :
  (∀ r c v, s1 r c v ≠ Raise RecursionError → s2 r c v = s1 r c v) →
  ∀ ns v, search_neighbours s1 ns v ≠ Raise RecursionError →
    search_neighbours s2 ns v = search_neighbours s1 ns v.
Proof.
  intros Hs. induction ns as [|[nr nc] ns IH]; intros v H; simpl in *; [done|].
  destruct (decide ((nr, nc) ∈ v)); [by apply IH|].
  destruct (s1 nr nc v) as [[[x|] v2]|e|] eqn:E; simpl in *;
    rewrite Hs, E by (rewrite E; congruence); simpl; [done|by apply IH|done..].
Qed.

Lemma search_more f :
  ∀ f' r c v, (f ≤ f')%nat →
    _recursive_backtrack_search f g r c v ≠ Raise RecursionError →
    _recursive_backtrack_search f' g r c v = _recursive_backtrack_search f g r c v.
Proof.
  induction f as [|f IH]; intros f' r c v Hle H; [done|].
  destruct f' as [|f']; [lia|]. simpl in *. rewrite !search_loop_cases in *.
  destruct (unhinted_unopened_non_mine g r c) as [b| |]; simpl in *; [|done..].
  assert (Hloop :
    match f with
    | O => Raise RecursionError
    | S _ => search_neighbours (_recursive_backtrack_search f g) (get_neighbours g r c)
               ({[ (r, c) ]} ∪ v)
    end ≠ Raise RecursionError →
    match f' with
    | O => Raise RecursionError
    | S _ => search_neighbours (_recursive_backtrack_search f' g) (get_neighbours g r c)
               ({[ (r, c) ]} ∪ v)
    end
    = match f with
      | O => Raise RecursionError
      | S _ => search_neighbours (_recursive_backtrack_search f g) (get_neighbours g r c)
                 ({[ (r, c) ]} ∪ v)
      end).
  { destruct f as [|f0]; [done|]. destruct f' as [|f'0]; [lia|].
    apply search_neighbours_more. intros. apply IH; [lia|done]. }
  destruct b; simpl in *; [|by apply Hloop].
  destruct (get_slot (cells g) r c) as [s| |]; simpl in *; [|done..].
  destruct (attr surrounding_mines_count s) as [n| |]; simpl in *; [|done..].
  destruct (n =? 0); [done|by apply Hloop].
Qed.

Lemma hint_from_more f f' seeds :
  (f ≤ f')%nat → hint_from f g seeds ≠ Raise RecursionError →
  hint_from f' g seeds = hint_from f g seeds.
Proof.
  intros Hle. induction seeds as [|[r c] seeds IH]; simpl; [done|].
  destruct (unhinted_unopened_non_mine g r c) as [b| |]; simpl; [|done..].
  destruct b; [|done]. intros H.
  assert (Hs : _recursive_backtrack_search f g r c ∅ ≠ Raise RecursionError).
  { intros E. by rewrite E in H. }
  rewrite (search_more f f' r c ∅ Hle Hs).
  destruct (_recursive_backtrack_search f g r c ∅) as [[[x|] v2]| |]; simpl in *;
    try done. by apply IH.
Qed.

Lemma hint_from_returns f seeds :
  (length (hint_seeds g) < f)%nat → Forall (in_grid g) seeds →
  hint_from f g seeds ≠ Raise RecursionError.
Proof.
  intros Hf. induction seeds as [|[r c] seeds IH]; intros Hseeds; simpl; [done|].
  apply Forall_cons in Hseeds as [Hin Hseeds]. specialize (IH Hseeds).
  destruct (unhinted_unopened_non_mine g r c) as [b|e|] eqn:Ec; simpl; [| |done].
  2:{ intros He. injection He as ->.
      revert Ec. unfold unhinted_unopened_non_mine. case_decide; [done|].
      unfold get_slot, py_getitem, py_norm_index, attr.
      repeat (case_match; simpl; try done). }
  destruct b; [|done].
  assert (Hsz : (size (grid_set g ∖ (∅ : gset coord)) < f)%nat).
  { eapply Nat.le_lt_trans; [|exact Hf]. rewrite <- size_grid_set.
    apply subseteq_size. set_solver. }
  destruct (search_returns f r c ∅ Hin) as (Hnr & _); [set_solver|done|].
  destruct (_recursive_backtrack_search f g r c ∅) as [[[x|] v2]|e|]; simpl; try done.
  congruence.
Qed.
End Fuel.

(** ** A failed search has explored the whole grid *)

Section Explore.
Variable g : Grid.
Hypothesis Hwf : wf_grid g.

Lemma explored_trans v1 v2 v3 : explored g v1 v2 → explored g v2 v3 → explored g v1 v3.
Proof.
  intros [S12 H12] [S23 H23]. split; [set_solver|].
  intros x Hx Hnx. destruct (decide (x ∈ v2)) as [e|n].
  - destruct (H12 x e Hnx) as (? & ? & Hn). split_and!; try done.
    intros y Hy. apply S23. by apply Hn.
  - by apply H23.
Qed.

Lemma search_neighbours_explores search :
  explores g search →
  ∀ ns v, Forall (in_grid g) ns →
    match search_neighbours search ns v with
    | Ok (None, v') => (∀ n, n ∈ ns → n ∈ v') ∧ explored g v v'
    | Raise e => e = RecursionError
    | _ => True
    end.
Proof.
  intros Hs. induction ns as [|[nr nc] ns IH]; intros v Hns; simpl.
  - split; [by intros n ?%elem_of_nil|]. split; [done|]. by intros x ? ?.
  - apply Forall_cons in Hns as [Hn Hns].
    destruct (decide ((nr, nc) ∈ v)) as [e|n].
    + specialize (IH v Hns).
      destruct (search_neighbours search ns v) as [[[x|] v']| |]; try done.
      destruct IH as [Hall Hex]. split; [|done].
      intros n [->|Hin]%elem_of_cons; [|by apply Hall]. destruct Hex as [Hsub _].
      by apply Hsub.
    + specialize (Hs nr nc v Hn).
      destruct (search nr nc v) as [[[x|] v2]| |]; simpl; try done.
      destruct Hs as [Hin2 Hex2]. specialize (IH v2 Hns).
      destruct (search_neighbours search ns v2) as [[[x|] v']| |]; try done.
      destruct IH as [Hall Hex]. split; [|by eapply explored_trans].
      intros m [->|Hin]%elem_of_cons; [|by apply Hall]. destruct Hex as [Hsub _].
      by apply Hsub.
Qed.

Lemma search_explores f : explores g (_recursive_backtrack_search f g).
Proof.
  induction f as [|f IH]; intros r c v Hin; simpl; [done|].
  rewrite search_loop_cases.
  destruct (candidate_wf g (r, c) Hwf Hin) as (b & Hb & Hiff). simpl in Hb.
  rewrite Hb. simpl.
  destruct (wf_cell_at g (r, c) Hwf Hin) as (cell & Hget & Hat). simpl in Hget.
  assert (Hloop : ¬ hintable g (r, c) →
    match match f with
          | O => Raise RecursionError
          | S _ => search_neighbours (_recursive_backtrack_search f g)
                     (get_neighbours g r c) ({[ (r, c) ]} ∪ v)
          end with
    | Ok (None, v') => (r, c) ∈ v' ∧ explored g v v'
    | Raise e => e = RecursionError
    | _ => True
    end).
  { intros Hnh. destruct f as [|f0]; [done|].
    pose proof (search_neighbours_explores _ IH (get_neighbours g r c)
                  ({[ (r, c) ]} ∪ v) (get_neighbours_in_grid g r c)) as H.
    destruct (search_neighbours _ _ _) as [[[x|] v']| |]; try done.
    destruct H as [Hall [Hsub Hex]]. split; [set_solver|]. split; [set_solver|].
    intros x Hx Hnx. destruct (decide (x = (r, c))) as [->|Hne].
    - split_and!; try done.
    - apply Hex; [done|set_solver]. }
  destruct b; simpl.
  - rewrite Hget. simpl.
    destruct (Z.eqb_spec (surrounding_mines_count cell) 0) as [E0|E0]; [done|].
    apply Hloop. intros (_ & cell' & Hat' & _ & _ & Hz). congruence.
  - apply Hloop. intros (Hh & cell' & Hat' & Ho & Hm & _).
    assert (false = true); [|done]. apply Hiff. split; [done|]. eauto.
Qed.

(** The grid is connected: a set of cells that holds one cell of the grid
    and the neighbours of each of its cells holds them all. *)
Lemma closed_covers (S : gset coord) (s : coord) :
  in_grid g s → s ∈ S →
  (∀ x, x ∈ S → ∀ y, y ∈ get_neighbours g x.1 x.2 → y ∈ S) →
  ∀ t, in_grid g t → t ∈ S.
Proof.
  intros Hs HsS Hcl t Ht.
  remember (Z.to_nat (Z.abs (t.1 - s.1) + Z.abs (t.2 - s.2))) as n eqn:En.
  revert s Hs HsS En. induction n as [|n IH]; intros s Hs HsS En.
  - assert (t = s) as ->; [|done]. destruct t, s; simpl in *. f_equal; lia.
  - destruct Hs as [Hs1 Hs2], Ht as [Ht1 Ht2].
    set (s' := (if decide (t.1 = s.1) then s.1
                else if decide (s.1 < t.1) then s.1 + 1 else s.1 - 1,
                if decide (t.1 = s.1)
                then (if decide (s.2 < t.2) then s.2 + 1 else s.2 - 1)
                else s.2) : coord).
    assert (Hs' : in_grid g s').
    { unfold s', in_grid. simpl. repeat case_decide; lia. }
    apply (IH s' Hs').
    + apply (Hcl s HsS). apply elem_of_get_neighbours. split; [done|].
      unfold s'. simpl. split_and!; try (repeat case_decide; lia).
      intros E. destruct s as [s1 s2]. simpl in *.
      injection E as E1 E2. repeat case_decide; lia.
    + unfold s'. simpl. simpl in En. repeat case_decide; lia.
Qed.

(** A search from an empty visited set that finds nothing has seen that no
    cell of the grid can be returned. *)
Lemma search_none_exhaustive f r c v' :
  in_grid g (r, c) →
  _recursive_backtrack_search f g r c ∅ = Ok (None, v') →
  (∀ t, in_grid g t → t ∈ v') ∧ (∀ t, in_grid g t → ¬ hintable g t).
Proof.
  intros Hin H. pose proof (search_explores f r c ∅ Hin) as He. rewrite H in He.
  destruct He as [Hrc [_ Hex]].
  assert (Hall : ∀ t, in_grid g t → t ∈ v').
  { apply (closed_covers v' (r, c) Hin Hrc). intros x Hx. by apply Hex. }
  split; [done|]. intros t Ht. apply Hex; [by apply Hall|set_solver].
Qed.

(** On a board all of whose slots hold cells the one exception [hint] can end
    in is [RecursionError]. *)
Lemma hint_from_no_raise f seeds e :
  Forall (in_grid g) seeds → hint_from f g seeds = Raise e → e = RecursionError.
Proof.
  induction seeds as [|[r c] seeds IH]; intros Hseeds; simpl; [done|].
  apply Forall_cons in Hseeds as [Hin Hseeds].
  destruct (candidate_wf g (r, c) Hwf Hin) as (b & Hb & _). simpl in Hb. rewrite Hb.
  simpl. destruct b; [|by apply IH].
  pose proof (search_explores f r c ∅ Hin) as He.
  destruct (_recursive_backtrack_search f g r c ∅) as [[[x|] v']| |]; simpl; try done.
  - by apply IH.
  - congruence.
Qed.

(** With a cell that can be returned among the seeds, [hint] does not come
    back empty-handed. *)
Lemma hint_from_finds f seeds q h g' :
  Forall (in_grid g) seeds → q ∈ seeds → hintable g q →
  hint_from f g seeds = Ok (h, g') → h ≠ None.
Proof.
  induction seeds as [|[r c] seeds IH]; intros Hseeds Hq Hh H; simpl in H.
  - by apply elem_of_nil in Hq.
  - apply Forall_cons in Hseeds as [Hin Hseeds].
    destruct (candidate_wf g (r, c) Hwf Hin) as (b & Hb & Hiff). simpl in Hb.
    rewrite Hb in H. simpl in H. destruct b.
    + destruct (_recursive_backtrack_search f g r c ∅) as [[[x|] v']| |] eqn:E;
        simpl in H; try done.
      * by simplify_eq.
      * exfalso. destruct (search_none_exhaustive f r c v' Hin E) as [_ Hno].
        apply (Hno q); [|done]. rewrite Forall_forall in Hseeds.
        apply elem_of_cons in Hq as [->|Hq]; [done|by apply Hseeds].
    + apply elem_of_cons in Hq as [->|Hq]; [|by apply IH].
      exfalso. assert (false = true); [|done]. apply Hiff.
      destruct Hh as (? & cell & ? & ? & ? & _). split; [done|]. eauto.
Qed.
End Explore.

(* ===================================================================== *)
(** * The console loops, guesses and turns                              *)
(* ===================================================================== *)

(** ** The console loops return *)

Lemma input_Ok prompt io line io' :
  input prompt io = Ok (line, io') →
  stdin io = line :: stdin io' ∧ stdout io' = stdout io ++ [prompt].
Proof. unfold input. destruct (stdin io) eqn:E; [done|]. intros H. by simplify_eq. Qed.

Lemma input_fuel prompt io : input prompt io ≠ NoFuel.
Proof. unfold input. by destruct (stdin io). Qed.

Lemma int_of_str_cases s : (∃ n, int_of_str s = Ok n) ∨ int_of_str s = Raise ValueError.
Proof. unfold int_of_str. case_match; eauto. Qed.

Lemma Grid_print_stdin g io : stdin (Grid_print g io) = stdin io.
Proof.
  unfold Grid_print. revert io. induction (cells g) as [|row rows IH]; intros io; [done|].
  simpl. by rewrite IH.
Qed.

Lemma get_valid_coordinate_loop_spec fuel prompt max_index :
  ∀ io, (length (stdin io) < fuel)%nat →
    get_valid_coordinate_loop fuel prompt max_index io ≠ NoFuel
    ∧ ∀ z io', get_valid_coordinate_loop fuel prompt max_index io = Ok (z, io') →
        0 <= z <= max_index ∧ (length (stdin io') < length (stdin io))%nat.
Proof.
  induction fuel as [|fuel IH]; intros io Hlen; [lia|]. simpl.
  pose proof (input_fuel prompt io) as Hif.
  destruct (input prompt io) as [[line io1]| |] eqn:Ei; simpl; [|done..].
  apply input_Ok in Ei as [Ein _]. rewrite Ein in Hlen. simpl in Hlen.
  assert (Hrec : ∀ msg,
    get_valid_coordinate_loop fuel prompt max_index (print msg io1) ≠ NoFuel
    ∧ ∀ z io', get_valid_coordinate_loop fuel prompt max_index (print msg io1) = Ok (z, io') →
        0 <= z <= max_index ∧ (length (stdin io') < length (stdin io))%nat).
  { intros msg. destruct (IH (print msg io1)) as [Hnf Hok]; [simpl; lia|].
    split; [done|]. intros z io' Hz. destruct (Hok z io' Hz) as [? Hl].
    split; [done|]. simpl in Hl. rewrite Ein. simpl. lia. }
  destruct (int_of_str_cases line) as [[n ->]| ->]; [|apply Hrec].
  destruct (Z.leb_spec 0 n); destruct (Z.leb_spec n max_index); simpl; try apply Hrec.
  split; [done|]. intros z io' Hz. simplify_eq. split; [lia|]. rewrite Ein. simpl. lia.
Qed.

Lemma get_valid_coordinate_spec plane max_index io :
  _get_valid_coordinate plane max_index io ≠ NoFuel
  ∧ ∀ z io', _get_valid_coordinate plane max_index io = Ok (z, io') →
      0 <= z <= max_index ∧ (length (stdin io') < length (stdin io))%nat.
Proof. apply get_valid_coordinate_loop_spec. lia. Qed.

Lemma is_cell_open_fuel g r c : is_cell_open g r c ≠ NoFuel.
Proof.
  unfold is_cell_open. pose proof (get_slot_fuel (cells g) r c).
  destruct (get_slot (cells g) r c) as [s| |]; simpl; try done. apply attr_fuel.
Qed.

Lemma get_user_guess_loop_spec fuel self :
  ∀ io, (length (stdin io) < fuel)%nat →
    get_user_guess_loop fuel self io ≠ NoFuel
    ∧ ∀ rc io', get_user_guess_loop fuel self io = Ok (rc, io') →
        in_grid (grid self) rc
        ∧ is_cell_open (grid self) rc.1 rc.2 = Ok false
        ∧ (length (stdin io') < length (stdin io))%nat.
Proof.
  induction fuel as [|fuel IH]; intros io Hlen; [lia|]. simpl.
  destruct (get_valid_coordinate_spec "column" (width (grid self) - 1) io) as [Hnf1 Hok1].
  destruct (_get_valid_coordinate "column" _ io) as [[col io1]| |]; simpl; [|done..].
  destruct (Hok1 _ _ eq_refl) as [Hcol Hl1].
  destruct (get_valid_coordinate_spec "row" (height (grid self) - 1) io1) as [Hnf2 Hok2].
  destruct (_get_valid_coordinate "row" _ io1) as [[row io2]| |]; simpl; [|done..].
  destruct (Hok2 _ _ eq_refl) as [Hrow Hl2].
  pose proof (is_cell_open_fuel (grid self) row col) as Hof.
  destruct (is_cell_open (grid self) row col) as [[|]| |] eqn:Eo; simpl; [| |done..].
  - destruct (IH (print "Invalid input. The cell is already opened. Please choose another cell." io2))
      as [Hnf Hok]; [simpl; lia|].
    split; [done|]. intros rc io' H. destruct (Hok rc io' H) as (? & ? & Hl).
    split_and!; try done. simpl in Hl. lia.
  - split; [done|]. intros rc io' H. simplify_eq. simpl.
    split_and!; try done; [|lia]. unfold in_grid. simpl. lia.
Qed.

(** [_get_user_guess] returns (a guess, or an exception such as [EOFError]),
    and a guess it returns is inside the grid and names an unopened cell. *)
Lemma get_user_guess_spec self io :
  _get_user_guess self io ≠ NoFuel
  ∧ ∀ rc io', _get_user_guess self io = Ok (rc, io') →
      in_grid (grid self) rc
      ∧ is_cell_open (grid self) rc.1 rc.2 = Ok false
      ∧ (length (stdin io') < length (stdin io))%nat.
Proof. apply get_user_guess_loop_spec. lia. Qed.

(** ** [reveal] *)

Lemma put_slot_fuel cs r c v : put_slot cs r c v ≠ NoFuel.
Proof.
  unfold put_slot, py_getitem, py_setitem, py_norm_index.
  repeat (case_match; simpl; try done).
Qed.

Lemma reveal_fuel self rc io : reveal self rc io ≠ NoFuel.
Proof.
  unfold reveal, _has_guessed_mine, Grid_has_mine, update_slot.
  pose proof (get_slot_fuel (cells (grid self)) rc.1 rc.2).
  destruct (get_slot (cells (grid self)) rc.1 rc.2) as [[c|x]| |] eqn:E; simpl; try done.
  destruct (has_mine c); simpl.
  - pose proof (put_slot_fuel (cells (grid self)) rc.1 rc.2 (SStr "X")).
    by destruct (put_slot _ _ _ _).
  - rewrite E. simpl.
    pose proof (put_slot_fuel (cells (grid self)) rc.1 rc.2 (SCell (with_is_open true c))).
    by destruct (put_slot _ _ _ _).
Qed.

(** What [reveal] returns, in terms of the slot it finds and the one it
    stores. *)
Lemma reveal_Ok self rc io mine self' io' :
  reveal self rc io = Ok (mine, self', io') →
  ∃ c cs,
    get_slot (cells (grid self)) rc.1 rc.2 = Ok (SCell c)
    ∧ has_mine c = mine
    ∧ put_slot (cells (grid self)) rc.1 rc.2
        (if mine then SStr "X" else SCell (with_is_open true c)) = Ok cs
    ∧ self' = mkGame (with_cells cs (grid self))
    ∧ stdin io' = stdin io.
Proof.
  unfold reveal, _has_guessed_mine, Grid_has_mine, update_slot. intros H.
  destruct (get_slot (cells (grid self)) rc.1 rc.2) as [[c|x]| |] eqn:E; simpl in H; try done.
  destruct (has_mine c) eqn:Em; simpl in H.
  - destruct (put_slot _ _ _ (SStr "X")) as [cs| |] eqn:Ep; simpl in H; try done.
    simplify_eq. exists c, cs. split_and!; try done.
    simpl. by rewrite Grid_print_stdin.
  - rewrite E in H. simpl in H.
    destruct (put_slot _ _ _ (SCell _)) as [cs| |] eqn:Ep; simpl in H; try done.
    simplify_eq. exists c, cs. split_and!; try done.
    by rewrite Grid_print_stdin.
Qed.

Lemma reveal_wf self rc io :
  wf_grid (grid self) → in_grid (grid self) rc →
  ∃ mine self' io', reveal self rc io = Ok (mine, self', io').
Proof.
  intros Hwf Hin. destruct (wf_cell_at _ rc Hwf Hin) as (c & Hget & _).
  destruct Hwf as [Hs _].
  unfold reveal, _has_guessed_mine, Grid_has_mine, update_slot. rewrite Hget. simpl.
  destruct (has_mine c); simpl.
  - destruct (put_slot_in _ rc (SStr "X") Hs Hin) as (cs & -> & _). simpl. eauto.
  - rewrite Hget. simpl.
    destruct (put_slot_in _ rc (SCell (with_is_open true c)) Hs Hin) as (cs & -> & _).
    simpl. eauto.
Qed.

(** ** [play] *)

Lemma first_true_fuel {X} (test : X → result bool) xs :
  (∀ x, test x ≠ NoFuel) → first_true test xs ≠ NoFuel.
Proof.
  intros Ht. induction xs as [|x xs IH]; simpl; [done|].
  specialize (Ht x). destruct (test x) as [[|]| |]; simpl; done.
Qed.

Lemma has_unopened_non_mines_fuel g : has_unopened_non_mines g ≠ NoFuel.
Proof.
  unfold has_unopened_non_mines. apply first_true_fuel. intros row.
  apply first_true_fuel. intros s. apply attr_fuel.
Qed.

Lemma hint_fuel frames g : hint frames g ≠ NoFuel.
Proof. unfold hint. apply hint_from_no_fuel. Qed.

Lemma request_hint_spec frames self io :
  request_hint frames self io ≠ NoFuel
  ∧ ∀ self' io', request_hint frames self io = Ok (self', io') →
      stdin io' = stdin io ∧ ∃ h, hint frames (grid self) = Ok (h, grid self').
Proof.
  unfold request_hint. pose proof (hint_fuel frames (grid self)).
  destruct (hint frames (grid self)) as [[[[r c]|] g]| |]; simpl; try done;
    (split; [done|]); intros self' io' Hr; simplify_eq; simpl; eauto.
Qed.

(** What a turn of the loop can do. *)
Lemma play_turn_spec frames self io :
  play_turn frames self io ≠ NoFuel
  ∧ ∀ st self' io', play_turn frames self io = Ok (st, self', io') →
      match st with
      | Won =>
          has_unopened_non_mines (grid self) = Ok false
          ∧ self' = self ∧ stdin io' = stdin io
      | Lost =>
          has_unopened_non_mines (grid self) = Ok true
          ∧ ∃ rc io1,
              in_grid (grid self) rc
              ∧ is_cell_open (grid self) rc.1 rc.2 = Ok false
              ∧ reveal self rc io1 = Ok (true, self', io')
      | InProgress =>
          has_unopened_non_mines (grid self) = Ok true
          ∧ (length (stdin io') < length (stdin io))%nat
          ∧ (self' = self
             ∨ (∃ h, hint frames (grid self) = Ok (h, grid self'))
             ∨ ∃ rc io1,
                 in_grid (grid self) rc
                 ∧ is_cell_open (grid self) rc.1 rc.2 = Ok false
                 ∧ reveal self rc io1 = Ok (false, self', io'))
      end.
Proof.
  unfold play_turn. pose proof (has_unopened_non_mines_fuel (grid self)) as Hu.
  destruct (has_unopened_non_mines (grid self)) as [[|]| |]; simpl; [| |done..].
  2:{ split; [done|]. intros st self' io' H. simplify_eq. split_and!; try done.
      simpl. by rewrite Grid_print_stdin. }
  set (prompt := "Enter 'play' to make a move, or 'hint' to get a hint: "%string).
  pose proof (input_fuel prompt io) as Hif.
  destruct (input prompt io) as [[line io1]| |] eqn:Ei; simpl; [|done..].
  apply input_Ok in Ei as [Ein _].
  destruct (String.eqb (lower (strip line)) "play").
  - destruct (get_user_guess_spec self (Grid_print (grid self) io1)) as [Hnf Hok].
    destruct (_get_user_guess self _) as [[rc io2]| |]; simpl; [|done..].
    destruct (Hok _ _ eq_refl) as (Hin & Hopen & Hl). rewrite Grid_print_stdin in Hl.
    pose proof (reveal_fuel self rc io2) as Hrf.
    destruct (reveal self rc io2) as [[[mine self2] io3]| |] eqn:Er; simpl; [|done..].
    split; [done|]. intros st self' io' H. simplify_eq.
    pose proof (reveal_Ok _ _ _ _ _ _ Er) as (_ & _ & _ & _ & _ & _ & Hst).
    destruct mine.
    + split; [done|]. eauto 10.
    + split; [done|]. split; [rewrite Ein, Hst; simpl; lia|]. right. right. eauto 10.
  - destruct (String.eqb (lower (strip line)) "hint").
    + destruct (request_hint_spec frames self io1) as [Hnf Hok].
      destruct (request_hint frames self io1) as [[self2 io2]| |]; simpl; [|done..].
      destruct (Hok _ _ eq_refl) as [Hst Hh].
      split; [done|]. intros st self' io' H. simplify_eq.
      split; [done|]. split; [rewrite Ein, Hst; simpl; lia|]. right. by left.
    + split; [done|]. intros st self' io' H. simplify_eq.
      split; [done|]. split; [rewrite Ein; simpl; lia|]. by left.
Qed.

Lemma play_loop_spec frames fuel :
  ∀ self io, (length (stdin io) < fuel)%nat →
    play_loop frames fuel self io ≠ NoFuel
    ∧ ∀ st self' io', play_loop frames fuel self io = Ok (st, self', io') →
        st ≠ InProgress.
Proof.
  induction fuel as [|fuel IH]; intros self io Hlen; [lia|]. simpl.
  destruct (play_turn_spec frames self io) as [Hnf Hok].
  destruct (play_turn frames self io) as [[[st self1] io1]| |]; simpl; [|done..].
  specialize (Hok _ _ _ eq_refl). destruct st.
  - destruct Hok as (_ & Hl & _). apply IH. lia.
  - split; [done|]. intros st self' io' H. by simplify_eq.
  - split; [done|]. intros st self' io' H. by simplify_eq.
Qed.

(** ** [play.py] *)

Lemma read_dimensions_loop_spec fuel :
  ∀ io, (length (stdin io) < fuel)%nat →
    read_dimensions_loop fuel io ≠ NoFuel
    ∧ ∀ w h io', read_dimensions_loop fuel io = Ok (w, h, io') → 2 <= w ∧ 2 <= h.
Proof.
  induction fuel as [|fuel IH]; intros io Hlen; [lia|]. simpl.
  pose proof (input_fuel "Enter the width of the grid: " io) as Hif.
  destruct (input _ io) as [[l1 io1]| |] eqn:E1; simpl; [|done..].
  apply input_Ok in E1 as [E1 _].
  destruct (int_of_str_cases l1) as [[w ->]| ->]; simpl; [|done].
  pose proof (input_fuel "Enter the height of the grid: " io1) as Hif2.
  destruct (input _ io1) as [[l2 io2]| |] eqn:E2; simpl; [|done..].
  apply input_Ok in E2 as [E2 _].
  destruct (int_of_str_cases l2) as [[h ->]| ->]; simpl; [|done].
  destruct (Z.ltb_spec 1 w); destruct (Z.ltb_spec 1 h); simpl;
    try (apply IH; simpl; rewrite E1, E2 in Hlen; simpl in Hlen; lia).
  split; [done|]. intros w' h' io' Hr. simplify_eq. lia.
Qed.

Lemma window_count_is_hazard_neighbours g rc :
  in_grid g rc → ¬ mine_at g rc → surrounding g rc = hazard_neighbours g rc.
Proof.
  intros Hin Hnm. unfold surrounding, hazard_neighbours. f_equal.
  apply Permutation_length, NoDup_Permutation.
  - apply NoDup_filter, NoDup_window.
  - apply NoDup_filter, NoDup_coordinates.
  - intros x. rewrite !list_elem_of_filter, elem_of_window, elem_of_coordinates_in_grid.
    unfold adjacent. split.
    + intros [[Hx Hm] [Hr Hc]]. split_and!; try done; try lia. by intros ->.
    + intros [[(Hne & Hr & Hc) Hm] Hx]. split_and!; try done; lia.
Qed.

Lemma built_mine_at g mines :
  (∀ rc, in_grid g rc → cell_at g rc = Some (built_cell g mines rc)) →
  ∀ rc, in_grid g rc → (mine_at g rc ↔ rc ∈ mines).
Proof.
  intros Hb rc Hin. unfold mine_at. rewrite Hb by done. unfold built_cell.
  destruct (decide (rc ∈ mines)); simpl; split; try done.
Qed.

Lemma tier_mine_count_valid d total :
  1 <= d <= 3 → 0 < total < 2 ^ 50 →
  tier_mine_count d total = Some (Ok (documented_hazard_count d total)).
Proof.
  intros Hd Ht. unfold tier_mine_count, documented_hazard_count.
  assert (d = 1 ∨ d = 2 ∨ d = 3) as [->|[->| ->]] by lia; simpl.
  - rewrite int_mul_float_0_10 by done. simpl. do 2 f_equal.
    replace (total * 10 / 100) with (total / 10); [lia|].
    change 100 with (10 * 10). by rewrite Z.div_mul_cancel_r.
  - rewrite int_mul_float_0_15 by done. simpl. do 2 f_equal.
    replace (total * 15 / 100) with (3 * total / 20); [lia|].
    replace (total * 15) with (3 * total * 5) by lia.
    change 100 with (20 * 5). by rewrite Z.div_mul_cancel_r.
  - rewrite int_mul_float_0_20 by done. simpl. do 2 f_equal.
    replace (total * 20 / 100) with (total / 5); [lia|].
    change 100 with (5 * 20). by rewrite Z.div_mul_cancel_r.
Qed.

Lemma documented_hazard_count_fits d total :
  1 <= d <= 3 → 4 <= total →
  0 <= documented_hazard_count d total <= total.
Proof.
  intros Hd Ht. unfold documented_hazard_count.
  assert (total * 10 / 100 <= total).
  { apply Z.div_le_upper_bound; lia. }
  assert (total * 15 / 100 <= total).
  { apply Z.div_le_upper_bound; lia. }
  assert (total * 20 / 100 <= total).
  { apply Z.div_le_upper_bound; lia. }
  repeat case_match; lia.
Qed.

Lemma Grid_init_valid draw w h d :
  2 <= w → 2 <= h → 1 <= d <= 3 → w * h < 2 ^ 50 →
  ∃ g, Grid_init draw w h d = Ok g.
Proof.
  intros Hw Hh Hd Hb.
  assert (4 <= w * h) by nia.
  apply (Grid_init_returns draw w h d (documented_hazard_count d (w * h))).
  - apply tier_mine_count_valid; lia.
  - pose proof (documented_hazard_count_fits d (w * h) Hd ltac:(lia)).
    rewrite Nat2Z.inj_mul, !Z2Nat.id by lia. lia.
Qed.

(* ===================================================================== *)
(** * Hints, turns and games                                            *)
(* ===================================================================== *)

(** ** The constructor on any input *)

Lemma int_mul_float_small (n : Z) (x : float) :
  x = lit_0_10 ∨ x = lit_0_15 ∨ x = lit_0_20 →
  0 <= n < 3 → int_mul_float n x = Ok 0.
Proof.
  intros Hx Hn.
  assert (n = 0 ∨ n = 1 ∨ n = 2) as [->|[->| ->]] by lia;
    destruct Hx as [->|[->| ->]]; vm_compute; reflexivity.
Qed.

Lemma tier_mine_count_small d total :
  1 <= d <= 3 → 0 <= total < d → tier_mine_count d total = Some (Ok d).
Proof.
  intros Hd Ht. unfold tier_mine_count.
  assert (d = 1 ∨ d = 2 ∨ d = 3) as [->|[->| ->]] by lia; simpl;
    rewrite int_mul_float_small by (auto; lia); reflexivity.
Qed.

Lemma documented_hazard_count_fits_tier d total :
  1 <= d <= 3 → d <= total →
  0 <= documented_hazard_count d total <= total.
Proof.
  intros Hd Ht. unfold documented_hazard_count.
  assert (total * 10 / 100 <= total) by (apply Z.div_le_upper_bound; lia).
  assert (total * 15 / 100 <= total) by (apply Z.div_le_upper_bound; lia).
  assert (total * 20 / 100 <= total) by (apply Z.div_le_upper_bound; lia).
  repeat case_match; lia.
Qed.

(** Products with a negative number of cells: the sign goes through the
    rounding. *)
Lemma binary_round_aux_opp s mx ex lx :
  binary_round_aux 53 1024 (negb s) mx ex lx
  = float_opp (binary_round_aux 53 1024 s mx ex lx).
Proof.
  unfold binary_round_aux.
  destruct (shr_fexp 53 1024 mx ex lx) as [mrs' e'].
  destruct (shr_fexp 53 1024 _ e' loc_Exact) as [mrs'' e''].
  destruct (shr_m mrs''); try done. by destruct (e'' <=? 1024 - 53).
Qed.

Lemma int_of_float_opp f : int_of_float (float_opp f) = Z.opp <$> int_of_float f.
Proof.
  destruct f as [s|s| |s m e]; simpl; try done.
  destruct s; simpl; f_equal; lia.
Qed.

Lemma int_mul_float_neg p s m e :
  int_mul_float (Z.neg p) (S754_finite s m e)
  = Z.opp <$> int_mul_float (Z.pos p) (S754_finite s m e).
Proof.
  unfold int_mul_float, float_of_int, binary_normalize, binary_round.
  destruct (shl_align p 0 _) as [mz ez].
  change true with (negb false) at 1. rewrite binary_round_aux_opp.
  destruct (binary_round_aux 53 1024 false (Z.pos mz) ez loc_Exact) as [s0|s0| |s0 m0 e0];
    simpl; try done.
  replace (xorb (negb s0) s) with (negb (xorb s0 s)) by (by destruct s0, s).
  rewrite binary_round_aux_opp. apply int_of_float_opp.
Qed.

Lemma tier_mine_count_negative d total :
  1 <= d <= 3 → - 2 ^ 50 < total < 0 → tier_mine_count d total = Some (Ok d).
Proof.
  intros Hd Ht. destruct total as [|p|p]; try lia.
  assert (Hp : 0 < Z.pos p < 2 ^ 50) by lia.
  unfold tier_mine_count, lit_0_10, lit_0_15, lit_0_20.
  assert (d = 1 ∨ d = 2 ∨ d = 3) as [->|[->| ->]] by lia; simpl;
    rewrite int_mul_float_neg.
  - fold lit_0_10. rewrite int_mul_float_0_10 by done. simpl. do 2 f_equal.
    pose proof (Z.div_pos (Z.pos p) 10). lia.
  - fold lit_0_15. rewrite int_mul_float_0_15 by done. simpl. do 2 f_equal.
    pose proof (Z.div_pos (3 * Z.pos p) 20). lia.
  - fold lit_0_20. rewrite int_mul_float_0_20 by done. simpl. do 2 f_equal.
    pose proof (Z.div_pos (Z.pos p) 5). lia.
Qed.

Lemma Grid_init_unknown_difficulty draw w h d :
  ¬ (1 <= d <= 3) → Grid_init draw w h d = Raise AttributeError.
Proof.
  intros Hd. rewrite Grid_init_unfold. unfold tier_mine_count.
  destruct (Z.eqb_spec d 1); [lia|].
  destruct (Z.eqb_spec d 2); [lia|].
  destruct (Z.eqb_spec d 3); [lia|done].
Qed.

(** More mines than cells: [random.sample] raises [ValueError]. *)
Lemma Grid_init_no_room draw w h d k :
  tier_mine_count d (w * h) = Some (Ok k) →
  Z.of_nat (Z.to_nat h * Z.to_nat w) < k →
  Grid_init draw w h d = Raise ValueError.
Proof.
  intros Et Hk. rewrite Grid_init_unfold, Et. simpl.
  unfold _set_cell_mines_and_surrounding_counts, _generate_mine_positions. simpl.
  unfold random_sample. rewrite length_coordinates. simpl.
  destruct (Z.leb_spec 0 k); [|done].
  destruct (Z.leb_spec k (Z.of_nat (Z.to_nat h * Z.to_nat w))); [lia|done].
Qed.

(** What the constructor does with any dimensions and difficulty, the
    product of the dimensions within 2^50 either way. *)
Lemma Grid_init_cases draw w h d :
  1 <= d <= 3 → - 2 ^ 50 < w * h < 2 ^ 50 →
  (0 <= w → 0 <= h → d <= w * h → ∃ g, Grid_init draw w h d = Ok g)
  ∧ (¬ (0 <= w ∧ 0 <= h ∧ d <= w * h) → Grid_init draw w h d = Raise ValueError).
Proof.
  intros Hd Hb. split.
  - intros Hw Hh Hroom.
    apply (Grid_init_returns draw w h d (documented_hazard_count d (w * h))).
    + apply tier_mine_count_valid; lia.
    + rewrite Nat2Z.inj_mul, !Z2Nat.id by lia.
      pose proof (documented_hazard_count_fits_tier d (w * h) Hd Hroom). lia.
  - intros Hbad.
    destruct (decide (0 <= w ∧ 0 <= h)) as [[Hw Hh]|Hneg].
    + assert (0 <= w * h < d) by nia.
      apply (Grid_init_no_room draw w h d d); [by apply tier_mine_count_small|].
      rewrite Nat2Z.inj_mul, !Z2Nat.id by lia. lia.
    + assert (Hnone : Z.of_nat (Z.to_nat h * Z.to_nat w) = 0).
      { assert (Z.to_nat h = 0%nat ∨ Z.to_nat w = 0%nat) as [-> | ->] by lia; lia. }
      destruct (Z.lt_trichotomy (w * h) 0) as [Hlt|[Hz|Hgt]].
      * apply (Grid_init_no_room draw w h d d);
          [apply tier_mine_count_negative; lia|lia].
      * apply (Grid_init_no_room draw w h d d);
          [apply tier_mine_count_small; lia|lia].
      * apply (Grid_init_no_room draw w h d (documented_hazard_count d (w * h)));
          [apply tier_mine_count_valid; lia|].
        rewrite Hnone. unfold documented_hazard_count. repeat case_match; lia.
Qed.

(** ** What [hint] returns *)

Lemma hint_spec frames g h g' :
  hint frames g = Ok (h, g') →
  match h with
  | Some x => hintable g x ∧ g' = with_hinted_cells ({[ x ]} ∪ hinted_cells g) g
  | None => g' = g
  end.
Proof. apply hint_from_spec. Qed.

Lemma reveal_hinted_cells self rc io mine self' io' :
  reveal self rc io = Ok (mine, self', io') →
  hinted_cells (grid self') = hinted_cells (grid self).
Proof. intros H. apply reveal_Ok in H as (c & cs & _ & _ & _ & -> & _). done. Qed.

Lemma hints_of_session_fresh frames reqs :
  ∀ self io hs, hints_of_session frames reqs self io = Ok hs →
    NoDup hs ∧ ∀ x, x ∈ hs → x ∉ hinted_cells (grid self).
Proof.
  induction reqs as [|[|rc] reqs IH]; intros self io hs H; simpl in H.
  - simplify_eq. split; [constructor|]. by intros x ?%elem_of_nil.
  - destruct (hint frames (grid self)) as [[h g']| |] eqn:Eh; simpl in H; try done.
    unfold request_hint in H. rewrite Eh in H. simpl in H.
    pose proof (hint_spec _ _ _ _ Eh) as Hs.
    destruct h as [[r c]|]; simpl in H.
    + destruct (hints_of_session frames reqs _ _) as [hs'| |] eqn:E; simpl in H; try done.
      simplify_eq. apply IH in E as [Hnd Hfresh]. simpl in Hfresh.
      destruct Hs as [[Hnew _] ->]. simpl in Hfresh. split.
      * constructor; [|done]. intros Hin. apply (Hfresh _ Hin). set_solver.
      * intros x [->|Hx]%elem_of_cons; [done|].
        intros Hh. apply (Hfresh _ Hx). set_solver.
    + destruct (hints_of_session frames reqs _ _) as [hs'| |] eqn:E; simpl in H; try done.
      simplify_eq. by apply IH in E.
  - destruct (reveal self rc io) as [[[mine self1] io1]| |] eqn:Er; simpl in H; try done.
    apply IH in H as [Hnd Hfresh]. split; [done|].
    by rewrite (reveal_hinted_cells _ _ _ _ _ _ Er) in Hfresh.
Qed.

Lemma search_neighbours_in_grid g search ns :
  (∀ r c v x v', in_grid g (r, c) → search r c v = Ok (Some x, v') → in_grid g x) →
  Forall (in_grid g) ns →
  ∀ v x v', search_neighbours search ns v = Ok (Some x, v') → in_grid g x.
Proof.
  intros Hs. induction ns as [|[nr nc] ns IH]; intros Hns v x v' H; simpl in H; [done|].
  apply Forall_cons in Hns as [Hn Hns].
  destruct (decide ((nr, nc) ∈ v)); [by eapply IH|].
  destruct (search nr nc v) as [[[y|] v2]| |] eqn:E; simpl in H; try done.
  - simplify_eq. by eapply Hs.
  - by eapply IH.
Qed.

Lemma search_in_grid frames g :
  ∀ r c v x v', in_grid g (r, c) →
    _recursive_backtrack_search frames g r c v = Ok (Some x, v') → in_grid g x.
Proof.
  induction frames as [|frames IH]; intros r c v x v' Hin H; simpl in H; [done|].
  rewrite search_loop_cases in H.
  assert (Hloop : ∀ w,
    match frames with
    | O => Raise RecursionError
    | S _ => search_neighbours (_recursive_backtrack_search frames g)
               (get_neighbours g r c) w
    end = Ok (Some x, v') → in_grid g x).
  { intros w. destruct frames as [|f0]; [done|].
    apply search_neighbours_in_grid; [done|apply get_neighbours_in_grid]. }
  destruct (unhinted_unopened_non_mine g r c) as [[|]| |]; simpl in H; try done;
    [|by eapply Hloop].
  destruct (get_slot (cells g) r c) as [s| |]; simpl in H; try done.
  destruct (attr surrounding_mines_count s) as [n| |]; simpl in H; try done.
  destruct (n =? 0); [by simplify_eq|by eapply Hloop].
Qed.

Lemma hint_from_in_grid frames g seeds x g' :
  Forall (in_grid g) seeds → hint_from frames g seeds = Ok (Some x, g') → in_grid g x.
Proof.
  induction seeds as [|[r c] seeds IH]; intros Hseeds H; simpl in H; [done|].
  apply Forall_cons in Hseeds as [Hin Hseeds].
  destruct (unhinted_unopened_non_mine g r c) as [[|]| |]; simpl in H; try done;
    [|by apply IH].
  destruct (_recursive_backtrack_search frames g r c ∅) as [[[y|] v]| |] eqn:E;
    simpl in H; try done; [|by apply IH].
  simplify_eq. by eapply search_in_grid.
Qed.

Lemma hint_in_grid frames g x g' : hint frames g = Ok (Some x, g') → in_grid g x.
Proof.
  apply hint_from_in_grid, Forall_forall. intros y. apply elem_of_hint_seeds.
Qed.

Lemma hint_seeds_in_grid g : Forall (in_grid g) (hint_seeds g).
Proof. apply Forall_forall. intros x. apply elem_of_hint_seeds. Qed.

Lemma length_hint_seeds g :
  length (hint_seeds g) = (Z.to_nat (height g) * Z.to_nat (width g))%nat.
Proof. rewrite hint_seeds_coordinates. apply length_coordinates. Qed.

(** On a board all of whose slots hold cells [hint] returns or runs into the
    recursion limit. *)
Lemma hint_outcome frames g :
  wf_grid g →
  (∃ h g', hint frames g = Ok (h, g')) ∨ hint frames g = Raise RecursionError.
Proof.
  intros Hwf. pose proof (hint_fuel frames g) as Hnf.
  destruct (hint frames g) as [[h g']|e|] eqn:E; [left; eauto| |done].
  right. f_equal. apply (hint_from_no_raise g Hwf _ _ e (hint_seeds_in_grid g) E).
Qed.

(** With more frames than the grid has cells it returns. *)
Lemma hint_within_limit frames g :
  (Z.to_nat (height g) * Z.to_nat (width g) < frames)%nat →
  hint frames g ≠ Raise RecursionError.
Proof.
  intros Hf. apply hint_from_returns; [by rewrite length_hint_seeds|].
  apply hint_seeds_in_grid.
Qed.

Lemma hint_returns frames g :
  wf_grid g → (Z.to_nat (height g) * Z.to_nat (width g) < frames)%nat →
  ∃ h g', hint frames g = Ok (h, g').
Proof.
  intros Hwf Hf. destruct (hint_outcome frames g Hwf) as [H|H]; [done|].
  by destruct (hint_within_limit frames g Hf).
Qed.


Lemma hint_none_exhaustive frames g g' :
  wf_grid g → hint frames g = Ok (None, g') → ∀ q, in_grid g q → ¬ hintable g q.
Proof.
  intros Hwf H q Hq Hh.
  apply (hint_from_finds g Hwf frames (hint_seeds g) q None g' (hint_seeds_in_grid g));
    [by apply elem_of_hint_seeds|done|exact H|done].
Qed.

(** ** The loop condition of a game *)

Lemma first_true_spec {X} (test : X → result bool) xs :
  Forall (λ x, ∃ b, test x = Ok b) xs →
  ∃ b, first_true test xs = Ok b ∧ (b = true ↔ ∃ x, x ∈ xs ∧ test x = Ok true).
Proof.
  induction xs as [|x xs IH]; intros Hall; simpl.
  - exists false. split; [done|]. split; [done|].
    intros (x & Hx & _). by apply elem_of_nil in Hx.
  - apply Forall_cons in Hall as [[b Hb] Hall]. rewrite Hb. simpl. destruct b.
    + exists true. split; [done|]. split; [|done]. intros _. exists x.
      split; [apply elem_of_cons; by left|done].
    + destruct (IH Hall) as (b & Hft & Hiff). exists b. split; [done|].
      rewrite Hiff. split.
      * intros (y & Hy & Ht). exists y. split; [apply elem_of_cons; by right|done].
      * intros (y & [->|Hy]%elem_of_cons & Ht); [congruence|eauto].
Qed.

Lemma unopened_non_mine_true s :
  unopened_non_mine s = Ok true ↔ ∃ c, s = SCell c ∧ is_open c = false ∧ has_mine c = false.
Proof.
  destruct s as [c|x]; simpl.
  - split.
    + intros H. exists c. injection H as H. apply andb_true_iff in H as [Ho Hm].
      apply negb_true_iff in Ho, Hm. done.
    + intros (c' & E & Ho & Hm). injection E as <-. by rewrite Ho, Hm.
  - split; [done|]. by intros (c & ? & _).
Qed.

Lemma cell_at_lookup g rc c :
  grid_shape g → in_grid g rc →
  (cell_at g rc = Some c
   ↔ ∃ row, cells g !! Z.to_nat rc.1 = Some row ∧ row !! Z.to_nat rc.2 = Some (SCell c)).
Proof.
  intros Hs Hin. destruct (shape_lookup g rc Hs Hin) as (row & s & Hrow & Hslot & _).
  destruct Hin as [Hr Hc]. unfold cell_at. rewrite get_slot_lookup by lia.
  rewrite Hrow. simpl. rewrite Hslot. split.
  - intros H. exists row. split; [done|]. destruct s; by simplify_eq.
  - intros (row' & Hrow' & Hs'). by simplify_eq.
Qed.

Lemma has_unopened_non_mines_wf g :
  wf_grid g →
  ∃ b, has_unopened_non_mines g = Ok b
       ∧ (b = true ↔ ∃ rc c, in_grid g rc ∧ cell_at g rc = Some c
                             ∧ is_open c = false ∧ has_mine c = false).
Proof.
  intros [Hs Hcells]. pose proof Hs as [Hh Hw].
  assert (Hrow : ∀ row, row ∈ cells g →
            ∃ b, first_true unopened_non_mine row = Ok b
                 ∧ (b = true ↔ ∃ s, s ∈ row ∧ unopened_non_mine s = Ok true)).
  { intros row Hin. apply first_true_spec.
    rewrite Forall_forall in Hcells. specialize (Hcells row Hin).
    eapply Forall_impl; [exact Hcells|]. intros s [c ->]. simpl. eauto. }
  destruct (first_true_spec (first_true unopened_non_mine) (cells g)) as (b & Hb & Hiff).
  { apply Forall_forall. intros row Hin. destruct (Hrow row Hin) as (b & ? & _). eauto. }
  exists b. split; [done|]. rewrite Hiff. split.
  - intros (row & Hin & Ht). destruct (Hrow row Hin) as (b' & Hb' & Hiff').
    assert (b' = true) as -> by congruence.
    destruct (proj1 Hiff' eq_refl) as (s & Hs' & Hu).
    apply unopened_non_mine_true in Hu as (c & -> & Ho & Hm).
    apply list_elem_of_lookup_1 in Hin as [i Hi]. apply list_elem_of_lookup_1 in Hs' as [j Hj].
    pose proof (lookup_lt_Some _ _ _ Hi) as Hli. pose proof (lookup_lt_Some _ _ _ Hj) as Hlj.
    rewrite Forall_forall in Hw.
    rewrite (Hw row) in Hlj by (by eapply list_elem_of_lookup_2).
    assert (Hin' : in_grid g (Z.of_nat i, Z.of_nat j)).
    { unfold in_grid. simpl. lia. }
    exists (Z.of_nat i, Z.of_nat j), c. split_and!; try done.
    apply cell_at_lookup; [done..|]. simpl. rewrite !Nat2Z.id. eauto.
  - intros (rc & c & Hin & Hat & Ho & Hm).
    apply cell_at_lookup in Hat as (row & Hi & Hj); [|done..].
    assert (Hrin : row ∈ cells g) by (by eapply list_elem_of_lookup_2).
    exists row. split; [done|]. destruct (Hrow row Hrin) as (b' & -> & Hiff').
    f_equal. apply Hiff'. exists (SCell c). split; [by eapply list_elem_of_lookup_2|].
    apply unopened_non_mine_true. eauto.
Qed.


(** ** Reading a coordinate *)

Lemma get_valid_coordinate_loop_first_valid fuel prompt max_index :
  ∀ io,
    match get_valid_coordinate_loop fuel prompt max_index io with
    | Ok (z, io') =>
        ∃ skipped line,
          stdin io = skipped ++ line :: stdin io'
          ∧ int_of_str line = Ok z ∧ 0 <= z <= max_index
          ∧ Forall (λ l, ∀ n, int_of_str l = Ok n → ¬ (0 <= n <= max_index)) skipped
    | Raise e =>
        e = EOFError
        ∧ Forall (λ l, ∀ n, int_of_str l = Ok n → ¬ (0 <= n <= max_index)) (stdin io)
    | NoFuel => True
    end.
Proof.
  induction fuel as [|fuel IH]; intros io; simpl; [done|].
  unfold input. destruct (stdin io) as [|line rest] eqn:Ein; simpl; [done|].
  set (io1 := mkConsole rest (stdout io ++ [prompt])).
  assert (Hrec : ∀ msg,
    (∀ n, int_of_str line = Ok n → ¬ (0 <= n <= max_index)) →
    match get_valid_coordinate_loop fuel prompt max_index (print msg io1) with
    | Ok (z, io') =>
        ∃ skipped line',
          line :: rest = skipped ++ line' :: stdin io'
          ∧ int_of_str line' = Ok z ∧ 0 <= z <= max_index
          ∧ Forall (λ l, ∀ n, int_of_str l = Ok n → ¬ (0 <= n <= max_index)) skipped
    | Raise e =>
        e = EOFError
        ∧ Forall (λ l, ∀ n, int_of_str l = Ok n → ¬ (0 <= n <= max_index)) (line :: rest)
    | NoFuel => True
    end).
  { intros msg Hrej. specialize (IH (print msg io1)).
    destruct (get_valid_coordinate_loop fuel prompt max_index (print msg io1))
      as [[z io']|e|]; [| |done].
    - destruct IH as (skipped & line' & Hst & Hz & Hr & Hall). simpl in Hst.
      exists (line :: skipped), line'. split_and!; try done; try lia.
      + simpl. by rewrite Hst.
      + by constructor.
    - destruct IH as [-> Hall]. split; [done|]. by constructor. }
  destruct (int_of_str_cases line) as [[n Hn]|Hn]; rewrite Hn.
  - destruct (Z.leb_spec 0 n); destruct (Z.leb_spec n max_index); simpl;
      try (apply Hrec; intros n' Hn'; assert (n' = n) as -> by congruence; lia).
    exists [], line. split_and!; done.
  - apply Hrec. intros n' Hn'. congruence.
Qed.

(** ** The course of a game *)

Lemma later_state_refl g : later_state g g.
Proof.
  unfold later_state. split_and!; try done.
  intros rc c _ Hat. left. by exists c.
Qed.

Lemma later_state_trans g1 g2 g3 :
  later_state g1 g2 → wf_grid g2 → later_state g2 g3 → later_state g1 g3.
Proof.
  intros (Hw & Hh & Hd & Hm & Hs & Hc) Hwf (Hw' & Hh' & Hd' & Hm' & Hs' & Hc').
  unfold later_state. split_and!; try congruence; [set_solver|].
  intros rc c Hin Hat.
  assert (Hin2 : in_grid g2 rc) by (unfold in_grid in *; rewrite Hw, Hh; done).
  destruct (Hc rc c Hin Hat) as [(c2 & Hat2 & Hm2 & Hn2 & Ho2)|[_ Hx]].
  - destruct (Hc' rc c2 Hin2 Hat2) as [(c3 & Hat3 & Hm3 & Hn3 & Ho3)|[Hm3 Hx]].
    + left. exists c3. split_and!; try congruence. auto.
    + right. split; [congruence|done].
  - exfalso. destruct (wf_cell_at g2 rc Hwf Hin2) as (c2 & Hget & _). congruence.
Qed.

Lemma later_state_hint frames g h g' : hint frames g = Ok (h, g') → later_state g g'.
Proof.
  intros H. apply hint_spec in H. destruct h as [x|].
  - destruct H as [_ ->]. unfold later_state. simpl. split_and!; try done; [set_solver|].
    intros rc c _ Hat. left. by exists c.
  - subst. apply later_state_refl.
Qed.

Lemma hint_keeps_wf frames g h g' :
  wf_grid g → hint frames g = Ok (h, g') → wf_grid g'.
Proof.
  intros Hwf H. apply hint_spec in H. destruct h as [x|].
  - destruct H as [_ ->]. done.
  - by subst.
Qed.

Lemma hints_of_session_in_grid frames reqs :
  ∀ self io hs, hints_of_session frames reqs self io = Ok hs →
    ∀ x, x ∈ hs → in_grid (grid self) x.
Proof.
  induction reqs as [|[|rc] reqs IH]; intros self io hs H; simpl in H.
  - simplify_eq. by intros x ?%elem_of_nil.
  - destruct (hint frames (grid self)) as [[h g']| |] eqn:Eh; simpl in H; try done.
    unfold request_hint in H. rewrite Eh in H. simpl in H.
    pose proof (later_state_hint _ _ _ _ Eh) as (Hw & Hh & _).
    assert (Hrec : ∀ io1 hs', hints_of_session frames reqs (mkGame g') io1 = Ok hs' →
                     ∀ x, x ∈ hs' → in_grid (grid self) x).
    { intros io1 hs' E x Hx. specialize (IH _ _ _ E x Hx).
      unfold in_grid in *. simpl in IH. by rewrite <- Hw, <- Hh. }
    destruct h as [[r c]|]; simpl in H;
      destruct (hints_of_session frames reqs _ _) as [hs'| |] eqn:E; simpl in H; try done;
      simplify_eq; [|by eapply Hrec].
    intros x [->|Hx]%elem_of_cons; [by eapply hint_in_grid|by eapply Hrec].
  - destruct (reveal self rc io) as [[[mine self1] io1]| |] eqn:Er; simpl in H; try done.
    apply reveal_Ok in Er as (c & cs & _ & _ & _ & -> & _).
    intros x Hx. apply (IH _ _ _ H x Hx).
Qed.

Lemma later_state_reveal self rc io mine self' io' :
  wf_grid (grid self) → in_grid (grid self) rc →
  reveal self rc io = Ok (mine, self', io') →
  later_state (grid self) (grid self')
  ∧ (mine = false → wf_grid (grid self'))
  ∧ (mine = true →
     mine_at (grid self) rc ∧ get_slot (cells (grid self')) rc.1 rc.2 = Ok (SStr "X")).
Proof.
  intros [Hs Hcells] Hin H.
  apply reveal_Ok in H as (c & cs & Hget & Hm & Hput & -> & _).
  assert (Hat : cell_at (grid self) rc = Some c) by (unfold cell_at; by rewrite Hget).
  destruct (put_slot_in (grid self) rc
              (if mine then SStr "X" else SCell (with_is_open true c)) Hs Hin)
    as (cs' & Hput' & Hs' & Hg & Hoth & Hall).
  assert (cs' = cs) as -> by congruence. simpl.
  split_and!.
  - unfold later_state. simpl. split_and!; try done.
    intros rc' c' Hin' Hat'. destruct (decide (rc' = rc)) as [->|Hne].
    + assert (c' = c) as -> by congruence. destruct mine.
      * right. by rewrite Hg.
      * left. exists (with_is_open true c). unfold cell_at. simpl. rewrite Hg. done.
    + left. exists c'. unfold cell_at in *. simpl. rewrite Hoth by done. done.
  - intros ->. split; [done|]. apply Hall; [done|]. by eexists.
  - intros ->. split; [|done]. unfold mine_at. by rewrite Hat, <- Hm.
Qed.

Lemma get_valid_coordinate_only_eof plane max_index io e :
  _get_valid_coordinate plane max_index io = Raise e → e = EOFError.
Proof.
  unfold _get_valid_coordinate. intros H.
  pose proof (get_valid_coordinate_loop_first_valid (S (length (stdin io)))
                ("Enter " ++ plane ++ " coordinate between 0 and "
                 ++ str_of_int max_index ++ ": ")%string max_index io) as Hl.
  rewrite H in Hl. by destruct Hl.
Qed.

Lemma is_cell_open_wf g rc :
  wf_grid g → in_grid g rc → ∃ b, is_cell_open g rc.1 rc.2 = Ok b.
Proof.
  intros Hwf Hin. destruct (wf_cell_at g rc Hwf Hin) as (c & Hget & _).
  unfold is_cell_open. rewrite Hget. simpl. eauto.
Qed.

Lemma get_user_guess_loop_only_eof fuel self :
  wf_grid (grid self) →
  ∀ io e, get_user_guess_loop fuel self io = Raise e → e = EOFError.
Proof.
  intros Hwf. induction fuel as [|fuel IH]; intros io e H; simpl in H; [done|].
  destruct (get_valid_coordinate_spec "column" (width (grid self) - 1) io) as [_ Hok1].
  destruct (_get_valid_coordinate "column" _ io) as [[col io1]|e1|] eqn:E1;
    simpl in H; [|injection H as <-; by eapply get_valid_coordinate_only_eof|done].
  destruct (Hok1 _ _ eq_refl) as [Hcol _].
  destruct (get_valid_coordinate_spec "row" (height (grid self) - 1) io1) as [_ Hok2].
  destruct (_get_valid_coordinate "row" _ io1) as [[row io2]|e2|] eqn:E2;
    simpl in H; [|injection H as <-; by eapply get_valid_coordinate_only_eof|done].
  destruct (Hok2 _ _ eq_refl) as [Hrow _].
  destruct (is_cell_open_wf (grid self) (row, col) Hwf) as [b Hb].
  { unfold in_grid. simpl. lia. }
  simpl in Hb. rewrite Hb in H. simpl in H. destruct b; [by eapply IH|done].
Qed.

(** One turn of the loop of [play] on a board all of whose slots hold
    cells. *)
Lemma play_turn_inv frames self io :
  wf_grid (grid self) →
  match play_turn frames self io with
  | Ok (st, self', io') =>
      later_state (grid self) (grid self')
      ∧ match st with
        | InProgress => wf_grid (grid self')
        | Won => wf_grid (grid self') ∧ has_unopened_non_mines (grid self') = Ok false
        | Lost =>
            ∃ rc, in_grid (grid self) rc ∧ mine_at (grid self) rc
                  ∧ get_slot (cells (grid self')) rc.1 rc.2 = Ok (SStr "X")
        end
  | Raise e =>
      e = EOFError
      ∨ (e = RecursionError
         ∧ (frames ≤ Z.to_nat (height (grid self)) * Z.to_nat (width (grid self)))%nat)
  | NoFuel => False
  end.
Proof.
  intros Hwf. unfold play_turn.
  destruct (has_unopened_non_mines_wf _ Hwf) as (b & Hb & _). rewrite Hb. simpl.
  destruct b; [|split; [apply later_state_refl|done]].
  unfold input. destruct (stdin io) as [|line rest]; simpl; [by left|].
  set (io1 := mkConsole rest _).
  destruct (String.eqb (lower (strip line)) "play").
  - destruct (get_user_guess_spec self (Grid_print (grid self) io1)) as [Hnf Hok].
    pose proof (get_user_guess_loop_only_eof
                  (S (length (stdin (Grid_print (grid self) io1)))) self Hwf
                  (Grid_print (grid self) io1)) as Heof.
    unfold _get_user_guess in *.
    destruct (get_user_guess_loop _ self _) as [[rc io2]|e|]; simpl;
      [|left; by apply Heof|done].
    destruct (Hok _ _ eq_refl) as (Hin & _ & _).
    destruct (reveal_wf self rc io2 Hwf Hin) as (mine & self2 & io3 & Er).
    rewrite Er. simpl.
    destruct (later_state_reveal _ _ _ _ _ _ Hwf Hin Er) as (Hls & Hsafe & Hmine).
    split; [done|]. destruct mine.
    + destruct (Hmine eq_refl) as [? ?]. eauto.
    + by apply Hsafe.
  - destruct (String.eqb (lower (strip line)) "hint"); simpl.
    + unfold request_hint.
      destruct (hint_outcome frames _ Hwf) as [(h & g' & Eh)|Eh]; rewrite Eh; simpl.
      * destruct h as [[r c]|]; simpl;
          (split; [by eapply later_state_hint|by eapply hint_keeps_wf]).
      * right. split; [done|].
        destruct (decide (Z.to_nat (height (grid self)) * Z.to_nat (width (grid self))
                          < frames)%nat) as [Hlt|Hge]; [|lia].
        by destruct (hint_within_limit frames (grid self) Hlt).
    + split; [apply later_state_refl|done].
Qed.

Lemma play_loop_inv frames fuel :
  ∀ self io, wf_grid (grid self) →
    match play_loop frames fuel self io with
    | Ok (st, self', io') =>
        later_state (grid self) (grid self')
        ∧ match st with
          | InProgress => False
          | Won => wf_grid (grid self') ∧ has_unopened_non_mines (grid self') = Ok false
          | Lost =>
              ∃ rc, in_grid (grid self) rc ∧ mine_at (grid self) rc
                    ∧ get_slot (cells (grid self')) rc.1 rc.2 = Ok (SStr "X")
          end
    | Raise e =>
        e = EOFError
        ∨ (e = RecursionError
           ∧ (frames ≤ Z.to_nat (height (grid self)) * Z.to_nat (width (grid self)))%nat)
    | NoFuel => True
    end.
Proof.
  induction fuel as [|fuel IH]; intros self io Hwf; simpl; [done|].
  pose proof (play_turn_inv frames self io Hwf) as Ht.
  destruct (play_turn frames self io) as [[[st self1] io1]|e|]; simpl; [|done..].
  destruct Ht as [Hls Hst]. destruct st; [|done..].
  specialize (IH self1 io1 Hst).
  destruct (play_loop frames fuel self1 io1) as [[[st self2] io2]|e|]; [| |done].
  2:{ destruct Hls as (Hw & Hh & _). by rewrite <- Hw, <- Hh. }
  destruct IH as [Hls2 Hst2]. split; [by eapply later_state_trans|].
  destruct st; [done| |done].
  destruct Hst2 as (rc & Hin & Hm & Hx).
  destruct Hls as (Hw & Hh & _ & _ & _ & Hc).
  assert (Hin0 : in_grid (grid self) rc) by (unfold in_grid in *; by rewrite <- Hw, <- Hh).
  exists rc. split_and!; try done.
  destruct (wf_cell_at _ rc Hwf Hin0) as (c & _ & Hat).
  destruct (wf_cell_at _ rc Hst Hin) as (c1 & Hget1 & Hat1).
  unfold mine_at in *. rewrite Hat. rewrite Hat1 in Hm. simpl in *.
  destruct (Hc rc c Hin0 Hat) as [(c' & Hat' & Hm' & _)|[_ Hx']]; congruence.
Qed.

Lemma play_inv frames self io :
  wf_grid (grid self) →
  match play frames self io with
  | Ok (st, self', io') =>
      later_state (grid self) (grid self')
      ∧ match st with
        | InProgress => False
        | Won => wf_grid (grid self') ∧ has_unopened_non_mines (grid self') = Ok false
        | Lost =>
            ∃ rc, in_grid (grid self) rc ∧ mine_at (grid self) rc
                  ∧ get_slot (cells (grid self')) rc.1 rc.2 = Ok (SStr "X")
        end
  | Raise e =>
      e = EOFError
      ∨ (e = RecursionError
         ∧ (frames ≤ Z.to_nat (height (grid self)) * Z.to_nat (width (grid self)))%nat)
  | NoFuel => False
  end.
Proof.
  intros Hwf. unfold play.
  pose proof (play_loop_inv frames (S (length (stdin io))) self io Hwf) as H.
  destruct (play_loop_spec frames (S (length (stdin io))) self io) as [Hnf _]; [lia|].
  by destruct (play_loop _ _ _ _).
Qed.

(* ===================================================================== *)
(** * Construction                                                      *)
(* ===================================================================== *)

(** C2. After construction every cell without a mine stores the exact number
    of mines among its neighbours in the grid (at most 8, none across an
    edge); on the 3 by 3 board with mines at (0,0) and (2,2) only, the cell
    (1,1) stores 2. *)
Theorem adjacency_count_exact :
  (∀ draw w h d g,
     Grid_init draw w h d = Ok g →
     ∀ rc c, in_grid g rc → cell_at g rc = Some c → has_mine c = false →
       surrounding_mines_count c = hazard_neighbours g rc)
  ∧ (Grid_init draw_corners 3 3 2 = Ok board33
     ∧ (∀ rc, in_grid board33 rc → (mine_at board33 rc ↔ rc = (0, 0) ∨ rc = (2, 2)))
     ∧ surrounding_mines_count <$> cell_at board33 (1, 1) = Some 2).
Proof.
  split.
  - intros draw w h d g Hinit rc c Hin Hat Hm.
    destruct (Grid_init_inv draw w h d g Hinit)
      as (k & mines & _ & _ & _ & _ & _ & _ & _ & _ & _ & _ & _ & Hcells).
    pose proof (built_mine_at g mines Hcells rc Hin) as Hmine.
    rewrite Hcells in Hat by done. unfold built_cell in Hat.
    destruct (decide (rc ∈ mines)) as [e|n]; simplify_eq; try done. simpl.
    apply window_count_is_hazard_neighbours; [done|]. by rewrite Hmine.
  - split; [by vm_compute|]. split; [|by vm_compute].
    intros [r c] [Hr Hc]. simpl in Hr, Hc.
    assert (r = 0 ∨ r = 1 ∨ r = 2) as [->|[->| ->]] by lia;
      assert (c = 0 ∨ c = 1 ∨ c = 2) as [->|[->| ->]] by lia;
      unfold mine_at; vm_compute; split; intros H; try done;
      try (by left); try (by right);
      destruct H as [H|H]; inversion H.
Qed.

Lemma adjacency_count_exact_witness :
  Grid_init draw_corners 3 3 2 = Ok board33
  ∧ in_grid board33 (1, 1)
  ∧ cell_at board33 (1, 1) = Some (mkCell false 2 false)
  ∧ surrounding_mines_count (mkCell false 2 false) = hazard_neighbours board33 (1, 1).
Proof.
  assert (H2 : in_grid board33 (1, 1)) by (unfold in_grid; simpl; lia).
  assert (H3 : cell_at board33 (1, 1) = Some (mkCell false 2 false)) by reflexivity.
  assert (H1 : Grid_init draw_corners 3 3 2 = Ok board33) by (vm_compute; reflexivity).
  refine (conj H1 (conj H2 (conj H3 _))).
  exact (proj1 adjacency_count_exact draw_corners 3 3 2 board33 H1 (1, 1)
           (mkCell false 2 false) H2 H3 eq_refl).
Defined.

(** C3. For valid dimensions and difficulty the constructor builds a board
    whose number of mines is the documented one, max(floor(width * height *
    rate), minimum) with (rate, minimum) = (0.10, 1), (0.15, 2), (0.20, 3); the
    mines are at that many pairwise different positions of the grid.  The
    product is a double in the code: the statement is for boards of fewer
    than 2^50 cells. *)
Theorem construction_hazard_count draw w h d :
  2 <= w → 2 <= h → 1 <= d <= 3 → w * h < 2 ^ 50 →
  ∃ g mine_positions,
    Grid_init draw w h d = Ok g
    ∧ mine_count g = Some (documented_hazard_count d (w * h))
    ∧ hazard_total g = documented_hazard_count d (w * h)
    ∧ NoDup mine_positions
    ∧ Z.of_nat (length mine_positions) = documented_hazard_count d (w * h)
    ∧ (∀ rc, rc ∈ mine_positions → in_grid g rc)
    ∧ (∀ rc, in_grid g rc → (mine_at g rc ↔ rc ∈ mine_positions)).
Proof.
  intros Hw Hh Hd Hb.
  destruct (Grid_init_valid draw w h d Hw Hh Hd Hb) as [g Hinit].
  destruct (Grid_init_inv draw w h d g Hinit)
    as (k & mines & Ht & _ & _ & _ & _ & Hk & _ & _ & Hnd & Hlen & Hin & Hcells).
  assert (4 <= w * h) by nia.
  rewrite tier_mine_count_valid in Ht by lia.
  assert (Ek : k = documented_hazard_count d (w * h)) by congruence.
  rewrite Ek in Hk, Hlen. clear Ht Ek.
  pose proof (built_mine_at g mines Hcells) as Hmine.
  rewrite Forall_forall in Hin.
  exists g, mines. split_and!; try done.
  unfold hazard_total. rewrite <- Hlen. f_equal.
  apply Permutation_length, NoDup_Permutation; [|done|].
  - apply NoDup_filter, NoDup_coordinates.
  - intros x. rewrite list_elem_of_filter, elem_of_coordinates_in_grid. split.
    + intros [Hm Hx]. by apply Hmine.
    + intros Hx. split; [|by apply Hin]. apply Hmine; [by apply Hin|done].
Qed.

Lemma construction_hazard_count_witness :
  ∃ g mine_positions,
    Grid_init draw_corners 3 3 2 = Ok g
    ∧ mine_count g = Some (documented_hazard_count 2 (3 * 3))
    ∧ hazard_total g = documented_hazard_count 2 (3 * 3)
    ∧ NoDup mine_positions
    ∧ Z.of_nat (length mine_positions) = documented_hazard_count 2 (3 * 3)
    ∧ (∀ rc, rc ∈ mine_positions → in_grid g rc)
    ∧ (∀ rc, in_grid g rc → (mine_at g rc ↔ rc ∈ mine_positions)).
Proof.
  apply (construction_hazard_count draw_corners 3 3 2); lia.
Defined.

(** C5 (as the code has it). The constructor checks nothing and has no
    configuration error; what it does with an input follows from its
    arithmetic.  For a difficulty other than 1, 2 and 3 it raises
    [AttributeError] whatever the dimensions, and so does
    [Minesweeper.__init__]: a bad difficulty never yields a board.  For a
    difficulty [d] in 1..3 (the product of the dimensions within 2^50 either
    way) it returns a board exactly when neither dimension is negative and
    there are at least [d] cells, also for a width or a height below 2, and it
    raises [ValueError] otherwise, [random.sample] being asked for more
    positions than there are; the board is well formed, of the dimensions
    asked for, with nothing hinted, whatever the random draws.  The lower
    bound 2 on the dimensions is enforced by the driver alone, whose prompt
    loop only hands on a width and a height above 1. *)
Theorem construction_succeeds_on_valid_input :
  (∀ draw w h d,
     2 <= w → 2 <= h → 1 <= d <= 3 → w * h < 2 ^ 50 →
     ∃ g, Grid_init draw w h d = Ok g
          ∧ wf_grid g ∧ width g = w ∧ height g = h ∧ difficulty g = d
          ∧ hinted_cells g = ∅)
  ∧ (∀ draw w h d,
       ¬ (1 <= d <= 3) →
       Grid_init draw w h d = Raise AttributeError
       ∧ Minesweeper_init draw w h d = Raise AttributeError)
  ∧ (∀ draw w h d,
       1 <= d <= 3 → - 2 ^ 50 < w * h < 2 ^ 50 →
       (0 <= w → 0 <= h → d <= w * h →
        ∃ g, Grid_init draw w h d = Ok g
             ∧ wf_grid g ∧ width g = w ∧ height g = h ∧ difficulty g = d
             ∧ hinted_cells g = ∅)
       ∧ (¬ (0 <= w ∧ 0 <= h ∧ d <= w * h) →
          Grid_init draw w h d = Raise ValueError
          ∧ Minesweeper_init draw w h d = Raise ValueError))
  ∧ (∀ io, read_dimensions io ≠ NoFuel)
  ∧ (∀ io w h io', read_dimensions io = Ok (w, h, io') → 2 <= w ∧ 2 <= h).
Proof.
  assert (Hbuilt : ∀ draw w h d,
    (∃ g, Grid_init draw w h d = Ok g) →
    ∃ g, Grid_init draw w h d = Ok g
         ∧ wf_grid g ∧ width g = w ∧ height g = h ∧ difficulty g = d
         ∧ hinted_cells g = ∅).
  { intros draw w h d [g Hinit].
    destruct (Grid_init_inv draw w h d g Hinit)
      as (k & mines & _ & Hwf & ? & ? & ? & _ & ? & _).
    exists g. split_and!; done. }
  split_and!.
  - intros draw w h d Hw Hh Hd Hb. apply Hbuilt.
    by apply Grid_init_valid.
  - intros draw w h d Hd.
    pose proof (Grid_init_unknown_difficulty draw w h d Hd) as E.
    split; [done|]. unfold Minesweeper_init. by rewrite E.
  - intros draw w h d Hd Hb. destruct (Grid_init_cases draw w h d Hd Hb) as [Hok Hbad].
    split.
    + intros Hw Hh Hroom. apply Hbuilt. by apply Hok.
    + intros Hno. pose proof (Hbad Hno) as E.
      split; [done|]. unfold Minesweeper_init. by rewrite E.
  - intros io. unfold read_dimensions.
    apply (read_dimensions_loop_spec (S (length (stdin io))) io). lia.
  - intros io w h io' H. unfold read_dimensions in H.
    eapply (proj2 (read_dimensions_loop_spec (S (length (stdin io))) io ltac:(lia))).
    exact H.
Qed.

Lemma construction_succeeds_on_valid_input_witness :
  (∃ g, Grid_init draw_first 2 2 1 = Ok g
        ∧ wf_grid g ∧ width g = 2 ∧ height g = 2 ∧ difficulty g = 1
        ∧ hinted_cells g = ∅)
  ∧ (Grid_init draw_first 5 5 0 = Raise AttributeError
     ∧ Minesweeper_init draw_first 5 5 0 = Raise AttributeError)
  ∧ (∃ g, Grid_init draw_first 1 3 3 = Ok g
          ∧ wf_grid g ∧ width g = 1 ∧ height g = 3 ∧ difficulty g = 3
          ∧ hinted_cells g = ∅)
  ∧ (Grid_init draw_first 1 2 3 = Raise ValueError
     ∧ Minesweeper_init draw_first 1 2 3 = Raise ValueError)
  ∧ (Grid_init draw_first (-1) 4 1 = Raise ValueError
     ∧ Minesweeper_init draw_first (-1) 4 1 = Raise ValueError)
  ∧ (2 <= 3 ∧ 2 <= 4).
Proof.
  refine (conj _ (conj _ (conj _ (conj _ (conj _ _))))).
  - apply (proj1 construction_succeeds_on_valid_input draw_first 2 2 1); lia.
  - apply (proj1 (proj2 construction_succeeds_on_valid_input) draw_first 5 5 0). lia.
  - apply (proj1 (proj1 (proj2 (proj2 construction_succeeds_on_valid_input))
                    draw_first 1 3 3 ltac:(lia) ltac:(lia))); lia.
  - apply (proj2 (proj1 (proj2 (proj2 construction_succeeds_on_valid_input))
                    draw_first 1 2 3 ltac:(lia) ltac:(lia))). lia.
  - apply (proj2 (proj1 (proj2 (proj2 construction_succeeds_on_valid_input))
                    draw_first (-1) 4 1 ltac:(lia) ltac:(lia))). lia.
  - apply (proj2 (proj2 (proj2 (proj2 construction_succeeds_on_valid_input)))
             (mkConsole ["1"; "5"; "3"; "4"]%string []) 3 4
             (mkConsole []
                ["Enter the width of the grid: "; "Enter the height of the grid: ";
                 "The grid must be at least 2x2. Please enter valid dimensions.";
                 "Enter the width of the grid: "; "Enter the height of the grid: "]%string)).
    reflexivity.
Defined.

(** C5, the claim as stated fails: the constructor accepts a 1 by 1 board. *)
Lemma construction_unvalidated_counterexample :
  ¬ (∀ draw w h d,
       ¬ (2 <= w ∧ 2 <= h ∧ 1 <= d <= 3) → ∃ e, Grid_init draw w h d = Raise e).
Proof.
  intros H. destruct (H draw_first 1 1 1) as [e He]; [lia|].
  vm_compute in He. discriminate He.
Qed.

(* ===================================================================== *)
(** * Hints                                                             *)
(* ===================================================================== *)

(** C1. A coordinate [hint] returns was not in the set of hinted cells, which
    holds every coordinate returned before; its cell is unopened, has no mine
    and has no mine around it; the coordinate is added to the hinted set.  So
    the hints a game gives, whatever guesses are made in between, are
    pairwise different.  This holds for every number of frames the
    interpreter allows. *)
Theorem hint_returns_fresh_safe_cell :
  (∀ frames g x g',
     hint frames g = Ok (Some x, g') →
     (x ∉ hinted_cells g)
     ∧ (∃ c, cell_at g x = Some c ∧ is_open c = false ∧ has_mine c = false
             ∧ surrounding_mines_count c = 0)
     ∧ g' = with_hinted_cells ({[ x ]} ∪ hinted_cells g) g)
  ∧ (∀ frames reqs self io hs,
       hints_of_session frames reqs self io = Ok hs →
       NoDup hs ∧ ∀ x, x ∈ hs → x ∉ hinted_cells (grid self)).
Proof.
  split.
  - intros frames g x g' H. apply hint_spec in H as [[Hnew Hcell] ->]. done.
  - intros frames reqs. apply hints_of_session_fresh.
Qed.

Lemma hint_returns_fresh_safe_cell_witness :
  hint default_recursion_limit board33
  = Ok (Some (0, 2), with_hinted_cells ({[ (0, 2) ]} ∪ ∅) board33)
  ∧ (((0, 2) ∉ hinted_cells board33)
     ∧ (∃ c, cell_at board33 (0, 2) = Some c ∧ is_open c = false ∧ has_mine c = false
             ∧ surrounding_mines_count c = 0)
     ∧ with_hinted_cells ({[ (0, 2) ]} ∪ ∅) board33
       = with_hinted_cells ({[ (0, 2) ]} ∪ hinted_cells board33) board33)
  ∧ (NoDup [(0, 2); (2, 0)]
     ∧ ∀ x, x ∈ [(0, 2); (2, 0)] → x ∉ hinted_cells (grid (mkGame board33))).
Proof.
  assert (H1 : hint default_recursion_limit board33
               = Ok (Some (0, 2), with_hinted_cells ({[ (0, 2) ]} ∪ ∅) board33))
    by reflexivity.
  refine (conj H1 (conj _ _)).
  - exact (proj1 hint_returns_fresh_safe_cell default_recursion_limit board33 (0, 2) _ H1).
  - apply (proj2 hint_returns_fresh_safe_cell default_recursion_limit
             [AskHint; Guess (1, 1); AskHint; AskHint] (mkGame board33) no_input).
    vm_compute. reflexivity.
Defined.




(** C9. [hint] terminates, and within width * height nested searches.  The
    outer scan has width * height seeds; a search is only entered at a cell
    that is not in the visited set, and the set it hands back holds that cell
    and everything visited before, so each nested call has fewer unvisited
    cells of the grid left: a search never nests deeper than the number of
    unvisited cells.  With the frame that the call of [get_neighbours] in the
    deepest search takes, [hint] stays within the recursion limit whenever
    more frames than the grid has cells are allowed, and a larger allowance
    changes nothing. *)
Theorem hint_terminates (g : Grid) :
  length (hint_seeds g) = (Z.to_nat (height g) * Z.to_nat (width g))%nat
  ∧ (∀ frames, hint frames g ≠ NoFuel)
  ∧ (∀ frames, (length (hint_seeds g) < frames)%nat →
       hint frames g ≠ Raise RecursionError)
  ∧ (∀ frames frames', (frames ≤ frames')%nat →
       hint frames g ≠ Raise RecursionError → hint frames' g = hint frames g)
  ∧ (∀ frames r c (v : gset coord),
       in_grid g (r, c) → (r, c) ∉ v → (size (grid_set g ∖ v) < frames)%nat →
       _recursive_backtrack_search frames g r c v ≠ Raise RecursionError
       ∧ _recursive_backtrack_search frames g r c v ≠ NoFuel
       ∧ (size (grid_set g ∖ ({[ (r, c) ]} ∪ v)) < size (grid_set g ∖ v))%nat
       ∧ ∀ res v', _recursive_backtrack_search frames g r c v = Ok (res, v') →
           v ⊂ v' ∧ (r, c) ∈ v').
Proof.
  split_and!.
  - apply length_hint_seeds.
  - intros frames. apply hint_fuel.
  - intros frames Hf. apply hint_from_returns; [done|apply hint_seeds_in_grid].
  - intros frames frames' Hle H. by apply hint_from_more.
  - intros frames r c v Hin Hv Hsize.
    destruct (search_returns g frames r c v Hin Hv Hsize) as (Hnr & Hnf & Hmono).
    split_and!; [done|done|by apply unvisited_shrinks|].
    intros res v' H. specialize (Hmono res v' H). set_solver.
Qed.

Lemma hint_terminates_witness :
  (length (hint_seeds board33) < 20)%nat
  ∧ hint 20 board33 ≠ Raise RecursionError.
Proof.
  assert (H1 : (length (hint_seeds board33) < 20)%nat) by (vm_compute; lia).
  refine (conj H1 _).
  exact (proj1 (proj2 (proj2 (hint_terminates board33))) 20%nat H1).
Defined.




(* ===================================================================== *)
(** * Guesses and the course of a game                                  *)
(* ===================================================================== *)

(** C6, the claim as stated fails: opening a cell that is open already
    raises nothing. *)
Lemma reveal_unchecked_counterexample :
  ¬ (∀ self rc io,
       (¬ in_grid (grid self) rc) ∨ is_cell_open (grid self) rc.1 rc.2 = Ok true →
       ∃ e, reveal self rc io = Raise e).
Proof.
  intros H. destruct (H (mkGame board22_one) (0, 1) no_input) as [e He].
  - right. reflexivity.
  - vm_compute in He. discriminate He.
Qed.

(** C6 (as the code has it). The checks are made where the guess is read,
    and nothing is raised: [_get_user_guess] returns (a guess, or the
    exception of an exhausted input), the guess it returns is inside the grid
    and names an unopened cell; a number out of range is answered with a
    message and the prompt again, a cell that is open already with a message
    and both prompts again.  The board is not touched by any of this. *)
Theorem guess_is_validated_by_prompting (self : Minesweeper) (io : console) :
  _get_user_guess self io ≠ NoFuel
  ∧ (∀ rc io',
       _get_user_guess self io = Ok (rc, io') →
       in_grid (grid self) rc ∧ is_cell_open (grid self) rc.1 rc.2 = Ok false)
  ∧ (∀ fuel prompt max_index line rest n,
       stdin io = line :: rest → int_of_str line = Ok n → ¬ (0 <= n <= max_index) →
       get_valid_coordinate_loop (S fuel) prompt max_index io
       = get_valid_coordinate_loop fuel prompt max_index
           (print ("Invalid input. Please enter a number between 0 and "
                   ++ str_of_int max_index ++ ".")%string
              (mkConsole rest (stdout io ++ [prompt]))))
  ∧ (∀ fuel column_index io1 row_index io2,
       _get_valid_coordinate "column" (width (grid self) - 1) io = Ok (column_index, io1) →
       _get_valid_coordinate "row" (height (grid self) - 1) io1 = Ok (row_index, io2) →
       is_cell_open (grid self) row_index column_index = Ok true →
       get_user_guess_loop (S fuel) self io
       = get_user_guess_loop fuel self
           (print "Invalid input. The cell is already opened. Please choose another cell."
              io2)).
Proof.
  destruct (get_user_guess_spec self io) as [Hnf Hok]. split_and!.
  - done.
  - intros rc io' H. destruct (Hok rc io' H) as (? & ? & _). done.
  - intros fuel prompt max_index line rest n Hin Hn Hout. simpl.
    unfold input. rewrite Hin. simpl. rewrite Hn.
    destruct (Z.leb_spec 0 n); destruct (Z.leb_spec n max_index); simpl; try done. lia.
  - intros fuel column_index io1 row_index io2 Hc Hr Ho. simpl.
    rewrite Hc. simpl. rewrite Hr. simpl. rewrite Ho. done.
Qed.

Lemma guess_is_validated_by_prompting_witness :
  _get_user_guess (mkGame board22_one) (mkConsole ["7"; "1"; "0"; "0"; "1"]%string [])
  = Ok ((1, 0),
        mkConsole []
          ["Enter column coordinate between 0 and 1: ";
           "Invalid input. Please enter a number between 0 and 1.";
           "Enter column coordinate between 0 and 1: ";
           "Enter row coordinate between 0 and 1: ";
           "Invalid input. The cell is already opened. Please choose another cell.";
           "Enter column coordinate between 0 and 1: ";
           "Enter row coordinate between 0 and 1: "]%string)
  ∧ (in_grid (grid (mkGame board22_one)) (1, 0)
     ∧ is_cell_open (grid (mkGame board22_one)) (1, 0).1 (1, 0).2 = Ok false).
Proof.
  assert (H1 : _get_user_guess (mkGame board22_one)
                 (mkConsole ["7"; "1"; "0"; "0"; "1"]%string [])
               = Ok ((1, 0),
                     mkConsole []
                       ["Enter column coordinate between 0 and 1: ";
                        "Invalid input. Please enter a number between 0 and 1.";
                        "Enter column coordinate between 0 and 1: ";
                        "Enter row coordinate between 0 and 1: ";
                        "Invalid input. The cell is already opened. Please choose another cell.";
                        "Enter column coordinate between 0 and 1: ";
                        "Enter row coordinate between 0 and 1: "]%string))
    by (vm_compute; reflexivity).
  refine (conj H1 _).
  exact (proj1 (proj2 (guess_is_validated_by_prompting _ _)) _ _ H1).
Defined.




(** C8, the claim as stated fails: a guess at a mine is answered too, and
    then the cell is not marked open but replaced by the string 'X'. *)
Lemma reveal_mine_replaces_cell_counterexample :
  ¬ (∀ self rc io mine self' io',
       wf_grid (grid self) → in_grid (grid self) rc →
       is_cell_open (grid self) rc.1 rc.2 = Ok false →
       reveal self rc io = Ok (mine, self', io') →
       ∃ c, cell_at (grid self) rc = Some c
            ∧ cell_at (grid self') rc = Some (with_is_open true c)).
Proof.
  intros H.
  assert (Hwf : wf_grid (grid (mkGame board22)))
    by (apply (bool_decide_unpack _); vm_compute; exact I).
  assert (Hin : in_grid (grid (mkGame board22)) (0, 0)) by (unfold in_grid; simpl; lia).
  assert (E : ∃ self' io', reveal (mkGame board22) (0, 0) no_input = Ok (true, self', io')
                           ∧ cell_at (grid self') (0, 0) = None).
  { eexists _, _. split; vm_compute; reflexivity. }
  destruct E as (self' & io' & E & Hx).
  destruct (H _ _ _ _ _ _ Hwf Hin eq_refl E) as (c & _ & Hc).
  rewrite Hx in Hc. discriminate Hc.
Qed.

(** C8 (as the code has it). A guess at a cell of the grid of a game in
    progress is answered; it changes the slot of that cell and nothing else:
    the dimensions, the difficulty, the number of mines, the hinted set and
    every other slot stay as they are.  A cell without a mine is marked open,
    its mine flag and its count as before; a cell with a mine is replaced by
    the string 'X'.  No neighbour is opened. *)
Theorem reveal_changes_one_slot (self : Minesweeper) (rc : coord) (io : console) :
  wf_grid (grid self) → in_grid (grid self) rc →
  ∃ c self' io',
    cell_at (grid self) rc = Some c
    ∧ reveal self rc io = Ok (has_mine c, self', io')
    ∧ width (grid self') = width (grid self)
    ∧ height (grid self') = height (grid self)
    ∧ difficulty (grid self') = difficulty (grid self)
    ∧ mine_count (grid self') = mine_count (grid self)
    ∧ hinted_cells (grid self') = hinted_cells (grid self)
    ∧ grid_shape (grid self')
    ∧ get_slot (cells (grid self')) rc.1 rc.2
      = Ok (if has_mine c then SStr "X"
            else SCell (mkCell false (surrounding_mines_count c) true))
    ∧ (∀ rc', in_grid (grid self) rc' → rc' ≠ rc →
         get_slot (cells (grid self')) rc'.1 rc'.2
         = get_slot (cells (grid self)) rc'.1 rc'.2).
Proof.
  intros Hwf Hin. destruct (wf_cell_at _ rc Hwf Hin) as (c & Hget & Hat).
  destruct Hwf as [Hs _]. exists c.
  unfold reveal, _has_guessed_mine, Grid_has_mine, update_slot. rewrite Hget. simpl.
  destruct (has_mine c) eqn:Em; simpl.
  - destruct (put_slot_in _ rc (SStr "X") Hs Hin) as (cs & -> & Hs' & Hg & Hoth & _).
    simpl. eexists _, _. split_and!; done.
  - rewrite Hget. simpl.
    destruct (put_slot_in _ rc (SCell (with_is_open true c)) Hs Hin)
      as (cs & -> & Hs' & Hg & Hoth & _).
    simpl. eexists _, _. split_and!; try done.
    simpl. rewrite Hg. unfold with_is_open. by rewrite Em.
Qed.

Lemma reveal_changes_one_slot_witness :
  wf_grid (grid (mkGame board22)) ∧ in_grid (grid (mkGame board22)) (1, 1)
  ∧ ∃ c self' io',
      cell_at (grid (mkGame board22)) (1, 1) = Some c
      ∧ reveal (mkGame board22) (1, 1) no_input = Ok (has_mine c, self', io')
      ∧ width (grid self') = width (grid (mkGame board22))
      ∧ height (grid self') = height (grid (mkGame board22))
      ∧ difficulty (grid self') = difficulty (grid (mkGame board22))
      ∧ mine_count (grid self') = mine_count (grid (mkGame board22))
      ∧ hinted_cells (grid self') = hinted_cells (grid (mkGame board22))
      ∧ grid_shape (grid self')
      ∧ get_slot (cells (grid self')) (1, 1).1 (1, 1).2
        = Ok (if has_mine c then SStr "X"
              else SCell (mkCell false (surrounding_mines_count c) true))
      ∧ (∀ rc', in_grid (grid (mkGame board22)) rc' → rc' ≠ (1, 1) →
           get_slot (cells (grid self')) rc'.1 rc'.2
           = get_slot (cells (grid (mkGame board22))) rc'.1 rc'.2).
Proof.
  assert (H1 : wf_grid (grid (mkGame board22)))
    by (apply (bool_decide_unpack _); vm_compute; exact I).
  assert (H2 : in_grid (grid (mkGame board22)) (1, 1)) by (unfold in_grid; simpl; lia).
  refine (conj H1 (conj H2 _)).
  exact (reveal_changes_one_slot (mkGame board22) (1, 1) no_input H1 H2).
Defined.

(* ===================================================================== *)
(** * Further properties of the grid                                    *)
(* ===================================================================== *)

Lemma length_window rc : length (window rc) = 9%nat.
Proof.
  unfold window, py_range.
  replace (rc.1 + 2 - (rc.1 - 1)) with 3 by lia.
  replace (rc.2 + 2 - (rc.2 - 1)) with 3 by lia.
  reflexivity.
Qed.

Lemma elem_of_guarded_singleton {A} (P : Prop) `{!Decision P} (a x : A) :
  x ∈ (if decide P then [a] else []) → x = a.
Proof.
  destruct (decide P); [by intros ?%list_elem_of_singleton|by intros ?%elem_of_nil].
Qed.

Lemma NoDup_get_neighbours g r c : NoDup (get_neighbours g r c).
Proof.
  unfold get_neighbours. apply NoDup_bind; [| |apply NoDup_py_range].
  - intros r1 r2 [y1 y2] _ _ H1 H2.
    apply list_elem_of_bind in H1 as (c1 & H1 & _), H2 as (c2 & H2 & _).
    apply elem_of_guarded_singleton in H1, H2. congruence.
  - intros r1 _. apply NoDup_bind; [| |apply NoDup_py_range].
    + intros c1 c2 y _ _ H1 H2.
      apply elem_of_guarded_singleton in H1, H2. congruence.
    + intros c1 _. destruct (decide _); [apply NoDup_singleton|apply NoDup_nil_2].
Qed.

(** [Grid.get_neighbours] returns, each once, the cells of the grid that
    touch the given position at a side or a corner: never the position
    itself, never a position outside the grid, at most eight. *)
Theorem get_neighbours_spec (g : Grid) (r c : Z) :
  (∀ y, y ∈ get_neighbours g r c
        ↔ in_grid g y ∧ Z.abs (y.1 - r) <= 1 ∧ Z.abs (y.2 - c) <= 1 ∧ y ≠ (r, c))
  ∧ NoDup (get_neighbours g r c)
  ∧ (length (get_neighbours g r c) ≤ 8)%nat.
Proof.
  split_and!.
  - intros y. apply elem_of_get_neighbours.
  - apply NoDup_get_neighbours.
  - assert (H : (r, c) :: get_neighbours g r c ⊆+ window (r, c)).
    { apply NoDup_submseteq.
      - constructor; [|apply NoDup_get_neighbours].
        intros H. apply elem_of_get_neighbours in H as (_ & _ & _ & H). done.
      - intros y [->|Hy]%elem_of_cons; apply elem_of_window; simpl; [lia|].
        apply elem_of_get_neighbours in Hy. lia. }
    apply submseteq_length in H. rewrite length_window in H. simpl in H. exact (le_S_n _ _ H).
Qed.

(** [Grid._generate_grid_coordinate_positions] lists every position of the
    grid exactly once: height * width pairs, and nothing outside the grid. *)
Theorem grid_coordinate_positions_spec (g : Grid) :
  NoDup (_generate_grid_coordinate_positions g)
  ∧ (∀ rc, rc ∈ _generate_grid_coordinate_positions g ↔ in_grid g rc)
  ∧ length (_generate_grid_coordinate_positions g)
    = (Z.to_nat (height g) * Z.to_nat (width g))%nat.
Proof.
  split_and!.
  - apply NoDup_coordinates.
  - apply elem_of_coordinates_in_grid.
  - apply length_coordinates.
Qed.

(* ===================================================================== *)
(** * Further properties of the constructor                             *)
(* ===================================================================== *)

Lemma surrounding_bounds g rc :
  in_grid g rc → ¬ mine_at g rc → 0 <= surrounding g rc <= 8.
Proof.
  intros Hin Hm. unfold surrounding. split; [lia|].
  assert (length (filter (λ x, in_grid g x ∧ mine_at g x) (window rc))
          < length (window rc))%nat as H.
  { apply (length_filter_lt _ _ rc).
    - apply elem_of_window. lia.
    - by intros [_ ?]. }
  rewrite length_window in H. lia.
Qed.

(** Every cell of a board [Grid.__init__] returns is unopened; the count of
    a cell lies between 0 and 8; a cell with a mine keeps the count 0 it was
    created with; nothing has been hinted; and the board has the shape asked
    for. *)
Theorem constructed_board_is_fresh (draw : nat → nat) (w h d : Z) (g : Grid) :
  Grid_init draw w h d = Ok g →
  wf_grid g ∧ width g = w ∧ height g = h ∧ difficulty g = d ∧ hinted_cells g = ∅
  ∧ ∀ rc, in_grid g rc →
      ∃ c, cell_at g rc = Some c
           ∧ is_open c = false
           ∧ 0 <= surrounding_mines_count c <= 8
           ∧ (has_mine c = true → surrounding_mines_count c = 0).
Proof.
  intros Hinit.
  destruct (Grid_init_inv draw w h d g Hinit)
    as (k & mines & _ & Hwf & Hw & Hh & Hd & _ & Hhs & _ & _ & _ & _ & Hcells).
  split_and!; try done.
  intros rc Hin. exists (built_cell g mines rc). split; [by apply Hcells|].
  pose proof (built_mine_at g mines Hcells rc Hin) as Hmine.
  unfold built_cell. destruct (decide (rc ∈ mines)) as [e|n]; simpl.
  - split_and!; try done; lia.
  - assert (Hb : 0 <= surrounding g rc <= 8).
    { apply surrounding_bounds; [done|]. by rewrite Hmine. }
    split_and!; try done; lia.
Qed.

Lemma constructed_board_is_fresh_witness :
  wf_grid board33 ∧ width board33 = 3 ∧ height board33 = 3 ∧ difficulty board33 = 2
  ∧ hinted_cells board33 = ∅
  ∧ ∀ rc, in_grid board33 rc →
      ∃ c, cell_at board33 rc = Some c
           ∧ is_open c = false
           ∧ 0 <= surrounding_mines_count c <= 8
           ∧ (has_mine c = true → surrounding_mines_count c = 0).
Proof.
  apply (constructed_board_is_fresh draw_corners 3 3 2 board33).
  vm_compute. reflexivity.
Defined.

(** [Grid._place_mines] on a board all of whose slots hold cells, for
    positions inside the grid: it raises nothing, sets the mine flag of
    exactly the listed cells and changes nothing else, neither a count nor an
    open flag nor the shape of the board. *)
Theorem place_mines_marks_the_listed_cells (g : Grid) (mine_positions : list coord) :
  wf_grid g → Forall (in_grid g) mine_positions →
  ∃ g', _place_mines g mine_positions = Ok g'
    ∧ wf_grid g'
    ∧ width g' = width g ∧ height g' = height g ∧ difficulty g' = difficulty g
    ∧ mine_count g' = mine_count g ∧ hinted_cells g' = hinted_cells g
    ∧ ∀ rc, in_grid g rc →
        cell_at g' rc
        = (fun c => if decide (rc ∈ mine_positions) then with_has_mine true c else c)
            <$> cell_at g rc.
Proof. apply place_mines_spec. Qed.

Lemma place_mines_marks_the_listed_cells_witness :
  ∃ g', _place_mines board22 [(1, 1); (0, 1)] = Ok g'
    ∧ wf_grid g'
    ∧ width g' = width board22 ∧ height g' = height board22
    ∧ difficulty g' = difficulty board22
    ∧ mine_count g' = mine_count board22 ∧ hinted_cells g' = hinted_cells board22
    ∧ ∀ rc, in_grid board22 rc →
        cell_at g' rc
        = (fun c => if decide (rc ∈ [(1, 1); (0, 1)]) then with_has_mine true c else c)
            <$> cell_at board22 rc.
Proof.
  apply (place_mines_marks_the_listed_cells board22 [(1, 1); (0, 1)]).
  - apply (bool_decide_unpack _). vm_compute. exact I.
  - repeat constructor; unfold in_grid; simpl; lia.
Defined.

Lemma tier_mine_count_positive d total k :
  tier_mine_count d total = Some (Ok k) → 1 <= k.
Proof.
  unfold tier_mine_count.
  repeat case_match; try done;
    destruct (int_mul_float _ _); simpl; intros ?; simplify_eq; lia.
Qed.

Lemma constructed_has_unopened draw w h d g k :
  Grid_init draw w h d = Ok g → mine_count g = Some k →
  0 < w ∧ 0 < h ∧ 1 <= k <= w * h
  ∧ has_unopened_non_mines g = Ok (bool_decide (k < w * h)).
Proof.
  intros Hinit Hk.
  destruct (Grid_init_inv draw w h d g Hinit)
    as (k' & mines & Ht & Hwf & Hw & Hh & Hd & Hk' & Hhs & _ & Hnd & Hlen & Hin & Hcells).
  assert (k' = k) as -> by congruence.
  pose proof (tier_mine_count_positive _ _ _ Ht) as Hpos.
  pose proof (built_mine_at g mines Hcells) as Hmine.
  rewrite Forall_forall in Hin.
  assert (Hsub : mines ⊆+ _generate_grid_coordinate_positions g).
  { apply NoDup_submseteq; [done|]. intros x Hx.
    apply elem_of_coordinates_in_grid. by apply Hin. }
  apply submseteq_length in Hsub. rewrite length_coordinates in Hsub.
  assert (Hdims : 0 < w ∧ 0 < h ∧ Z.of_nat (Z.to_nat (height g) * Z.to_nat (width g)) = w * h).
  { rewrite Hw, Hh. destruct (Z.to_nat h) eqn:Eh; [lia|].
    destruct (Z.to_nat w) eqn:Ew; [lia|].
    split_and!; try lia; rewrite <- Eh, <- Ew, Nat2Z.inj_mul, !Z2Nat.id by lia; lia. }
  destruct Hdims as (Hwp & Hhp & Htot). split_and!; try lia.
  destruct (has_unopened_non_mines_wf g Hwf) as (b & Hb & Hiff). rewrite Hb. f_equal.
  destruct b.
  - symmetry. apply bool_decide_eq_true.
    destruct (proj1 Hiff eq_refl) as (rc & c & Hrc & Hat & _ & Hm).
    assert (Hnot : rc ∉ mines).
    { intros Hx. apply Hmine in Hx; [|done]. unfold mine_at in Hx.
      rewrite Hat in Hx. simpl in Hx. congruence. }
    assert (Hsub' : rc :: mines ⊆+ _generate_grid_coordinate_positions g).
    { apply NoDup_submseteq; [by constructor|].
      intros x [->|Hx]%elem_of_cons; apply elem_of_coordinates_in_grid; [done|by apply Hin]. }
    apply submseteq_length in Hsub'. rewrite length_coordinates in Hsub'.
    simpl in Hsub'. lia.
  - symmetry. apply bool_decide_eq_false. intros Hlt.
    assert (false = true); [|done]. apply Hiff.
    destruct (decide (Forall (λ x, x ∈ mines) (_generate_grid_coordinate_positions g)))
      as [Hall|Hex].
    + exfalso.
      assert (Hsub' : _generate_grid_coordinate_positions g ⊆+ mines).
      { apply NoDup_submseteq; [apply NoDup_coordinates|].
        rewrite Forall_forall in Hall. done. }
      apply submseteq_length in Hsub'. rewrite length_coordinates in Hsub'. lia.
    + apply not_Forall_Exists in Hex; [|apply _].
      apply Exists_exists in Hex as (rc & Hrc & Hnot). simpl in Hnot.
      apply elem_of_coordinates_in_grid in Hrc.
      exists rc, (built_cell g mines rc). split_and!; try done; [by apply Hcells|..];
        unfold built_cell; by rewrite decide_False.
Qed.

(** On a board [Grid.__init__] returns there are at least one mine and at
    most as many mines as cells, and [Grid.has_unopened_non_mines] answers
    [True] exactly when there are fewer mines than cells: a board whose every
    cell has a mine (1 by 1 at difficulty 1, say) is a game won before the
    first move. *)
Theorem new_board_is_playable_iff_a_cell_is_safe
  (draw : nat → nat) (w h d : Z) (g : Grid) (k : Z) :
  Grid_init draw w h d = Ok g → mine_count g = Some k →
  0 < w ∧ 0 < h ∧ 1 <= k <= w * h
  ∧ has_unopened_non_mines g = Ok (bool_decide (k < w * h)).
Proof. apply constructed_has_unopened. Qed.

Lemma new_board_is_playable_iff_a_cell_is_safe_witness :
  0 < 1 ∧ 0 < 1 ∧ 1 <= 1 <= 1 * 1
  ∧ has_unopened_non_mines (mkGrid 1 1 1 [[hidden true 0]] (Some 1) ∅)
    = Ok (bool_decide (1 < 1 * 1)).
Proof.
  apply (new_board_is_playable_iff_a_cell_is_safe draw_first 1 1 1
           (mkGrid 1 1 1 [[hidden true 0]] (Some 1) ∅) 1).
  - vm_compute. reflexivity.
  - reflexivity.
Defined.

(** For a width and a height of at least 2 and a difficulty in 1..3 (fewer
    than 2^50 cells) the board [Grid.__init__] builds has a cell without a
    mine: the loop of [play] is entered, a new game is never over before the
    first move. *)
Theorem new_game_is_in_progress (draw : nat → nat) (w h d : Z) :
  2 <= w → 2 <= h → 1 <= d <= 3 → w * h < 2 ^ 50 →
  ∃ g, Grid_init draw w h d = Ok g
       ∧ mine_count g = Some (documented_hazard_count d (w * h))
       ∧ documented_hazard_count d (w * h) < w * h
       ∧ has_unopened_non_mines g = Ok true.
Proof.
  intros Hw Hh Hd Hb. assert (4 <= w * h) by nia.
  destruct (Grid_init_valid draw w h d Hw Hh Hd Hb) as [g Hinit].
  destruct (Grid_init_inv draw w h d g Hinit) as (k & mines & Ht & _ & _ & _ & _ & Hk & _).
  rewrite tier_mine_count_valid in Ht by lia.
  assert (Ek : k = documented_hazard_count d (w * h)) by congruence.
  rewrite Ek in Hk. clear Ht Ek.
  assert (Hlt : documented_hazard_count d (w * h) < w * h).
  { unfold documented_hazard_count.
    assert (w * h * 10 / 100 < w * h) by (apply Z.div_lt_upper_bound; lia).
    assert (w * h * 15 / 100 < w * h) by (apply Z.div_lt_upper_bound; lia).
    assert (w * h * 20 / 100 < w * h) by (apply Z.div_lt_upper_bound; lia).
    repeat case_match; lia. }
  exists g. split_and!; try done.
  destruct (constructed_has_unopened draw w h d g _ Hinit Hk) as (_ & _ & _ & ->).
  by rewrite bool_decide_eq_true_2.
Qed.

Lemma new_game_is_in_progress_witness :
  ∃ g, Grid_init draw_first 2 2 3 = Ok g
       ∧ mine_count g = Some (documented_hazard_count 3 (2 * 2))
       ∧ documented_hazard_count 3 (2 * 2) < 2 * 2
       ∧ has_unopened_non_mines g = Ok true.
Proof. apply (new_game_is_in_progress draw_first 2 2 3); lia. Defined.

(* ===================================================================== *)
(** * Indexing the cells                                                *)
(* ===================================================================== *)

Lemma py_norm_index_cases len i :
  py_norm_index len i
  = if decide (0 <= i < Z.of_nat len) then Ok (Z.to_nat i)
    else if decide (- Z.of_nat len <= i < 0) then Ok (Z.to_nat (i + Z.of_nat len))
    else Raise IndexError.
Proof.
  unfold py_norm_index.
  destruct (Z.ltb_spec i 0); repeat case_decide; try lia;
    repeat (match goal with
            | |- context [?a <=? ?b] => destruct (Z.leb_spec a b)
            | |- context [?a <? ?b] => destruct (Z.ltb_spec a b)
            end); simpl; try done; lia.
Qed.

Lemma py_getitem_range {A} (l : list A) i :
  (∃ x, py_getitem l i = Ok x) ∨ py_getitem l i = Raise IndexError.
Proof.
  unfold py_getitem. destruct (py_norm_index (length l) i) as [j| |] eqn:E; simpl.
  - destruct (l !! j); eauto.
  - right. unfold py_norm_index in E. repeat case_match; by simplify_eq.
  - unfold py_norm_index in E. repeat case_match; by simplify_eq.
Qed.

Lemma py_getitem_outside {A} (l : list A) i :
  ¬ (- Z.of_nat (length l) <= i < Z.of_nat (length l)) →
  py_getitem l i = Raise IndexError.
Proof.
  intros H. unfold py_getitem. rewrite py_norm_index_cases.
  repeat case_decide; try lia. done.
Qed.

Lemma py_getitem_wrap {A} (l : list A) i :
  0 <= i < Z.of_nat (length l) →
  py_getitem l (i - Z.of_nat (length l)) = py_getitem l i.
Proof.
  intros H. unfold py_getitem. rewrite !py_norm_index_cases.
  repeat case_decide; try lia. simpl. by replace (i - Z.of_nat (length l) + Z.of_nat (length l)) with i by lia.
Qed.

Lemma get_slot_outside g r c :
  grid_shape g →
  ¬ (- height g <= r < height g ∧ - width g <= c < width g) →
  get_slot (cells g) r c = Raise IndexError.
Proof.
  intros [Hh Hw] Hout. unfold get_slot.
  destruct (decide (- height g <= r < height g)) as [Hr|Hr].
  - destruct (py_getitem_range (cells g) r) as [[row Hrow]|Hrow];
      rewrite Hrow; simpl; [|done].
    assert (Hlen : length row = Z.to_nat (width g)).
    { unfold py_getitem in Hrow.
      destruct (py_norm_index _ _) as [j| |]; simpl in Hrow; try done.
      destruct (cells g !! j) as [row'|] eqn:E; simplify_eq.
      rewrite Forall_forall in Hw. apply Hw. by eapply list_elem_of_lookup_2. }
    apply py_getitem_outside. rewrite Hlen. lia.
  - rewrite py_getitem_outside; [done|]. rewrite Hh. lia.
Qed.

(** A row or column index outside [-height, height) or [-width, width) makes
    every access to the cells raise [IndexError]: [Grid.is_cell_open],
    [Grid.has_mine], and with it the guess handling of [play], which then
    changes nothing. *)
Theorem cell_access_outside_raises (self : Minesweeper) (r c : Z) (io : console) :
  grid_shape (grid self) →
  ¬ (- height (grid self) <= r < height (grid self)
     ∧ - width (grid self) <= c < width (grid self)) →
  is_cell_open (grid self) r c = Raise IndexError
  ∧ Grid_has_mine (grid self) (r, c) = Raise IndexError
  ∧ reveal self (r, c) io = Raise IndexError.
Proof.
  intros Hs Hout. pose proof (get_slot_outside _ r c Hs Hout) as E.
  unfold is_cell_open, reveal, _has_guessed_mine, Grid_has_mine. simpl.
  rewrite E. done.
Qed.

Lemma cell_access_outside_raises_witness :
  is_cell_open (grid (mkGame board22)) 0 2 = Raise IndexError
  ∧ Grid_has_mine (grid (mkGame board22)) (0, 2) = Raise IndexError
  ∧ reveal (mkGame board22) (0, 2) no_input = Raise IndexError.
Proof.
  apply (cell_access_outside_raises (mkGame board22) 0 2 no_input).
  - apply (bool_decide_unpack _). vm_compute. exact I.
  - simpl. lia.
Defined.

(** Python's negative indices reach the cells too: inside the grid, a row
    index lowered by the height and a column index lowered by the width name
    the same cell, so [Grid.is_cell_open] and [Grid.has_mine] answer for it
    and a guess there opens it. *)
Theorem negative_indices_wrap (self : Minesweeper) (r c : Z) (io : console) :
  grid_shape (grid self) → in_grid (grid self) (r, c) →
  get_slot (cells (grid self)) (r - height (grid self)) (c - width (grid self))
  = get_slot (cells (grid self)) r c
  ∧ is_cell_open (grid self) (r - height (grid self)) (c - width (grid self))
    = is_cell_open (grid self) r c
  ∧ Grid_has_mine (grid self) (r - height (grid self), c - width (grid self))
    = Grid_has_mine (grid self) (r, c)
  ∧ reveal self (r - height (grid self), c - width (grid self)) io
    = reveal self (r, c) io.
Proof.
  intros Hs Hin.
  destruct (shape_lookup _ (r, c) Hs Hin) as (row & s & Hrow & Hslot & Hlen).
  destruct Hs as [Hh Hw]. destruct Hin as [Hr Hc]. simpl in *.
  assert (Eh : height (grid self) = Z.of_nat (length (cells (grid self)))) by lia.
  assert (Ew : width (grid self) = Z.of_nat (length row)) by lia.
  assert (Erow : py_getitem (cells (grid self)) r = Ok row).
  { unfold py_getitem. rewrite py_norm_index_nonneg by lia. simpl. by rewrite Hrow. }
  assert (Erow' : py_getitem (cells (grid self)) (r - height (grid self)) = Ok row).
  { rewrite Eh, py_getitem_wrap by lia. done. }
  assert (Eg : get_slot (cells (grid self)) (r - height (grid self))
                 (c - width (grid self))
               = get_slot (cells (grid self)) r c).
  { unfold get_slot. rewrite Erow, Erow'. simpl. rewrite Ew. apply py_getitem_wrap. lia. }
  assert (Ej : py_norm_index (length (cells (grid self))) (r - height (grid self))
               = py_norm_index (length (cells (grid self))) r).
  { rewrite !py_norm_index_cases. repeat case_decide; try lia. f_equal. lia. }
  assert (Ei : ∀ v, py_setitem row (c - width (grid self)) v = py_setitem row c v).
  { intros v. unfold py_setitem. rewrite !py_norm_index_cases.
    repeat case_decide; try lia. simpl. do 2 f_equal. lia. }
  assert (Ep : ∀ v, put_slot (cells (grid self)) (r - height (grid self))
                      (c - width (grid self)) v
                    = put_slot (cells (grid self)) r c v).
  { intros v. unfold put_slot. rewrite Ej, Erow, Erow'. simpl. by rewrite Ei. }
  split_and!; [done|..].
  - unfold is_cell_open. by rewrite Eg.
  - unfold Grid_has_mine. simpl. by rewrite Eg.
  - unfold reveal, _has_guessed_mine, Grid_has_mine, update_slot. simpl.
    rewrite Eg.
    destruct (get_slot (cells (grid self)) r c) as [[cell|x]| |] eqn:E; simpl; try done.
    destruct (has_mine cell); simpl.
    + rewrite Ep. by destruct (put_slot _ _ _ _).
    + rewrite Eg, E. simpl. by rewrite Ep.
Qed.

Lemma negative_indices_wrap_witness :
  get_slot (cells (grid (mkGame board22))) (1 - 2) (1 - 2)
  = get_slot (cells (grid (mkGame board22))) 1 1
  ∧ is_cell_open (grid (mkGame board22)) (1 - 2) (1 - 2)
    = is_cell_open (grid (mkGame board22)) 1 1
  ∧ Grid_has_mine (grid (mkGame board22)) (1 - 2, 1 - 2)
    = Grid_has_mine (grid (mkGame board22)) (1, 1)
  ∧ reveal (mkGame board22) (1 - 2, 1 - 2) no_input
    = reveal (mkGame board22) (1, 1) no_input.
Proof.
  apply (negative_indices_wrap (mkGame board22) 1 1 no_input).
  - apply (bool_decide_unpack _). vm_compute. exact I.
  - unfold in_grid. simpl. lia.
Defined.

(* ===================================================================== *)
(** * What is printed and read                                          *)
(* ===================================================================== *)

Lemma slot_str_same_view s1 s2 : same_view s1 s2 → slot_str s1 = slot_str s2.
Proof.
  destruct s1 as [c1|x1], s2 as [c2|x2]; simpl; try done.
  intros [Ho Hn]. rewrite <- Ho. destruct (is_open c1); [|done].
  by rewrite Hn.
Qed.

Lemma Grid_print_stdout g io :
  length (stdout (Grid_print g io)) = (length (stdout io) + length (cells g))%nat.
Proof.
  unfold Grid_print. revert io. induction (cells g) as [|row rows IH]; intros io; simpl.
  - lia.
  - rewrite IH. simpl. rewrite length_app. simpl. lia.
Qed.

(** [Grid.print] reads no input and writes one line per row.  What it
    writes depends only on which cells are open and on the counts of the open
    cells: boards that differ in the mines and in the counts of unopened cells
    are printed alike, so the display never shows where a mine is. *)
Theorem print_shows_only_open_cells (g1 g2 : Grid) (io : console) :
  Forall2 (Forall2 same_view) (cells g1) (cells g2) →
  Grid_print g1 io = Grid_print g2 io
  ∧ stdin (Grid_print g1 io) = stdin io
  ∧ length (stdout (Grid_print g1 io)) = (length (stdout io) + length (cells g1))%nat.
Proof.
  intros H. split; [|split; [apply Grid_print_stdin|apply Grid_print_stdout]].
  unfold Grid_print. revert io.
  induction H as [|row1 row2 rows1 rows2 Hrow Hrows IH]; intros io; simpl; [done|].
  assert (E : slot_str <$> row1 = slot_str <$> row2).
  { clear -Hrow. induction Hrow as [|s1 s2 r1 r2 Hs Hr IHr]; [done|].
    rewrite !fmap_cons, IHr. f_equal. by apply slot_str_same_view. }
  rewrite E. apply IH.
Qed.

Lemma print_shows_only_open_cells_witness :
  Grid_print board22 no_input = Grid_print board22_other no_input
  ∧ stdin (Grid_print board22 no_input) = stdin no_input
  ∧ length (stdout (Grid_print board22 no_input))
    = (length (stdout no_input) + length (cells board22))%nat.
Proof.
  apply (print_shows_only_open_cells board22 board22_other no_input).
  repeat (first [apply List.Forall2_nil | apply List.Forall2_cons]);
    (split; [reflexivity|discriminate]).
Defined.

(** [Minesweeper._get_valid_coordinate] returns the value of the first line
    of the input that is an integer between 0 and [max_index]; every line
    before it is used up and none after it; [ValueError] is caught inside,
    and the one exception that leaves it is [EOFError], when no line of the
    input is acceptable. *)
Theorem get_valid_coordinate_takes_first_valid
  (plane : string) (max_index : Z) (io : console) :
  match _get_valid_coordinate plane max_index io with
  | Ok (z, io') =>
      ∃ skipped line,
        stdin io = skipped ++ line :: stdin io'
        ∧ int_of_str line = Ok z ∧ 0 <= z <= max_index
        ∧ Forall (λ l, ∀ n, int_of_str l = Ok n → ¬ (0 <= n <= max_index)) skipped
  | Raise e =>
      e = EOFError
      ∧ Forall (λ l, ∀ n, int_of_str l = Ok n → ¬ (0 <= n <= max_index)) (stdin io)
  | NoFuel => False
  end.
Proof.
  unfold _get_valid_coordinate.
  pose proof (get_valid_coordinate_loop_first_valid (S (length (stdin io)))
                ("Enter " ++ plane ++ " coordinate between 0 and "
                 ++ str_of_int max_index ++ ": ")%string max_index io) as H.
  destruct (get_valid_coordinate_spec plane max_index io) as [Hnf _].
  unfold _get_valid_coordinate in Hnf.
  destruct (get_valid_coordinate_loop _ _ _ _) as [[z io']|e|]; done.
Qed.

(* ===================================================================== *)
(** * Hint requests                                                     *)
(* ===================================================================== *)

(** [Minesweeper.request_hint] on a board all of whose slots hold cells,
    when the interpreter allows more nested calls than the grid has cells:
    it reads no input, prints one line and leaves every cell as it is.  When
    some cell of the grid is unopened, without a mine, not hinted and without
    a mine around it, the line names such a cell, which is added to the hinted
    set; otherwise the line says that there is none and nothing changes. *)
Theorem request_hint_prints_one_line (frames : nat) (self : Minesweeper) (io : console) :
  wf_grid (grid self) →
  (Z.to_nat (height (grid self)) * Z.to_nat (width (grid self)) < frames)%nat →
  ∃ self' line,
    request_hint frames self io = Ok (self', print line io)
    ∧ cells (grid self') = cells (grid self)
    ∧ ((∃ r c,
          in_grid (grid self) (r, c) ∧ hintable (grid self) (r, c)
          ∧ line = ("Hint: Try opening the cell at (" ++ str_of_int r ++ ", "
                    ++ str_of_int c ++ ")")%string
          ∧ grid self'
            = with_hinted_cells ({[ (r, c) ]} ∪ hinted_cells (grid self)) (grid self))
       ∨ ((∀ q, in_grid (grid self) q → ¬ hintable (grid self) q)
          ∧ line = "No safe cells available for a hint!"%string
          ∧ grid self' = grid self)).
Proof.
  intros Hwf Hf. unfold request_hint.
  destruct (hint_returns frames _ Hwf Hf) as (h & g' & Eh). rewrite Eh. simpl.
  pose proof (hint_spec _ _ _ _ Eh) as Hs. destruct h as [[r c]|].
  - destruct Hs as [Hh ->]. eexists _, _. split; [done|]. split; [done|].
    left. exists r, c. split_and!; try done. by eapply hint_in_grid.
  - subst g'. eexists _, _. split; [done|]. split; [done|].
    right. split_and!; try done. by eapply hint_none_exhaustive.
Qed.

Lemma request_hint_prints_one_line_witness :
  ∃ self' line,
    request_hint default_recursion_limit (mkGame board33) no_input
    = Ok (self', print line no_input)
    ∧ cells (grid self') = cells (grid (mkGame board33))
    ∧ ((∃ r c,
          in_grid (grid (mkGame board33)) (r, c) ∧ hintable (grid (mkGame board33)) (r, c)
          ∧ line = ("Hint: Try opening the cell at (" ++ str_of_int r ++ ", "
                    ++ str_of_int c ++ ")")%string
          ∧ grid self'
            = with_hinted_cells ({[ (r, c) ]} ∪ hinted_cells (grid (mkGame board33)))
                (grid (mkGame board33)))
       ∨ ((∀ q, in_grid (grid (mkGame board33)) q → ¬ hintable (grid (mkGame board33)) q)
          ∧ line = "No safe cells available for a hint!"%string
          ∧ grid self' = grid (mkGame board33))).
Proof.
  apply (request_hint_prints_one_line default_recursion_limit (mkGame board33) no_input).
  - apply (bool_decide_unpack _). vm_compute. exact I.
  - vm_compute. lia.
Defined.

(** A game gives at most width * height hints, whatever guesses are made in
    between: every hint names a cell of the grid and no cell is named
    twice. *)
Theorem hints_are_bounded_by_the_grid
  (frames : nat) (reqs : list request) (self : Minesweeper) (io : console)
  (hs : list coord) :
  hints_of_session frames reqs self io = Ok hs →
  (∀ x, x ∈ hs → in_grid (grid self) x)
  ∧ (length hs ≤ Z.to_nat (height (grid self)) * Z.to_nat (width (grid self)))%nat.
Proof.
  intros H. pose proof (hints_of_session_in_grid frames reqs self io hs H) as Hin.
  split; [done|].
  destruct (hints_of_session_fresh frames reqs self io hs H) as [Hnd _].
  rewrite <- length_coordinates. apply submseteq_length, NoDup_submseteq; [done|].
  intros x Hx. apply elem_of_coordinates_in_grid. by apply Hin.
Qed.

Lemma hints_are_bounded_by_the_grid_witness :
  (∀ x, x ∈ [(0, 2); (2, 0)] → in_grid (grid (mkGame board33)) x)
  ∧ (length [(0, 2); (2, 0)]
     ≤ Z.to_nat (height (grid (mkGame board33))) * Z.to_nat (width (grid (mkGame board33))))%nat.
Proof.
  apply (hints_are_bounded_by_the_grid default_recursion_limit
           [AskHint; Guess (1, 1); AskHint; AskHint] (mkGame board33) no_input).
  vm_compute. reflexivity.
Defined.

(* ===================================================================== *)
(** * The course of a game                                              *)
(* ===================================================================== *)

(** On a board all of whose slots hold cells two exceptions can leave
    [Minesweeper.play]: [EOFError], raised when the input ends before the
    game does, and [RecursionError], raised by a hint request, and that only
    on a grid with at least as many cells as the interpreter allows nested
    calls.  No guess the prompts accept makes the game crash. *)
Theorem play_raises_only_eof_or_recursion
  (frames : nat) (self : Minesweeper) (io : console) (e : exn) :
  wf_grid (grid self) → play frames self io = Raise e →
  e = EOFError
  ∨ (e = RecursionError
     ∧ (frames ≤ Z.to_nat (height (grid self)) * Z.to_nat (width (grid self)))%nat).
Proof.
  intros Hwf H. pose proof (play_inv frames self io Hwf) as Hi. by rewrite H in Hi.
Qed.

Lemma play_raises_only_eof_or_recursion_witness :
  play default_recursion_limit (mkGame board22) (mkConsole ["play"; "1"; "x"]%string [])
  = Raise EOFError
  ∧ (EOFError = EOFError
     ∨ (EOFError = RecursionError
        ∧ (default_recursion_limit
           ≤ Z.to_nat (height (grid (mkGame board22)))
             * Z.to_nat (width (grid (mkGame board22))))%nat)).
Proof.
  assert (H : play default_recursion_limit (mkGame board22)
                (mkConsole ["play"; "1"; "x"]%string [])
              = Raise EOFError) by (vm_compute; reflexivity).
  refine (conj H _).
  apply (play_raises_only_eof_or_recursion default_recursion_limit (mkGame board22)
           (mkConsole ["play"; "1"; "x"]%string []) EOFError); [|exact H].
  apply (bool_decide_unpack _). vm_compute. exact I.
Defined.

(** Whatever is typed, a game that [Minesweeper.play] plays to its end
    leaves the board as it was apart from opened cells: the dimensions, the
    difficulty and the number of mines are unchanged, hinted cells stay
    hinted, every cell keeps its mine flag and its count, no open cell is
    closed, and the only slot that no longer holds its cell is that of a
    guessed mine. *)
Theorem play_keeps_the_board
  (frames : nat) (self : Minesweeper) (io : console) (st : game_state)
  (self' : Minesweeper) (io' : console) :
  wf_grid (grid self) → play frames self io = Ok (st, self', io') →
  later_state (grid self) (grid self').
Proof.
  intros Hwf H. pose proof (play_inv frames self io Hwf) as Hi. rewrite H in Hi. by destruct Hi.
Qed.

Lemma play_keeps_the_board_witness :
  ∃ self' io',
    play default_recursion_limit (mkGame board22) (mkConsole ["hint"; "play"; "1"; "1"; "play"; "0"; "0"]%string [])
    = Ok (Lost, self', io')
    ∧ later_state (grid (mkGame board22)) (grid self').
Proof.
  assert (E : ∃ self' io',
            play default_recursion_limit (mkGame board22)
              (mkConsole ["hint"; "play"; "1"; "1"; "play"; "0"; "0"]%string [])
            = Ok (Lost, self', io')).
  { eexists _, _. vm_compute. reflexivity. }
  destruct E as (self' & io' & E). exists self', io'. split; [exact E|].
  apply (play_keeps_the_board default_recursion_limit (mkGame board22)
           (mkConsole ["hint"; "play"; "1"; "1"; "play"; "0"; "0"]%string [])
           Lost self' io'); [|exact E].
  apply (bool_decide_unpack _). vm_compute. exact I.
Defined.

(** When [Minesweeper.play] ends with the game won, every cell of the grid
    that has no mine is open. *)
Theorem play_won_means_all_safe_cells_open
  (frames : nat) (self : Minesweeper) (io : console) (self' : Minesweeper)
  (io' : console) :
  wf_grid (grid self) → play frames self io = Ok (Won, self', io') →
  wf_grid (grid self')
  ∧ ∀ rc c, in_grid (grid self') rc → cell_at (grid self') rc = Some c →
      has_mine c = false → is_open c = true.
Proof.
  intros Hwf H. pose proof (play_inv frames self io Hwf) as Hi. rewrite H in Hi.
  destruct Hi as (_ & Hwf' & Hu). split; [done|].
  intros rc c Hin Hat Hm.
  destruct (has_unopened_non_mines_wf _ Hwf') as (b & Hb & Hiff).
  assert (b = false) as -> by congruence.
  destruct (is_open c) eqn:Ho; [done|].
  assert (false = true); [|done]. apply Hiff. eauto 10.
Qed.

Lemma play_won_means_all_safe_cells_open_witness :
  ∃ self' io',
    play default_recursion_limit (mkGame board22)
      (mkConsole ["play"; "1"; "0"; "play"; "0"; "1"; "play"; "1"; "1"]%string [])
    = Ok (Won, self', io')
    ∧ wf_grid (grid self')
    ∧ ∀ rc c, in_grid (grid self') rc → cell_at (grid self') rc = Some c →
        has_mine c = false → is_open c = true.
Proof.
  assert (E : ∃ self' io',
            play default_recursion_limit (mkGame board22)
              (mkConsole ["play"; "1"; "0"; "play"; "0"; "1"; "play"; "1"; "1"]%string [])
            = Ok (Won, self', io')).
  { eexists _, _. vm_compute. reflexivity. }
  destruct E as (self' & io' & E). exists self', io'. split; [exact E|].
  apply (play_won_means_all_safe_cells_open default_recursion_limit (mkGame board22)
           (mkConsole ["play"; "1"; "0"; "play"; "0"; "1"; "play"; "1"; "1"]%string [])
           self' io'); [|exact E].
  apply (bool_decide_unpack _). vm_compute. exact I.
Defined.

(** When [Minesweeper.play] ends with the game lost, a cell of the grid that
    had a mine from the start has been guessed, and its slot now holds the
    string 'X'. *)
Theorem play_lost_means_a_mine_was_guessed
  (frames : nat) (self : Minesweeper) (io : console) (self' : Minesweeper)
  (io' : console) :
  wf_grid (grid self) → play frames self io = Ok (Lost, self', io') →
  ∃ rc, in_grid (grid self) rc ∧ mine_at (grid self) rc
        ∧ get_slot (cells (grid self')) rc.1 rc.2 = Ok (SStr "X").
Proof.
  intros Hwf H. pose proof (play_inv frames self io Hwf) as Hi. rewrite H in Hi.
  by destruct Hi as [_ Hl].
Qed.

Lemma play_lost_means_a_mine_was_guessed_witness :
  ∃ self' io',
    play default_recursion_limit (mkGame board22) (mkConsole ["play"; "0"; "0"]%string []) = Ok (Lost, self', io')
    ∧ ∃ rc, in_grid (grid (mkGame board22)) rc ∧ mine_at (grid (mkGame board22)) rc
            ∧ get_slot (cells (grid self')) rc.1 rc.2 = Ok (SStr "X").
Proof.
  assert (E : ∃ self' io',
            play default_recursion_limit (mkGame board22) (mkConsole ["play"; "0"; "0"]%string [])
            = Ok (Lost, self', io')).
  { eexists _, _. vm_compute. reflexivity. }
  destruct E as (self' & io' & E). exists self', io'. split; [exact E|].
  apply (play_lost_means_a_mine_was_guessed default_recursion_limit (mkGame board22)
           (mkConsole ["play"; "0"; "0"]%string []) self' io'); [|exact E].
  apply (bool_decide_unpack _). vm_compute. exact I.
Defined.

(* ===================================================================== *)
(** * The main program                                                  *)
(* ===================================================================== *)

Lemma int_of_float_raises f e :
  int_of_float f = Raise e → e = OverflowError ∨ e = ValueError.
Proof. destruct f; simpl; intros H; try done; injection H as <-; auto. Qed.

Lemma int_of_float_fuel f : int_of_float f ≠ NoFuel.
Proof. by destruct f. Qed.

Lemma int_mul_float_raises n x e :
  int_mul_float n x = Raise e → e = OverflowError ∨ e = ValueError.
Proof.
  unfold int_mul_float.
  destruct (float_of_int n) as [f|e'|] eqn:Ef; simpl; intros H.
  - by eapply int_of_float_raises.
  - injection H as <-. unfold float_of_int in Ef.
    destruct (binary_normalize 53 1024 n 0 false); simplify_eq; auto.
  - done.
Qed.

Lemma int_mul_float_fuel n x : int_mul_float n x ≠ NoFuel.
Proof.
  unfold int_mul_float.
  destruct (float_of_int n) as [f|e'|] eqn:Ef; simpl; [apply int_of_float_fuel|done|].
  unfold float_of_int in Ef. by destruct (binary_normalize 53 1024 n 0 false).
Qed.

(** The exceptions [Grid.__init__] can raise. *)
Lemma Grid_init_raises draw w h d e :
  Grid_init draw w h d = Raise e →
  (e = AttributeError ∧ ¬ (1 <= d <= 3)) ∨ e = ValueError ∨ e = OverflowError.
Proof.
  rewrite Grid_init_unfold. unfold tier_mine_count.
  assert (Hk : ∀ k,
    (_set_cell_mines_and_surrounding_counts draw
       (mkGrid w h d (_create_empty_cells w h) (Some k) ∅)
     ≫= λ self, Ok (with_hinted_cells ∅ self)) = Raise e → e = ValueError).
  { intros k H.
    set (g0 := mkGrid w h d (_create_empty_cells w h) (Some k) ∅) in *.
    destruct (decide (0 <= k <= Z.of_nat (length (_generate_grid_coordinate_positions g0))))
      as [Hin|Hout].
    - destruct (set_cells_spec draw g0 k) as (g' & mines & Hset & _); try done.
      { apply create_empty_cells_wf. }
      { intros rc. apply create_empty_cells_at. }
      rewrite Hset in H. done.
    - unfold _set_cell_mines_and_surrounding_counts, _generate_mine_positions,
        random_sample in H. simpl in H.
      destruct (Z.leb_spec 0 k);
        destruct (Z.leb_spec k (Z.of_nat (length (_generate_grid_coordinate_positions g0))));
        simpl in H; try lia; by injection H as <-. }
  assert (Hm : ∀ m0 x,
    ((Z.max m0 <$> int_mul_float (w * h) x)
     ≫= (λ k, _set_cell_mines_and_surrounding_counts draw
                (mkGrid w h d (_create_empty_cells w h) (Some k) ∅)
              ≫= (λ self, Ok (with_hinted_cells ∅ self)))) = (Raise e : result Grid) →
    e = ValueError ∨ e = OverflowError).
  { intros m0 x H. pose proof (int_mul_float_raises (w * h) x) as Hr.
    destruct (int_mul_float (w * h) x) as [n|e'|]; simpl in H; [| |done].
    - left. by eapply Hk.
    - injection H as <-. destruct (Hr e' eq_refl); auto. }
  destruct (Z.eqb_spec d 1); [intros H; right; by eapply Hm|].
  destruct (Z.eqb_spec d 2); [intros H; right; by eapply Hm|].
  destruct (Z.eqb_spec d 3); [intros H; right; by eapply Hm|].
  intros H. injection H as <-. left. split; [done|lia].
Qed.

Lemma Grid_init_fuel draw w h d : Grid_init draw w h d ≠ NoFuel.
Proof.
  rewrite Grid_init_unfold. unfold tier_mine_count.
  assert (Hk : ∀ k,
    (_set_cell_mines_and_surrounding_counts draw
       (mkGrid w h d (_create_empty_cells w h) (Some k) ∅)
     ≫= λ self, Ok (with_hinted_cells ∅ self)) ≠ NoFuel).
  { intros k H.
    set (g0 := mkGrid w h d (_create_empty_cells w h) (Some k) ∅) in *.
    destruct (decide (0 <= k <= Z.of_nat (length (_generate_grid_coordinate_positions g0))))
      as [Hin|Hout].
    - destruct (set_cells_spec draw g0 k) as (g' & mines & Hset & _); try done.
      { apply create_empty_cells_wf. }
      { intros rc. apply create_empty_cells_at. }
      rewrite Hset in H. done.
    - unfold _set_cell_mines_and_surrounding_counts, _generate_mine_positions,
        random_sample in H. simpl in H.
      destruct (Z.leb_spec 0 k);
        destruct (Z.leb_spec k (Z.of_nat (length (_generate_grid_coordinate_positions g0))));
        simpl in H; try lia; done. }
  assert (Hm : ∀ m0 x,
    ((Z.max m0 <$> int_mul_float (w * h) x)
     ≫= (λ k, _set_cell_mines_and_surrounding_counts draw
                (mkGrid w h d (_create_empty_cells w h) (Some k) ∅)
              ≫= (λ self, Ok (with_hinted_cells ∅ self)))) ≠ (NoFuel : result Grid)).
  { intros m0 x H. pose proof (int_mul_float_fuel (w * h) x) as Hr.
    destruct (int_mul_float (w * h) x) as [n|e'|]; simpl in H; [|done..].
    by eapply Hk. }
  destruct (Z.eqb_spec d 1); [apply Hm|].
  destruct (Z.eqb_spec d 2); [apply Hm|].
  destruct (Z.eqb_spec d 3); [apply Hm|]. done.
Qed.

Lemma read_dimensions_loop_raises fuel :
  ∀ io e, read_dimensions_loop fuel io = Raise e → e = EOFError ∨ e = ValueError.
Proof.
  induction fuel as [|fuel IH]; intros io e H; simpl in H; [done|].
  unfold input in H.
  destruct (stdin io) as [|l1 rest1]; simpl in H; [injection H as <-; by left|].
  destruct (int_of_str_cases l1) as [[w Hw]|Hw]; rewrite Hw in H; simpl in H;
    [|injection H as <-; by right].
  destruct rest1 as [|l2 rest2]; simpl in H; [injection H as <-; by left|].
  destruct (int_of_str_cases l2) as [[h Hh]|Hh]; rewrite Hh in H; simpl in H;
    [|injection H as <-; by right].
  destruct ((1 <? w) && (1 <? h)); [done|]. by eapply IH.
Qed.

(** What the program of [play.py] can end with: the game won or lost, or one
    of five exceptions: [EOFError] (the input ends), [ValueError] (an answer
    to one of the three opening questions is no integer, or the board has no
    room for the mines), [AttributeError] (a difficulty other than 1, 2 or
    3), [OverflowError] (a number of cells beyond the range of a double) or
    [RecursionError] (a hint request on a large board).  In particular no
    access to the cells is ever out of range. *)
Theorem main_outcomes (frames : nat) (draw : nat → nat) (io : console) :
  match main frames draw io with
  | Ok (st, _, _) => st = Won ∨ st = Lost
  | Raise e =>
      e = EOFError ∨ e = ValueError ∨ e = AttributeError ∨ e = OverflowError
      ∨ e = RecursionError
  | NoFuel => False
  end.
Proof.
  unfold main, read_dimensions.
  destruct (read_dimensions_loop_spec (S (length (stdin io))) io) as [Hnf _]; [lia|].
  pose proof (read_dimensions_loop_raises (S (length (stdin io))) io) as Hr.
  destruct (read_dimensions_loop _ io) as [[[w h] io1]|e|]; simpl; [| |done].
  2:{ destruct (Hr e eq_refl) as [->| ->]; auto. }
  unfold input. destruct (stdin io1) as [|line rest]; simpl; [auto|].
  destruct (int_of_str_cases line) as [[d Hd]|Hd]; rewrite Hd; simpl; [|auto].
  unfold Minesweeper_init.
  pose proof (Grid_init_raises draw w h d) as Hraise.
  pose proof (Grid_init_fuel draw w h d) as Hfuel.
  destruct (Grid_init draw w h d) as [g|e|] eqn:Eg; simpl; [| |done].
  2:{ destruct (Hraise e eq_refl) as [[-> _]|[->| ->]]; auto. }
  destruct (Grid_init_inv draw w h d g Eg) as (_ & _ & _ & Hwf & _).
  set (io2 := mkConsole rest _).
  pose proof (play_inv frames (mkGame g) io2 Hwf) as Hp.
  destruct (play frames (mkGame g) io2) as [[[st self'] io']|e|]; [| |done].
  - destruct Hp as [_ Hst]. destruct st; auto. done.
  - destruct Hp as [->|[-> _]]; auto 10.
Qed.

(** With a width and a height accepted by the opening loop and an integer
    other than 1, 2 or 3 as difficulty, the program ends with
    [AttributeError] before a game starts: the difficulty is not asked for
    again. *)
Theorem main_stops_at_an_unknown_difficulty
  (frames : nat) (draw : nat → nat) (io : console) (w h : Z) (io1 : console)
  (line : string) (rest : list string) (d : Z) :
  read_dimensions io = Ok (w, h, io1) →
  stdin io1 = line :: rest → int_of_str line = Ok d → ¬ (1 <= d <= 3) →
  main frames draw io = Raise AttributeError.
Proof.
  intros Hdim Hin Hd Hout. unfold main. rewrite Hdim. simpl.
  unfold input. rewrite Hin. simpl. rewrite Hd. simpl.
  unfold Minesweeper_init. rewrite Grid_init_unfold. unfold tier_mine_count.
  destruct (Z.eqb_spec d 1); [lia|].
  destruct (Z.eqb_spec d 2); [lia|].
  destruct (Z.eqb_spec d 3); [lia|]. done.
Qed.

Lemma main_stops_at_an_unknown_difficulty_witness :
  main default_recursion_limit draw_first
    (mkConsole ["1"; "9"; "4"; "5"; "0"; "play"]%string [])
  = Raise AttributeError.
Proof.
  apply (main_stops_at_an_unknown_difficulty default_recursion_limit draw_first
           (mkConsole ["1"; "9"; "4"; "5"; "0"; "play"]%string []) 4 5
           (mkConsole ["0"; "play"]%string
              ["Enter the width of the grid: "; "Enter the height of the grid: ";
               "The grid must be at least 2x2. Please enter valid dimensions.";
               "Enter the width of the grid: "; "Enter the height of the grid: "]%string)
           "0"%string ["play"%string] 0).
  - vm_compute. reflexivity.
  - reflexivity.
  - vm_compute. reflexivity.
  - lia.
Defined.
